(** * InvoicyPro Dynamics: the invoice engine of [server.js]

    A shallow embedding of the Express handlers of [server.js] that compute
    invoice totals, number invoices, record payments, delete invoices and
    build the two reports, together with the properties the specification
    states about them; and of the other routes of the file (accounts and
    sessions, settings, clients, the list and fetch routes of invoices),
    with properties of theirs and of the application as a whole.

    The in-memory [db] object is a record of lists that every handler takes
    and returns; [uuidv4()] and [new Date()] are arguments of the handlers.
    JavaScript numbers are an interface ([JsNumber]) with two instances:
    [Binary64], the IEEE-754 doubles the program runs on, and [Exact], the
    rationals, where sums are exact. *)

From Stdlib Require Import ZArith List String Ascii Bool Lia.
From Stdlib Require Import DecimalString DecimalNat.
From Stdlib Require DecimalFacts.
From Stdlib Require Import QArith Qcanon Qround Qabs Lqa.
From Stdlib Require Import Floats.
From Stdlib Require Import Permutation Sorted.
Import ListNotations.

Open Scope string_scope.
Open Scope list_scope.
Open Scope Z_scope.

(** ** JavaScript numbers *)

(** The operations on numbers that the handlers use. [ltb a b] is [a < b],
    [leb a b] is [a <= b]; [a > b] and [a >= b] are written with the
    arguments swapped. [truthy] is [ToBoolean] on a number, [toFixed2 x] is
    [parseFloat(x.toFixed(2))], and [nan] is the value of
    [Number(undefined)]. *)
Class JsNumber (num : Type) : Type := {
  of_Z : Z -> num;
  nan : num;
  add : num -> num -> num;
  sub : num -> num -> num;
  mul : num -> num -> num;
  div : num -> num -> num;
  ltb : num -> num -> bool;
  leb : num -> num -> bool;
  truthy : num -> bool;
  toFixed2 : num -> num
}.

Definition gtb {num} `{JsNumber num} (a b : num) : bool := ltb b a.
Definition geb {num} `{JsNumber num} (a b : num) : bool := leb b a.

(** *** IEEE-754 binary64, the numbers of the running program *)

Module Binary64.

(** [Number.prototype.toFixed(2)] picks the integer [n] for which
    [n / 100 - x] is closest to zero, the larger one on a tie. For
    [x = m * 2^e] with [m > 0] this is [floor (m * 2^e * 100 + 1/2)]. *)
Definition hundredths (m : positive) (e : Z) : Z :=
  if 0 <=? e then Z.pos m * 100 * 2 ^ e
  else (Z.pos m * 200 + 2 ^ (- e)) / 2 ^ (1 - e).

(** [parseFloat] of the digits of [n / 100]: the double nearest to that
    rational. *)
Definition parse_hundredths (s : bool) (n : Z) : float :=
  match n with
  | Z.pos p =>
      SF2Prim (SFdiv prec emax (S754_finite s p 0) (S754_finite false 100 0))
  | _ => if s then neg_zero else zero
  end.

(** [parseFloat(x.toFixed(2))]. From [1e21] on, [toFixed] gives
    [ToString(x)], which [parseFloat] reads back as [x]; so do [NaN] and
    the infinities. Both zeros print as ["0.00"]. *)
Definition toFixed2 (x : float) : float :=
  match Prim2SF x with
  | S754_finite s m e =>
      if PrimFloat.leb 1e21 (PrimFloat.abs x) then x
      else parse_hundredths s (hundredths m e)
  | S754_zero _ => zero
  | _ => x
  end.

(** [ToBoolean]: false for [+0], [-0] and [NaN]. *)
Definition truthy (x : float) : bool :=
  negb (PrimFloat.is_zero x || PrimFloat.is_nan x).

Definition of_Z (z : Z) : float :=
  SF2Prim (binary_normalize prec emax z 0 false).

#[global] Instance number : JsNumber float :=
  Build_JsNumber float of_Z PrimFloat.nan PrimFloat.add PrimFloat.sub
    PrimFloat.mul PrimFloat.div PrimFloat.ltb PrimFloat.leb truthy toFixed2.

(** The smallest exponent of a double, [-1074]. *)
Definition emin64 : Z := SpecFloat.emin prec emax.

(** [+Infinity] or a positive finite number. *)
Definition positive_sf (x : spec_float) : bool :=
  match x with
  | S754_infinity false | S754_finite false _ _ => true
  | _ => false
  end.

(** A shift record whose mantissa has more than [n] binary digits. *)
Definition wide (n : nat) (mrs : shr_record) : Prop :=
  exists m, shr_m mrs = Z.pos m /\ (n < Pos.to_nat (digits2_pos m))%nat.

(** [+0], [-0], [+Infinity] or a positive finite number. *)
Definition nonneg_sf (x : spec_float) : bool :=
  match x with
  | S754_zero _ | S754_infinity false | S754_finite false _ _ => true
  | _ => false
  end.

(** The value of a finite double with mantissa [m] and exponent [e],
    counted in units of the smallest positive double, [2 ^ emin64]. *)
Definition val (m : positive) (e : Z) : Z := Z.pos m * 2 ^ (e - emin64).

(** The number 1 in those units. *)
Definition unit64 : Z := 2 ^ (- emin64).

(** The double [1e21], from which [toFixed] prints as [ToString] does. *)
Definition big : spec_float := S754_finite false 7629394531250000 17.

(** *** Rounding, as the standard library specifies it

    The specification of the primitive operations shifts a mantissa right
    bit by bit and keeps a round bit and a sticky bit. The [code] of such a
    record orders the records as the numbers they stand for. *)

(** Four times the mantissa, plus two for the round bit, plus one for the
    sticky bit. *)
Definition code (mrs : shr_record) : Z :=
  4 * shr_m mrs + (if shr_r mrs then 2 else 0) + (if shr_s mrs then 1 else 0).

(** The code after one more shift to the right. *)
Definition shiftcode (c : Z) : Z :=
  2 * (c / 4) + (if c mod 4 =? 0 then 0 else 1).

(** Where a remainder [r] of a division by [D] lies: 0 when it is zero, 1
    below one half of [D], 2 at one half, 3 above. *)
Definition position (r D : Z) : Z :=
  if r =? 0 then 0
  else match 2 * r ?= D with Lt => 1 | Eq => 2 | Gt => 3 end.

(** The code of the quotient [N / D]. *)
Definition codeQ (N D : Z) : Z := 4 * (N / D) + position (N mod D) D.

(** Rounding a code to the nearest integer, ties to even. *)
Definition RNE (c : Z) : Z :=
  let m := c / 4 in
  let p := c mod 4 in
  if p <=? 1 then m
  else if p =? 2 then (if Z.even m then m else m + 1)
  else m + 1.

(** The last two steps of a rounding: the carry into the next binade and
    the overflow to infinity. *)
Definition finish (m2 E : Z) : spec_float :=
  let m3 := if m2 =? 2 ^ prec then 2 ^ (prec - 1) else m2 in
  let e3 := if m2 =? 2 ^ prec then E + 1 else E in
  if e3 <=? emax - prec then S754_finite false (Z.to_pos m3) e3
  else S754_infinity false.

(** The double nearest to [N / D * 2 ^ E], when [E] is the exponent that
    the magnitude of that number calls for. *)
Definition round_pos (N D E : Z) : spec_float :=
  let m2 := RNE (codeQ N D) in
  let m3 := if m2 =? 2 ^ prec then 2 ^ (prec - 1) else m2 in
  let e3 := if m2 =? 2 ^ prec then E + 1 else E in
  if e3 <=? emax - prec then S754_finite false (Z.to_pos m3) e3
  else S754_infinity false.

(** [E] is that exponent: the integer part of [N / D] is a mantissa, with
    all its [prec] bits unless [E] is the smallest exponent. *)
Definition fits (N D E : Z) : Prop :=
  0 <= N /\ 0 < D /\ emin64 <= E /\
  1 <= N / D < 2 ^ prec /\ (E = emin64 \/ 2 ^ (prec - 1) <= N / D).

(** [x] is the double nearest to [num / den], counted in units of the
    smallest positive double. *)
Definition presents (x : spec_float) (num den : Z) : Prop :=
  exists N D E,
    0 < D /\ x = round_pos N D E /\ fits N D E /\
    N * 2 ^ (E - emin64) * den = num * D.

(** What [toFixed2] returns for a number [X] that is not negative;
    [big_enough] tells whether [X] is at least [1e21]. *)
Inductive rounded (X : spec_float) (big_enough : bool) : spec_float -> Prop :=
| Rounded_zero s : X = S754_zero s -> rounded X big_enough (S754_zero false)
| Rounded_infinity : X = S754_infinity false -> rounded X big_enough X
| Rounded_big m e :
    X = S754_finite false m e -> big_enough = true -> rounded X big_enough X
| Rounded_none m e :
    X = S754_finite false m e -> big_enough = false -> hundredths m e = 0 ->
    rounded X big_enough (S754_zero false)
| Rounded_some m e p r :
    X = S754_finite false m e -> big_enough = false ->
    hundredths m e = Z.pos p -> presents r (Z.pos p * unit64) 100 ->
    rounded X big_enough r.

End Binary64.

(** *** Exact rationals *)

(** The idealised numbers of the specification's formulas: every operation
    is exact, there is no [NaN] and no infinity (so [nan] and a division by
    zero are [0] here; no validated request reaches either). *)
Module Exact.

Definition of_Z (z : Z) : Qc := Q2Qc (inject_Z z).

Definition ltb (a b : Qc) : bool :=
  match (a ?= b)%Qc with Lt => true | _ => false end.

Definition leb (a b : Qc) : bool :=
  match (a ?= b)%Qc with Gt => false | _ => true end.

Definition truthy (a : Qc) : bool := negb (Qc_eq_bool a (of_Z 0)).

(** Round half up on the magnitude, as [toFixed] does. *)
Definition hundredths (x : Qc) : Z :=
  Qfloor (Qabs x * (100 # 1) + (1 # 2))%Q.

Definition toFixed2 (x : Qc) : Qc :=
  let r := Q2Qc (hundredths x # 100) in
  if ltb x (of_Z 0) then (- r)%Qc else r.

#[global] Instance number : JsNumber Qc :=
  Build_JsNumber Qc of_Z (of_Z 0) Qcplus Qcminus Qcmult Qcdiv ltb leb truthy
    toFixed2.

End Exact.

(** ** Data model: the records of [db] *)

(** A request field that holds a number: absent, a JSON number, or a string
    that [isFloat] accepts (a form-encoded body holds only strings), given
    with the number it denotes. *)
Inductive JsValue (num : Type) : Type :=
| JUndefined
| JNumber (x : num)
| JString (x : num).
Arguments JUndefined {num}.
Arguments JNumber {num} x.
Arguments JString {num} x.

(** The values of [status] that [invoiceValidationRules] lets through. *)
Inductive Status : Type :=
| draft | pending | paid | partially_paid | overdue | cancelled.

Definition Status_eqb (a b : Status) : bool :=
  match a, b with
  | draft, draft | pending, pending | paid, paid
  | partially_paid, partially_paid | overdue, overdue
  | cancelled, cancelled => true
  | _, _ => false
  end.

(** Identifiers are the strings [uuidv4()] returns; instants are
    milliseconds since the epoch. *)
Definition Id := string.
Definition Time := Z.
Bind Scope Z_scope with Time.

(** One element of [items]. [quantity] and [unit_price] hold
    [Number(item.quantity)] and [Number(item.unit_price)]. *)
Record Item (num : Type) : Type := {
  description : string;
  quantity : num;
  unit_price : num;
  tax_rate : JsValue num
}.
Arguments description {num} _.
Arguments quantity {num} _.
Arguments unit_price {num} _.
Arguments tax_rate {num} _.

(** An element of [db.users]. *)
Record User : Type := {
  user_id : Id;
  user_name : string;
  user_email : string;
  user_passwordHash : string;
  user_roles : list string;
  user_createdAt : Time;
  user_updatedAt : Time
}.

(** A value of [db.settings]. *)
Record Settings (num : Type) : Type := {
  companyName : string;
  companyAddress : string;
  companyLogoUrl : string;
  defaultCurrency : string;
  defaultTaxRate : num;
  invoiceTemplate : string
}.

(** An element of [db.clients]. *)
Record Client : Type := {
  cl_id : Id;
  cl_userId : Id;
  cl_name : string;
  cl_email : string;
  cl_phone : option string;
  cl_address : option string;
  cl_notes : option string;
  cl_createdAt : Time;
  cl_updatedAt : Time
}.

(** The recurrence fields of an invoice, kept as the request gave them. *)
Record Recurrence : Type := {
  is_recurring : option bool;
  recurrence_frequency : option string;
  recurrence_interval : option Z;
  recurrence_end_date : option Time
}.

(** An element of [db.invoices]. [inv_due_date] is [None] when the field is
    absent or falsy, the only thing the handlers ask of it. *)
Record Invoice (num : Type) : Type := {
  inv_id : Id;
  inv_userId : Id;
  inv_clientId : Id;
  inv_client_name : string;
  inv_invoice_number : string;
  inv_invoice_date : Time;
  inv_due_date : option Time;
  inv_items : list (Item num);
  inv_total_amount : num;
  inv_status : Status;
  inv_notes : option string;
  inv_currency : option string;
  inv_global_tax_rate : JsValue num;
  inv_recurrence : Recurrence;
  inv_createdAt : Time;
  inv_updatedAt : Time
}.
Arguments inv_id {num} _.
Arguments inv_userId {num} _.
Arguments inv_clientId {num} _.
Arguments inv_client_name {num} _.
Arguments inv_invoice_number {num} _.
Arguments inv_invoice_date {num} _.
Arguments inv_due_date {num} _.
Arguments inv_items {num} _.
Arguments inv_total_amount {num} _.
Arguments inv_status {num} _.
Arguments inv_notes {num} _.
Arguments inv_currency {num} _.
Arguments inv_global_tax_rate {num} _.
Arguments inv_recurrence {num} _.
Arguments inv_createdAt {num} _.
Arguments inv_updatedAt {num} _.

(** An element of [db.payments]. *)
Record Payment (num : Type) : Type := {
  pay_id : Id;
  pay_invoiceId : Id;
  pay_userId : Id;
  pay_amount : num;
  pay_payment_date : Time;
  pay_payment_method : string;
  pay_notes : option string;
  pay_createdAt : Time
}.
Arguments pay_id {num} _.
Arguments pay_invoiceId {num} _.
Arguments pay_userId {num} _.
Arguments pay_amount {num} _.
Arguments pay_payment_date {num} _.
Arguments pay_payment_method {num} _.
Arguments pay_notes {num} _.
Arguments pay_createdAt {num} _.

(** The in-memory database. [settings] is the object keyed by user id, kept
    as the list of its entries. *)
Record Db (num : Type) : Type := {
  users : list User;
  settings : list (Id * Settings num);
  clients : list Client;
  invoices : list (Invoice num);
  payments : list (Payment num)
}.
Arguments users {num} _.
Arguments settings {num} _.
Arguments clients {num} _.
Arguments invoices {num} _.
Arguments payments {num} _.

(** [req.user], the payload of the verified token. *)
Record AuthUser : Type := {
  au_id : Id;
  au_email : string;
  au_name : string;
  au_roles : list string
}.

(** ** Requests and responses *)

(** What a handler sends: [res.status(code).json(body)], or an error status
    with its message. *)
Inductive Response (A : Type) : Type :=
| Reply (code : nat) (body : A)
| Failure (code : nat) (message : string).
Arguments Reply {A} code body.
Arguments Failure {A} code message.

(** Keys of the request body that [...invoiceData] spreads over the fields
    written before it in the object literal. Nothing strips them from the
    body, so they are part of the request. *)
Record Overrides : Type := {
  x_id : option Id;
  x_userId : option Id;
  x_clientId : option Id;
  x_client_name : option string;
  x_invoice_number : option string;
  x_createdAt : option Time
}.

Definition no_overrides : Overrides :=
  {| x_id := None; x_userId := None; x_clientId := None;
     x_client_name := None; x_invoice_number := None; x_createdAt := None |}.

(** [invoiceData], the body without [client_id] and [items]. For the
    optional keys [None] is an absent key; [d_due_date = Some None] is a key
    that is present and falsy. *)
Record InvoiceData (num : Type) : Type := {
  d_invoice_date : Time;
  d_due_date : option (option Time);
  d_status : Status;
  d_notes : option string;
  d_currency : option string;
  d_global_tax_rate : JsValue num;
  d_is_recurring : option bool;
  d_recurrence_frequency : option string;
  d_recurrence_interval : option Z;
  d_recurrence_end_date : option Time;
  d_extra : Overrides
}.
Arguments d_invoice_date {num} _.
Arguments d_due_date {num} _.
Arguments d_status {num} _.
Arguments d_notes {num} _.
Arguments d_currency {num} _.
Arguments d_global_tax_rate {num} _.
Arguments d_is_recurring {num} _.
Arguments d_recurrence_frequency {num} _.
Arguments d_recurrence_interval {num} _.
Arguments d_recurrence_end_date {num} _.
Arguments d_extra {num} _.

(** The body of [POST /api/invoices] and [PUT /api/invoices/:id]. *)
Record InvoiceBody (num : Type) : Type := {
  client_id : Id;
  items : list (Item num);
  invoiceData : InvoiceData num
}.
Arguments client_id {num} _.
Arguments items {num} _.
Arguments invoiceData {num} _.

(** The body of [POST /api/invoices/:id/payments]; [payment_date] is [None]
    when it is not an ISO 8601 date. *)
Record PaymentBody (num : Type) : Type := {
  amount : JsValue num;
  payment_date : option Time;
  payment_method : string;
  notes : option string
}.
Arguments amount {num} _.
Arguments payment_date {num} _.
Arguments payment_method {num} _.
Arguments notes {num} _.

(** An entry of the revenue-by-client report. *)
Record Revenue (num : Type) : Type := {
  rev_client_id : Id;
  rev_client_name : string;
  invoice_count : nat;
  total_revenue : num
}.
Arguments rev_client_id {num} _.
Arguments rev_client_name {num} _.
Arguments invoice_count {num} _.
Arguments total_revenue {num} _.

(** The body of the summary report. *)
Record Summary (num : Type) : Type := {
  total_outstanding : num;
  total_overdue : num;
  paid_last_30_days : num
}.
Arguments total_outstanding {num} _.
Arguments total_overdue {num} _.
Arguments paid_last_30_days {num} _.

(** ** Strings and arrays *)

Definition is_space (c : ascii) : bool :=
  let n := nat_of_ascii c in
  (Nat.eqb n 32 || (Nat.leb 9 n && Nat.leb n 13))%bool.

Fixpoint trimStart (s : string) : string :=
  match s with
  | String c s' => if is_space c then trimStart s' else s
  | EmptyString => EmptyString
  end.

(** [trim().notEmpty()]: some character of the string is not white space. *)
Definition notEmpty_trimmed (s : string) : bool :=
  negb (String.eqb (trimStart s) "").

Definition string_of_nat (n : nat) : string :=
  NilZero.string_of_uint (Nat.to_uint n).

Fixpoint repeat_string (c : string) (n : nat) : string :=
  match n with
  | O => ""
  | S n' => (c ++ repeat_string c n')%string
  end.

(** [s.padStart(n, c)] for a one-character [c]; a string already [n] long
    is returned as it is. *)
Definition padStart (n : nat) (c : string) (s : string) : string :=
  (repeat_string c (n - String.length s) ++ s)%string.

(** [Array.prototype.findIndex]; [None] is [-1]. *)
Fixpoint findIndex {A : Type} (p : A -> bool) (l : list A) : option nat :=
  match l with
  | [] => None
  | x :: l' =>
      if p x then Some O
      else match findIndex p l' with Some i => Some (S i) | None => None end
  end.

(** [l[i] = v] for an index inside the array. *)
Fixpoint assign {A : Type} (l : list A) (i : nat) (v : A) : list A :=
  match l, i with
  | [], _ => []
  | _ :: l', O => v :: l'
  | x :: l', S i' => x :: assign l' i' v
  end.

(** The effect on an array of mutating the object that [find] returned:
    the first element that satisfies [p] becomes [f] of it. *)
Fixpoint mutate_found {A : Type} (p : A -> bool) (f : A -> A) (l : list A)
  : list A :=
  match l with
  | [] => []
  | x :: l' => if p x then f x :: l' else x :: mutate_found p f l'
  end.

Definition orElse {A : Type} (o : option A) (d : A) : A :=
  match o with Some x => x | None => d end.

(** ** The handlers *)

Section Handlers.

Context {num : Type} `{JsNumber num}.

(** [ToBoolean] of a request field. A string that [isFloat] accepts is
    not empty, hence truthy, also when it reads ["0"]. *)
Definition toBoolean (v : JsValue num) : bool :=
  match v with
  | JUndefined => false
  | JNumber x => truthy x
  | JString _ => true
  end.

(** [a || b]. *)
Definition jsOr (a b : JsValue num) : JsValue num :=
  if toBoolean a then a else b.

(** [Number(v)]. *)
Definition Number (v : JsValue num) : num :=
  match v with
  | JUndefined => nan
  | JNumber x => x
  | JString x => x
  end.

(** [isFloat({ min: lo, max: hi })] under [optional()]. *)
Definition optional_isFloat_range (lo hi : Z) (v : JsValue num) : bool :=
  match v with
  | JUndefined => true
  | JNumber x | JString x => geb x (of_Z lo) && leb x (of_Z hi)
  end.

(** [isFloat({ gt: 0 })]. *)
Definition isFloat_gt0 (v : JsValue num) : bool :=
  match v with
  | JUndefined => false
  | JNumber x | JString x => gtb x (of_Z 0)
  end.

Definition invoiceItemValidation (item : Item num) : bool :=
  notEmpty_trimmed (description item)
  && gtb (quantity item) (of_Z 0)
  && geb (unit_price item) (of_Z 0)
  && optional_isFloat_range 0 100 (tax_rate item).

(** The rules of [invoiceValidationRules] that constrain values; the
    formats of ids, dates and [status] are in the types of the body. *)
Definition invoiceValidationRules (body : InvoiceBody num) : bool :=
  optional_isFloat_range 0 100 (d_global_tax_rate (invoiceData body))
  && negb (Nat.eqb (List.length (items body)) 0)
  && forallb invoiceItemValidation (items body).

Definition paymentValidationRules (body : PaymentBody num) : bool :=
  isFloat_gt0 (amount body)
  && (match payment_date body with Some _ => true | None => false end)
  && notEmpty_trimmed (payment_method body).

(** *** Helper functions *)

(** [generateInvoiceNumber]; [year] is [new Date().getFullYear()]. *)
Definition generateInvoiceNumber (db : Db num) (year : nat) : string :=
  ("INV-" ++ string_of_nat year ++ "-"
   ++ padStart 5 "0" (string_of_nat (List.length (invoices db) + 1)))%string.

(** The body of the [items.forEach] loop of the two invoice handlers. *)
Definition addItem (global_tax_rate : JsValue num) (totalAmount : num)
  (item : Item num) : num :=
  let itemSubtotal := mul (quantity item) (unit_price item) in
  let taxAmount :=
    mul itemSubtotal
      (div (Number (jsOr (jsOr (tax_rate item) global_tax_rate)
                      (JNumber (of_Z 0))))
           (of_Z 100)) in
  add totalAmount (add itemSubtotal taxAmount).

(** [totalAmount] when the loop ends. *)
Definition totalAmount (its : list (Item num))
  (global_tax_rate : JsValue num) : num :=
  fold_left (addItem global_tax_rate) its (of_Z 0).

(** The stored [total_amount]: [parseFloat(totalAmount.toFixed(2))]. *)
Definition total_amount (its : list (Item num))
  (global_tax_rate : JsValue num) : num :=
  toFixed2 (totalAmount its global_tax_rate).

Definition owns_client (client_id_ : Id) (user : AuthUser) (c : Client)
  : bool :=
  String.eqb (cl_id c) client_id_ && String.eqb (cl_userId c) (au_id user).

Definition owns_invoice (id : Id) (user : AuthUser) (inv : Invoice num)
  : bool :=
  String.eqb (inv_id inv) id && String.eqb (inv_userId inv) (au_id user).

Definition set_invoices (db : Db num) (l : list (Invoice num)) : Db num :=
  {| users := users db; settings := settings db; clients := clients db;
     invoices := l; payments := payments db |}.

Definition set_payments (db : Db num) (l : list (Payment num)) : Db num :=
  {| users := users db; settings := settings db; clients := clients db;
     invoices := invoices db; payments := l |}.

(** *** [invoiceRouter.post('/')] *)

Definition invoiceRouter_post (db : Db num) (user : AuthUser)
  (body : InvoiceBody num) (uuid : Id) (year : nat) (now : Time)
  : Response (Invoice num) * Db num :=
  if negb (invoiceValidationRules body) then
    (Failure 400 "validation errors", db)
  else
    match find (owns_client (client_id body) user) (clients db) with
    | None => (Failure 404 "Client not found or access denied.", db)
    | Some client =>
        let d := invoiceData body in
        let newInvoice :=
          {| inv_id := orElse (x_id (d_extra d)) uuid;
             inv_userId := orElse (x_userId (d_extra d)) (au_id user);
             inv_clientId := orElse (x_clientId (d_extra d)) (client_id body);
             inv_client_name :=
               orElse (x_client_name (d_extra d)) (cl_name client);
             inv_invoice_number :=
               orElse (x_invoice_number (d_extra d))
                      (generateInvoiceNumber db year);
             inv_invoice_date := d_invoice_date d;
             inv_due_date := orElse (d_due_date d) None;
             inv_items := items body;
             inv_total_amount :=
               total_amount (items body) (d_global_tax_rate d);
             inv_status := d_status d;
             inv_notes := d_notes d;
             inv_currency := d_currency d;
             inv_global_tax_rate := d_global_tax_rate d;
             inv_recurrence :=
               {| is_recurring := d_is_recurring d;
                  recurrence_frequency := d_recurrence_frequency d;
                  recurrence_interval := d_recurrence_interval d;
                  recurrence_end_date := d_recurrence_end_date d |};
             inv_createdAt := now;
             inv_updatedAt := now |} in
        (Reply 201 newInvoice, set_invoices db (invoices db ++ [newInvoice]))
    end.

(** *** [invoiceRouter.put('/:id')] *)

(** A key of the body replaces that of the stored invoice; an absent key
    leaves it. *)
Definition spread {A : Type} (new : option A) (old : option A) : option A :=
  match new with Some _ => new | None => old end.

Definition spreadValue (new old : JsValue num) : JsValue num :=
  match new with JUndefined => old | _ => new end.

Definition invoiceRouter_put (db : Db num) (user : AuthUser) (id : Id)
  (body : InvoiceBody num) (now : Time)
  : Response (Invoice num) * Db num :=
  if negb (invoiceValidationRules body) then
    (Failure 400 "validation errors", db)
  else
    match findIndex (owns_invoice id user) (invoices db) with
    | None => (Failure 404 "Invoice not found or access denied.", db)
    | Some invoiceIndex =>
        match find (owns_client (client_id body) user) (clients db),
              nth_error (invoices db) invoiceIndex with
        | Some client, Some old =>
            let d := invoiceData body in
            let r := inv_recurrence old in
            let updatedInvoice :=
              {| inv_id := orElse (x_id (d_extra d)) (inv_id old);
                 inv_userId := orElse (x_userId (d_extra d)) (inv_userId old);
                 inv_clientId :=
                   orElse (x_clientId (d_extra d)) (client_id body);
                 inv_client_name :=
                   orElse (x_client_name (d_extra d)) (cl_name client);
                 inv_invoice_number :=
                   orElse (x_invoice_number (d_extra d))
                          (inv_invoice_number old);
                 inv_invoice_date := d_invoice_date d;
                 inv_due_date := orElse (d_due_date d) (inv_due_date old);
                 inv_items := items body;
                 inv_total_amount :=
                   total_amount (items body) (d_global_tax_rate d);
                 inv_status := d_status d;
                 inv_notes := spread (d_notes d) (inv_notes old);
                 inv_currency := spread (d_currency d) (inv_currency old);
                 inv_global_tax_rate :=
                   spreadValue (d_global_tax_rate d)
                               (inv_global_tax_rate old);
                 inv_recurrence :=
                   {| is_recurring :=
                        spread (d_is_recurring d) (is_recurring r);
                      recurrence_frequency :=
                        spread (d_recurrence_frequency d)
                               (recurrence_frequency r);
                      recurrence_interval :=
                        spread (d_recurrence_interval d)
                               (recurrence_interval r);
                      recurrence_end_date :=
                        spread (d_recurrence_end_date d)
                               (recurrence_end_date r) |};
                 inv_createdAt :=
                   orElse (x_createdAt (d_extra d)) (inv_createdAt old);
                 inv_updatedAt := now |} in
            (Reply 200 updatedInvoice,
             set_invoices db (assign (invoices db) invoiceIndex updatedInvoice))
        | _, _ =>
            (Failure 404 "Client not found or access denied for update.", db)
        end
    end.

(** *** [invoiceRouter.delete('/:id')] *)

Definition invoiceRouter_delete (db : Db num) (user : AuthUser) (id : Id)
  : Response unit * Db num :=
  let initialLength := List.length (invoices db) in
  let db1 :=
    set_invoices db
      (List.filter (fun inv => negb (owns_invoice id user inv))
                   (invoices db)) in
  if Nat.eqb (List.length (invoices db1)) initialLength then
    (Failure 404 "Invoice not found or access denied.", db1)
  else
    (Reply 204 tt,
     set_payments db1
       (List.filter (fun p => negb (String.eqb (pay_invoiceId p) id))
                    (payments db1))).

(** *** [invoiceRouter.post('/:id/payments')] *)

(** [db.payments.filter(p => p.invoiceId === invoiceId)
      .reduce((sum, p) => sum + p.amount, 0)]. *)
Definition totalPaid (ps : list (Payment num)) (invoiceId : Id) : num :=
  fold_left (fun sum p => add sum (pay_amount p))
    (List.filter (fun p => String.eqb (pay_invoiceId p) invoiceId) ps)
    (of_Z 0).

Definition with_status (inv : Invoice num) (s : Status) (now : Time)
  : Invoice num :=
  {| inv_id := inv_id inv;
     inv_userId := inv_userId inv;
     inv_clientId := inv_clientId inv;
     inv_client_name := inv_client_name inv;
     inv_invoice_number := inv_invoice_number inv;
     inv_invoice_date := inv_invoice_date inv;
     inv_due_date := inv_due_date inv;
     inv_items := inv_items inv;
     inv_total_amount := inv_total_amount inv;
     inv_status := s;
     inv_notes := inv_notes inv;
     inv_currency := inv_currency inv;
     inv_global_tax_rate := inv_global_tax_rate inv;
     inv_recurrence := inv_recurrence inv;
     inv_createdAt := inv_createdAt inv;
     inv_updatedAt := now |}.

(** The [if / else if] on [totalPaid] and the refresh of [updatedAt]. *)
Definition deriveStatus (totalPaid_ : num) (now : Time) (invoice : Invoice num)
  : Invoice num :=
  if geb totalPaid_ (inv_total_amount invoice) then
    with_status invoice paid now
  else if gtb totalPaid_ (of_Z 0) then
    with_status invoice partially_paid now
  else
    with_status invoice (inv_status invoice) now.

Definition invoiceRouter_post_payments (db : Db num) (user : AuthUser)
  (invoiceId : Id) (body : PaymentBody num) (uuid : Id) (now : Time)
  : Response (Payment num) * Db num :=
  if negb (paymentValidationRules body) then
    (Failure 400 "validation errors", db)
  else
    match find (owns_invoice invoiceId user) (invoices db),
          payment_date body with
    | Some invoice, Some date =>
        let newPayment :=
          {| pay_id := uuid;
             pay_invoiceId := invoiceId;
             pay_userId := au_id user;
             pay_amount := Number (amount body);
             pay_payment_date := date;
             pay_payment_method := payment_method body;
             pay_notes := notes body;
             pay_createdAt := now |} in
        let db1 := set_payments db (payments db ++ [newPayment]) in
        let totalPaid_ := totalPaid (payments db1) invoiceId in
        (Reply 201 newPayment,
         set_invoices db1
           (mutate_found (owns_invoice invoiceId user)
              (deriveStatus totalPaid_ now) (invoices db1)))
    | _, _ => (Failure 404 "Invoice not found or access denied.", db)
    end.

(** *** [invoiceRouter.get('/:id/payments')] *)

Definition invoiceRouter_get_payments (db : Db num) (user : AuthUser)
  (invoiceId : Id) : Response (list (Payment num)) :=
  match find (owns_invoice invoiceId user) (invoices db) with
  | None => Failure 404 "Invoice not found or access denied."
  | Some _ =>
      Reply 200
        (List.filter
           (fun p => String.eqb (pay_invoiceId p) invoiceId
                     && String.eqb (pay_userId p) (au_id user))
           (payments db))
  end.

(** *** [reportRouter.get('/summary')] *)

Definition msPerDay : Z := 86400000.

(** [new Date(new Date().setDate(now.getDate() - 30))] on a server whose
    clock runs in UTC, where moving the day of the month back by 30 moves
    the instant back by 30 days. *)
Definition thirtyDaysAgo (now : Time) : Time := now - 30 * msPerDay.

Definition is_open (s : Status) : bool :=
  Status_eqb s pending || Status_eqb s partially_paid || Status_eqb s overdue.

(** The three accumulators of the loop over [userInvoices]. *)
Record Totals : Type := {
  totalOutstanding : num;
  totalOverdue : num;
  paidLast30Days : num
}.

(** The inner [paymentsForInvoice.forEach]. *)
Definition addRecent (now : Time) (paid : num) (p : Payment num) : num :=
  if thirtyDaysAgo now <=? pay_payment_date p then add paid (pay_amount p)
  else paid.

(** One turn of [userInvoices.forEach]. *)
Definition summaryStep (db : Db num) (now : Time) (acc : Totals)
  (inv : Invoice num) : Totals :=
  let paymentsForInvoice :=
    List.filter (fun p => String.eqb (pay_invoiceId p) (inv_id inv))
                (payments db) in
  let totalPaidForInvoice :=
    fold_left (fun sum p => add sum (pay_amount p)) paymentsForInvoice
              (of_Z 0) in
  let balanceDue := sub (inv_total_amount inv) totalPaidForInvoice in
  let counted := gtb balanceDue (of_Z 0) && is_open (inv_status inv) in
  let late :=
    match inv_due_date inv with
    | Some due =>
        (due <? now)
        && negb (Status_eqb (inv_status inv) paid)
        && negb (Status_eqb (inv_status inv) cancelled)
    | None => false
    end in
  {| totalOutstanding :=
       if counted then add (totalOutstanding acc) balanceDue
       else totalOutstanding acc;
     totalOverdue :=
       if counted && late then add (totalOverdue acc) balanceDue
       else totalOverdue acc;
     paidLast30Days :=
       fold_left (addRecent now) paymentsForInvoice (paidLast30Days acc) |}.

Definition summaryTotals (db : Db num) (user : AuthUser) (now : Time)
  : Totals :=
  let userInvoices :=
    List.filter (fun inv => String.eqb (inv_userId inv) (au_id user))
                (invoices db) in
  fold_left (summaryStep db now) userInvoices
    {| totalOutstanding := of_Z 0; totalOverdue := of_Z 0;
       paidLast30Days := of_Z 0 |}.

Definition reportRouter_get_summary (db : Db num) (user : AuthUser)
  (now : Time) : Summary num :=
  let t := summaryTotals db user now in
  {| total_outstanding := toFixed2 (totalOutstanding t);
     total_overdue := toFixed2 (totalOverdue t);
     paid_last_30_days := toFixed2 (paidLast30Days t) |}.

(** *** [reportRouter.get('/revenue-by-client')] *)

Definition includes (l : list string) (s : string) : bool :=
  existsb (String.eqb s) l.

(** [authorizeRole(roles)]: some listed role is one of the caller's. *)
Definition authorizeRole (roles : list string) (user : AuthUser) : bool :=
  existsb (fun role => includes (au_roles user) role) roles.

(** [Array.prototype.sort(compare)], which is stable: an element goes
    after those before it unless [compare] puts it first. *)
Fixpoint insertSorted {A : Type} (compare : A -> A -> num) (x : A)
  (l : list A) : list A :=
  match l with
  | [] => [x]
  | y :: l' =>
      if gtb (compare x y) (of_Z 0) then y :: insertSorted compare x l'
      else x :: l
  end.

Definition sort {A : Type} (compare : A -> A -> num) (l : list A) : list A :=
  fold_right (insertSorted compare) [] l.

Definition targetUserId (user : AuthUser) (query_userId : option Id) : Id :=
  match query_userId with
  | Some u =>
      if includes (au_roles user) "admin" && negb (String.eqb u "") then u
      else au_id user
  | None => au_id user
  end.

Definition is_settled (s : Status) : bool :=
  Status_eqb s paid || Status_eqb s partially_paid.

Definition clientRevenue (db : Db num) (target : Id) (client : Client)
  : Revenue num :=
  let clientInvoices :=
    List.filter
      (fun inv => String.eqb (inv_clientId inv) (cl_id client)
                  && String.eqb (inv_userId inv) target
                  && is_settled (inv_status inv))
      (invoices db) in
  let totalRevenueFromClient :=
    fold_left
      (fun sum inv =>
         add sum
           (fold_left (fun paySum p => add paySum (pay_amount p))
              (List.filter
                 (fun p => String.eqb (pay_invoiceId p) (inv_id inv))
                 (payments db))
              (of_Z 0)))
      clientInvoices (of_Z 0) in
  {| rev_client_id := cl_id client;
     rev_client_name := cl_name client;
     invoice_count := List.length clientInvoices;
     total_revenue := toFixed2 totalRevenueFromClient |}.

Definition revenueData (db : Db num) (target : Id) : list (Revenue num) :=
  sort (fun a b => sub (total_revenue b) (total_revenue a))
    (List.filter (fun data => gtb (total_revenue data) (of_Z 0))
       (map (clientRevenue db target)
          (List.filter (fun c => String.eqb (cl_userId c) target)
                       (clients db)))).

Definition reportRouter_get_revenue_by_client (db : Db num)
  (user : AuthUser) (query_userId : option Id)
  : Response (list (Revenue num)) :=
  if negb (authorizeRole ["admin"; "user"] user) then
    Failure 403 "Access denied. Requires one of roles: admin, user."
  else
    Reply 200 (revenueData db (targetUserId user query_userId)).

End Handlers.

(** ** The other routes: accounts, settings, clients and listings *)

(** *** Library functions *)

(** The handlers below call into validator.js ([trim], [isEmail],
    [normalizeEmail], [isLength]), bcryptjs, jsonwebtoken and
    [String.prototype.toLowerCase]. They are an interface of the
    embedding. [bcrypt_hash password salt] is [bcrypt.hash(password, 10)]
    with the salt it draws; [jwt_sign payload now] and
    [jwt_verify token now] are [jwt.sign] and [jwt.verify] under
    [JWT_SECRET] at the instant [now], [None] being an error. *)
Class Platform : Type := {
  trim : string -> string;
  isEmail : string -> bool;
  normalizeEmail : string -> string;
  isLength_min : nat -> string -> bool;
  toLowerCase : string -> string;
  bcrypt_hash : string -> string -> string;
  bcrypt_compare : string -> string -> bool;
  jwt_sign : AuthUser -> Time -> string;
  jwt_verify : string -> Time -> option AuthUser
}.

(** *** Objects used as maps, strings, [slice] *)

(** [o[key]] for an object kept as the list of its entries. *)
Fixpoint property {A : Type} (key : Id) (o : list (Id * A)) : option A :=
  match o with
  | [] => None
  | (k, v) :: o' => if String.eqb k key then Some v else property key o'
  end.

(** [o[key] = v]: the value of a key of [o] is replaced where it stands, a
    new key goes last. *)
Fixpoint setProperty {A : Type} (key : Id) (v : A) (o : list (Id * A))
  : list (Id * A) :=
  match o with
  | [] => [(key, v)]
  | (k, w) :: o' =>
      if String.eqb k key then (k, v) :: o' else (k, w) :: setProperty key v o'
  end.

(** [s.split(sep)] for a one-character separator. *)
Fixpoint split (sep : ascii) (s : string) : list string :=
  match s with
  | EmptyString => [EmptyString]
  | String c s' =>
      if Ascii.eqb c sep then EmptyString :: split sep s'
      else match split sep s' with
           | w :: ws => String c w :: ws
           | [] => [String c EmptyString]
           end
  end.

(** [s.includes(t)]: [t] occurs in [s]. *)
Fixpoint includesString (s t : string) : bool :=
  String.prefix t s
  || match s with
     | String _ s' => includesString s' t
     | EmptyString => false
     end.

(** [ToBoolean] of a string. *)
Definition truthyString (s : string) : bool := negb (String.eqb s "").

(** The value of [parseInt(s, 10)]: [NaN], an integer, or an infinity (a
    run of more than 308 digits). *)
Inductive ParsedInt : Type :=
| NaNInt
| Finite (z : Z)
| Infinite (negative : bool).

(** [x - 1] and [x * y] on those values. A product of two integers is kept
    as it is; the program rounds it to a double once it passes [2 ^ 53],
    which is more than the length of any array, so that [slice] below
    clamps the rounded and the exact product to the same index. *)
Definition pred_int (x : ParsedInt) : ParsedInt :=
  match x with
  | Finite z => Finite (z - 1)
  | _ => x
  end.

Definition mul_int (x y : ParsedInt) : ParsedInt :=
  match x, y with
  | NaNInt, _ | _, NaNInt => NaNInt
  | Finite a, Finite b => Finite (a * b)
  | Infinite s, Finite b | Finite b, Infinite s =>
      if b =? 0 then NaNInt else Infinite (xorb s (b <? 0))
  | Infinite s, Infinite t => Infinite (xorb s t)
  end.

(** [Math.ceil(n / limit)] for an array length [n], as [res.json] prints
    it: [None] is [null], the print of [NaN] and of the infinities. *)
Definition ceil_div (n : nat) (limit_ : ParsedInt) : option Z :=
  match limit_ with
  | NaNInt => None
  | Finite b => if b =? 0 then None else Some (- ((- Z.of_nat n) / b))
  | Infinite _ => Some 0
  end.

(** The index that [Array.prototype.slice] makes of an argument: [NaN] is
    0, a negative integer counts from the end, and the result lies between
    0 and the length. *)
Definition sliceIndex (len : Z) (i : ParsedInt) : Z :=
  match i with
  | NaNInt => 0
  | Finite z => if z <? 0 then Z.max (len + z) 0 else Z.min z len
  | Infinite true => 0
  | Infinite false => len
  end.

(** [l.slice(start, end)]. *)
Definition slice {A : Type} (l : list A) (start end_ : ParsedInt) : list A :=
  let len := Z.of_nat (List.length l) in
  let k := sliceIndex len start in
  let final := sliceIndex len end_ in
  firstn (Z.to_nat (final - k)) (skipn (Z.to_nat k) l).

(** *** Bodies and replies *)

(** The body of [POST /api/auth/register]; an absent key fails validation
    as the empty string does. *)
Record RegisterBody : Type := {
  rb_name : string;
  rb_email : string;
  rb_password : string
}.

(** The body of [POST /api/auth/login]. *)
Record LoginBody : Type := {
  lb_email : string;
  lb_password : string
}.

(** The reply of a login: the token and the [user] object. *)
Record LoginReply : Type := {
  token : string;
  login_user : AuthUser
}.

(** The body of [POST /api/clients] and [PUT /api/clients/:id]. *)
Record ClientBody : Type := {
  cb_name : string;
  cb_email : string;
  cb_phone : option string;
  cb_address : option string;
  cb_notes : option string
}.

(** The reply of the two list routes. [totalPages] is [None] where the
    JSON holds [null]. *)
Record Page (A : Type) : Type := {
  data : list A;
  currentPage : ParsedInt;
  totalPages : option Z;
  totalItems : nat;
  limit : ParsedInt
}.
Arguments data {A} _.
Arguments currentPage {A} _.
Arguments totalPages {A} _.
Arguments totalItems {A} _.
Arguments limit {A} _.

(** An element of the invoice list: the invoice with [client_name]
    overwritten, and [client_email]. *)
Record ListedInvoice (num : Type) : Type := {
  listed : Invoice num;
  client_email : string
}.
Arguments listed {num} _.
Arguments client_email {num} _.


Definition Status_name (s : Status) : string :=
  match s with
  | draft => "draft"
  | pending => "pending"
  | paid => "paid"
  | partially_paid => "partially_paid"
  | overdue => "overdue"
  | cancelled => "cancelled"
  end.

Section Routes.

Context {num : Type} `{JsNumber num} `{Platform}.

Definition set_users (db : Db num) (l : list User) : Db num :=
  {| users := l; settings := settings db; clients := clients db;
     invoices := invoices db; payments := payments db |}.

Definition set_settings (db : Db num) (o : list (Id * Settings num))
  : Db num :=
  {| users := users db; settings := o; clients := clients db;
     invoices := invoices db; payments := payments db |}.

Definition set_clients (db : Db num) (l : list Client) : Db num :=
  {| users := users db; settings := settings db; clients := l;
     invoices := invoices db; payments := payments db |}.

(** *** [authenticateToken] *)

(** [Reply 200 user] is the call of [next()] with [req.user = user]. An
    empty header is falsy and is itself the token. *)
Definition authenticateToken (authorization : option string) (now : Time)
  : Response AuthUser :=
  let token_ :=
    match authorization with
    | None => None
    | Some authHeader =>
        if truthyString authHeader then nth_error (split " " authHeader) 1
        else Some authHeader
    end in
  match token_ with
  | None => Failure 401 "Authentication token required."
  | Some t =>
      match jwt_verify t now with
      | None => Failure 403 "Invalid or expired token."
      | Some user => Reply 200 user
      end
  end.

(** *** [authRouter] *)

(** The settings that a new account starts with. *)
Definition initialSettings (name : string) : Settings num :=
  {| companyName := (name ++ "'s Company")%string;
     companyAddress := "";
     companyLogoUrl := "";
     defaultCurrency := "USD";
     defaultTaxRate := of_Z 0;
     invoiceTemplate := "default" |}.

Definition registerValidation (body : RegisterBody) : bool :=
  truthyString (trim (rb_name body))
  && isEmail (rb_email body)
  && isLength_min 6 (rb_password body).

(** [authRouter.post('/register')]; the handler reads the body that the
    sanitizers [trim] and [normalizeEmail] have rewritten. *)
Definition authRouter_post_register (db : Db num) (body : RegisterBody)
  (uuid : Id) (salt : string) (now : Time) : Response string * Db num :=
  if negb (registerValidation body) then
    (Failure 400 "validation errors", db)
  else
    let name := trim (rb_name body) in
    let email := normalizeEmail (rb_email body) in
    match find (fun u => String.eqb (user_email u) email) (users db) with
    | Some _ => (Failure 400 "User with this email already exists.", db)
    | None =>
        let newUser :=
          {| user_id := uuid;
             user_name := name;
             user_email := email;
             user_passwordHash := bcrypt_hash (rb_password body) salt;
             user_roles := ["user"];
             user_createdAt := now;
             user_updatedAt := now |} in
        (Reply 201 "User registered successfully.",
         set_settings (set_users db (users db ++ [newUser]))
           (setProperty (user_id newUser) (initialSettings name)
              (settings db)))
    end.

Definition loginValidation (body : LoginBody) : bool :=
  isEmail (lb_email body) && truthyString (lb_password body).

Definition tokenPayload (user : User) : AuthUser :=
  {| au_id := user_id user; au_email := user_email user;
     au_name := user_name user; au_roles := user_roles user |}.

(** [authRouter.post('/login')]. *)
Definition authRouter_post_login (db : Db num) (body : LoginBody)
  (now : Time) : Response LoginReply :=
  if negb (loginValidation body) then Failure 400 "validation errors"
  else
    let email := normalizeEmail (lb_email body) in
    match find (fun u => String.eqb (user_email u) email) (users db) with
    | None => Failure 401 "Invalid email or password."
    | Some user =>
        if negb (bcrypt_compare (lb_password body) (user_passwordHash user))
        then Failure 401 "Invalid email or password."
        else
          Reply 200
            {| token := jwt_sign (tokenPayload user) now;
               login_user := tokenPayload user |}
    end.

(** [authRouter.get('/status')], behind [authenticateToken]. *)
Definition authRouter_get_status (db : Db num)
  (authorization : option string) (now : Time) : Response AuthUser :=
  match authenticateToken authorization now with
  | Failure code message => Failure code message
  | Reply _ req_user =>
      match find (fun u => String.eqb (user_id u) (au_id req_user))
                 (users db) with
      | None => Failure 404 "User not found."
      | Some user => Reply 200 (tokenPayload user)
      end
  end.

(** [authRouter.post('/logout')]. *)
Definition authRouter_post_logout (authorization : option string)
  (now : Time) : Response string :=
  match authenticateToken authorization now with
  | Failure code message => Failure code message
  | Reply _ _ => Reply 200 "Logged out successfully."
  end.

(** *** [userRouter.get('/me/settings')] *)

Definition userRouter_get_settings (db : Db num) (user : AuthUser)
  : Response (Settings num) * Db num :=
  match property (au_id user) (settings db) with
  | Some userSettings => (Reply 200 userSettings, db)
  | None =>
      let userSettings := initialSettings (au_name user) in
      (Reply 200 userSettings,
       set_settings db (setProperty (au_id user) userSettings (settings db)))
  end.

(** *** [clientRouter] *)

(** A field under [optional({checkFalsy: true}).isString().trim()]: an
    empty string stops the chain and stays as it is. *)
Definition optional_trim (v : option string) : option string :=
  match v with
  | Some s => if truthyString s then Some (trim s) else Some s
  | None => None
  end.

Definition clientValidationRules (body : ClientBody) : bool :=
  truthyString (trim (cb_name body)) && isEmail (cb_email body).

(** The pagination that the two list routes share. *)
Definition paginate {A : Type} (l : list A) (page limit_ : option ParsedInt)
  : Page A :=
  let parsedPage := orElse page (Finite 1) in
  let parsedLimit := orElse limit_ (Finite 10) in
  let totalItems_ := List.length l in
  let startIndex := mul_int (pred_int parsedPage) parsedLimit in
  let endIndex := mul_int parsedPage parsedLimit in
  {| data := slice l startIndex endIndex;
     currentPage := parsedPage;
     totalPages := ceil_div totalItems_ parsedLimit;
     totalItems := totalItems_;
     limit := parsedLimit |}.

Definition clientMatches (searchTerm : string) (c : Client) : bool :=
  includesString (toLowerCase (cl_name c)) searchTerm
  || includesString (toLowerCase (cl_email c)) searchTerm.

(** [clientRouter.get('/')]; [search], [page] and [limit] are the keys of
    the query, [None] when absent, [page] and [limit] as [parseInt] reads
    them. *)
Definition clientRouter_list (db : Db num) (user : AuthUser)
  (search : option string) (page limit_ : option ParsedInt) : Page Client :=
  let userClients :=
    List.filter (fun c => String.eqb (cl_userId c) (au_id user))
                (clients db) in
  let userClients :=
    match search with
    | Some s =>
        if truthyString s then
          List.filter (clientMatches (toLowerCase s)) userClients
        else userClients
    | None => userClients
    end in
  paginate userClients page limit_.

(** [clientRouter.post('/')]. *)
Definition clientRouter_post (db : Db num) (user : AuthUser)
  (body : ClientBody) (uuid : Id) (now : Time) : Response Client * Db num :=
  if negb (clientValidationRules body) then
    (Failure 400 "validation errors", db)
  else
    let email := normalizeEmail (cb_email body) in
    match find (fun c => String.eqb (cl_email c) email
                         && String.eqb (cl_userId c) (au_id user))
               (clients db) with
    | Some _ =>
        (Failure 400 "Client with this email already exists for your account.",
         db)
    | None =>
        let newClient :=
          {| cl_id := uuid;
             cl_userId := au_id user;
             cl_name := trim (cb_name body);
             cl_email := email;
             cl_phone := optional_trim (cb_phone body);
             cl_address := optional_trim (cb_address body);
             cl_notes := optional_trim (cb_notes body);
             cl_createdAt := now;
             cl_updatedAt := now |} in
        (Reply 201 newClient, set_clients db (clients db ++ [newClient]))
    end.

(** [clientRouter.get('/:id')]. *)
Definition clientRouter_get (db : Db num) (user : AuthUser) (id : Id)
  : Response Client :=
  match find (owns_client id user) (clients db) with
  | None => Failure 404 "Client not found or access denied."
  | Some client => Reply 200 client
  end.

(** [clientRouter.put('/:id')]: the five fields of the body replace those
    of the stored client, an absent one included. *)
Definition clientRouter_put (db : Db num) (user : AuthUser) (id : Id)
  (body : ClientBody) (now : Time) : Response Client * Db num :=
  if negb (clientValidationRules body) then
    (Failure 400 "validation errors", db)
  else
    match findIndex (owns_client id user) (clients db) with
    | None => (Failure 404 "Client not found or access denied.", db)
    | Some clientIndex =>
        match nth_error (clients db) clientIndex with
        | Some old =>
            let updatedClient :=
              {| cl_id := cl_id old;
                 cl_userId := cl_userId old;
                 cl_name := trim (cb_name body);
                 cl_email := normalizeEmail (cb_email body);
                 cl_phone := optional_trim (cb_phone body);
                 cl_address := optional_trim (cb_address body);
                 cl_notes := optional_trim (cb_notes body);
                 cl_createdAt := cl_createdAt old;
                 cl_updatedAt := now |} in
            (Reply 200 updatedClient,
             set_clients db (assign (clients db) clientIndex updatedClient))
        | None => (Failure 404 "Client not found or access denied.", db)
        end
    end.

(** [clientRouter.delete('/:id')]. *)
Definition clientRouter_delete (db : Db num) (user : AuthUser) (id : Id)
  : Response unit * Db num :=
  let initialLength := List.length (clients db) in
  let db1 :=
    set_clients db
      (List.filter (fun c => negb (owns_client id user c)) (clients db)) in
  if Nat.eqb (List.length (clients db1)) initialLength then
    (Failure 404 "Client not found or access denied.", db1)
  else (Reply 204 tt, db1).

(** *** [invoiceRouter]: the routes that read *)

Definition with_client_name (inv : Invoice num) (name : string)
  : Invoice num :=
  {| inv_id := inv_id inv;
     inv_userId := inv_userId inv;
     inv_clientId := inv_clientId inv;
     inv_client_name := name;
     inv_invoice_number := inv_invoice_number inv;
     inv_invoice_date := inv_invoice_date inv;
     inv_due_date := inv_due_date inv;
     inv_items := inv_items inv;
     inv_total_amount := inv_total_amount inv;
     inv_status := inv_status inv;
     inv_notes := inv_notes inv;
     inv_currency := inv_currency inv;
     inv_global_tax_rate := inv_global_tax_rate inv;
     inv_recurrence := inv_recurrence inv;
     inv_createdAt := inv_createdAt inv;
     inv_updatedAt := inv_updatedAt inv |}.

(** The [map] of the list route: the name and the email of the client as
    they are now, ['N/A'] when the caller has no such client. *)
Definition listInvoice (db : Db num) (user : AuthUser) (inv : Invoice num)
  : ListedInvoice num :=
  let client := find (owns_client (inv_clientId inv) user) (clients db) in
  {| listed :=
       with_client_name inv
         (match client with Some c => cl_name c | None => "N/A" end);
     client_email :=
       match client with Some c => cl_email c | None => "N/A" end |}.

Definition invoiceMatches (searchTerm : string) (inv : ListedInvoice num)
  : bool :=
  (truthyString (inv_invoice_number (listed inv))
   && includesString (toLowerCase (inv_invoice_number (listed inv)))
        searchTerm)
  || (truthyString (inv_client_name (listed inv))
      && includesString (toLowerCase (inv_client_name (listed inv)))
           searchTerm).

(** [(a, b) => new Date(b.invoice_date) - new Date(a.invoice_date)]: the
    two instants are integers that are doubles, and their difference as a
    number is the double nearest to the difference of the integers. *)
Definition byDate (a b : ListedInvoice num) : num :=
  of_Z (inv_invoice_date (listed b) - inv_invoice_date (listed a)).

(** [invoiceRouter.get('/')]. *)
Definition invoiceRouter_list (db : Db num) (user : AuthUser)
  (search status : option string) (page limit_ : option ParsedInt)
  : Page (ListedInvoice num) :=
  let userInvoices :=
    map (listInvoice db user)
      (List.filter (fun inv => String.eqb (inv_userId inv) (au_id user))
                   (invoices db)) in
  let userInvoices :=
    match search with
    | Some s =>
        if truthyString s then
          List.filter (invoiceMatches (toLowerCase s)) userInvoices
        else userInvoices
    | None => userInvoices
    end in
  let userInvoices :=
    match status with
    | Some s =>
        if truthyString s then
          List.filter
            (fun inv => String.eqb (Status_name (inv_status (listed inv))) s)
            userInvoices
        else userInvoices
    | None => userInvoices
    end in
  paginate (sort byDate userInvoices) page limit_.

(** [invoiceRouter.get('/:id')]: the invoice and, under [client], the
    client of the caller that it refers to, if there is one. *)
Definition invoiceRouter_get (db : Db num) (user : AuthUser) (id : Id)
  : Response (Invoice num * option Client) :=
  match find (owns_invoice id user) (invoices db) with
  | None => Failure 404 "Invoice not found or access denied."
  | Some invoice =>
      Reply 200
        (invoice, find (owns_client (inv_clientId invoice) user) (clients db))
  end.



(** The object literal [updatedInvoice] of the update handler. *)
Definition updatedInvoice (body : InvoiceBody num) (client : Client)
  (old : Invoice num) (now : Time) : Invoice num :=
  let d := invoiceData body in
  let r := inv_recurrence old in
  {| inv_id := orElse (x_id (d_extra d)) (inv_id old);
     inv_userId := orElse (x_userId (d_extra d)) (inv_userId old);
     inv_clientId := orElse (x_clientId (d_extra d)) (client_id body);
     inv_client_name := orElse (x_client_name (d_extra d)) (cl_name client);
     inv_invoice_number :=
       orElse (x_invoice_number (d_extra d)) (inv_invoice_number old);
     inv_invoice_date := d_invoice_date d;
     inv_due_date := orElse (d_due_date d) (inv_due_date old);
     inv_items := items body;
     inv_total_amount := total_amount (items body) (d_global_tax_rate d);
     inv_status := d_status d;
     inv_notes := spread (d_notes d) (inv_notes old);
     inv_currency := spread (d_currency d) (inv_currency old);
     inv_global_tax_rate :=
       spreadValue (d_global_tax_rate d) (inv_global_tax_rate old);
     inv_recurrence :=
       {| is_recurring := spread (d_is_recurring d) (is_recurring r);
          recurrence_frequency :=
            spread (d_recurrence_frequency d) (recurrence_frequency r);
          recurrence_interval :=
            spread (d_recurrence_interval d) (recurrence_interval r);
          recurrence_end_date :=
            spread (d_recurrence_end_date d) (recurrence_end_date r) |};
     inv_createdAt := orElse (x_createdAt (d_extra d)) (inv_createdAt old);
     inv_updatedAt := now |}.

End Routes.

(** *** The application as a whole *)

(** The requests that can change the store, each with the values that its
    handler draws ([uuidv4()], the salt, the clock). The routes that only
    read are not among them, nor is [PUT /api/users/me/settings], which
    this development does not embed. *)
Inductive Request (num : Type) : Type :=
| PostRegister (body : RegisterBody) (uuid : Id) (salt : string) (now : Time)
| GetSettings (user : AuthUser)
| PostClient (user : AuthUser) (body : ClientBody) (uuid : Id) (now : Time)
| PutClient (user : AuthUser) (id : Id) (body : ClientBody) (now : Time)
| DeleteClient (user : AuthUser) (id : Id)
| PostInvoice (user : AuthUser) (body : InvoiceBody num) (uuid : Id)
    (year : nat) (now : Time)
| PutInvoice (user : AuthUser) (id : Id) (body : InvoiceBody num)
    (now : Time)
| DeleteInvoice (user : AuthUser) (id : Id)
| PostPayment (user : AuthUser) (id : Id) (body : PaymentBody num)
    (uuid : Id) (now : Time).
Arguments PostRegister {num} body uuid salt now.
Arguments GetSettings {num} user.
Arguments PostClient {num} user body uuid now.
Arguments PutClient {num} user id body now.
Arguments DeleteClient {num} user id.
Arguments PostInvoice {num} user body uuid year now.
Arguments PutInvoice {num} user id body now.
Arguments DeleteInvoice {num} user id.
Arguments PostPayment {num} user id body uuid now.

(** The body of an invoice request holds no key beyond those that the
    validation rules name. *)
Definition plain {num : Type} (r : Request num) : Prop :=
  match r with
  | PostInvoice _ body _ _ _ | PutInvoice _ _ body _ =>
      d_extra (invoiceData body) = no_overrides
  | _ => True
  end.

Definition deletesInvoice {num : Type} (r : Request num) : bool :=
  match r with
  | DeleteInvoice _ _ => true
  | _ => false
  end.

Definition updatesClient {num : Type} (r : Request num) : bool :=
  match r with
  | PutClient _ _ _ _ => true
  | _ => false
  end.

Section Application.

Context {num : Type} `{JsNumber num} `{Platform}.

(** [let db = { users: [], settings: {}, clients: [], invoices: [],
    payments: [] }]. *)
Definition emptyDb : Db num :=
  {| users := []; settings := []; clients := []; invoices := [];
     payments := [] |}.

(** The store after a request is served. *)
Definition serve (db : Db num) (r : Request num) : Db num :=
  match r with
  | PostRegister body uuid salt now =>
      snd (authRouter_post_register db body uuid salt now)
  | GetSettings user => snd (userRouter_get_settings db user)
  | PostClient user body uuid now =>
      snd (clientRouter_post db user body uuid now)
  | PutClient user id body now => snd (clientRouter_put db user id body now)
  | DeleteClient user id => snd (clientRouter_delete db user id)
  | PostInvoice user body uuid year now =>
      snd (invoiceRouter_post db user body uuid year now)
  | PutInvoice user id body now =>
      snd (invoiceRouter_put db user id body now)
  | DeleteInvoice user id => snd (invoiceRouter_delete db user id)
  | PostPayment user id body uuid now =>
      snd (invoiceRouter_post_payments db user id body uuid now)
  end.

(** The store after a run of requests, from the store that the server
    starts with. *)
Definition run (requests : list (Request num)) : Db num :=
  fold_left serve requests emptyDb.

End Application.

(** ** The formulas of the specification *)

Section Specification.

Context {num : Type} `{JsNumber num}.

(** "[item.tax_rate] if present, else [invoice.global_tax_rate] if
    present, else 0". *)
Definition effective_tax_rate_spec (item : Item num)
  (global_tax_rate : JsValue num) : num :=
  match tax_rate item, global_tax_rate with
  | JNumber r, _ | JString r, _ => r
  | JUndefined, JNumber g | JUndefined, JString g => g
  | JUndefined, JUndefined => of_Z 0
  end.

(** "round(sum over items of quantity * unit_price *
    (1 + effective_tax_rate / 100), 2)". *)
Definition total_amount_spec (its : list (Item num))
  (global_tax_rate : JsValue num) : num :=
  toFixed2
    (fold_left
       (fun total item =>
          add total
            (mul (mul (quantity item) (unit_price item))
               (add (of_Z 1)
                  (div (effective_tax_rate_spec item global_tax_rate)
                       (of_Z 100)))))
       its (of_Z 0)).

(** A rate that is either absent or truthy: not the number 0, which the
    handlers take for an absent rate. *)
Definition rate_given (v : JsValue num) : Prop :=
  toBoolean v = false -> v = JUndefined.




(** "[total_paid >= invoice.total_amount] -> paid; else [total_paid > 0]
    -> partially_paid; else status is left unchanged". *)
Definition derivedStatus (totalPaid_ : num) (invoice : Invoice num)
  : Status :=
  if geb totalPaid_ (inv_total_amount invoice) then paid
  else if gtb totalPaid_ (of_Z 0) then partially_paid
  else inv_status invoice.

(** [balance_due(inv) = inv.total_amount - sum(payments for inv)]. *)
Definition balance_due (db : Db num) (inv : Invoice num) : num :=
  sub (inv_total_amount inv) (totalPaid (payments db) (inv_id inv)).

(** An invoice that counts as outstanding: positive balance and status
    pending, partially paid or overdue. *)
Definition outstanding (db : Db num) (inv : Invoice num) : bool :=
  gtb (balance_due db inv) (of_Z 0) && is_open (inv_status inv).

(** Its due date is set and earlier than [now]. *)
Definition past_due (now : Time) (inv : Invoice num) : bool :=
  match inv_due_date inv with
  | Some due => due <? now
  | None => false
  end.

Definition sum_balances (db : Db num) (l : list (Invoice num)) : num :=
  fold_left (fun sum inv => add sum (balance_due db inv)) l (of_Z 0).

Definition invoicesOfUser (db : Db num) (user : AuthUser)
  : list (Invoice num) :=
  List.filter (fun inv => String.eqb (inv_userId inv) (au_id user))
              (invoices db).

(** [a] may stand before [b]: the revenue of [b] is at most that of [a]. *)
Definition descending (a b : Revenue num) : Prop :=
  leb (total_revenue b) (total_revenue a) = true.

Definition positive_revenue (d : Revenue num) : Prop :=
  gtb (total_revenue d) (of_Z 0) = true.

(** The comparison function of the report,
    [(a, b) => b.total_revenue - a.total_revenue]. *)
Definition byRevenue (a b : Revenue num) : num :=
  sub (total_revenue b) (total_revenue a).

End Specification.

(** ** Sample data *)

(** The samples are written once for every number structure; [cents n] is
    the number that the JSON literal for [n / 100] denotes. *)
Module Sample.

Section Data.

Context {num : Type} `{JsNumber num}.


Definition alice : AuthUser :=
  {| au_id := "u-alice"; au_email := "alice@example.com";
     au_name := "Alice"; au_roles := ["user"] |}.

Definition acme : Client :=
  {| cl_id := "c-acme"; cl_userId := "u-alice"; cl_name := "Acme";
     cl_email := "billing@acme.test"; cl_phone := None;
     cl_address := None; cl_notes := None;
     cl_createdAt := 0; cl_updatedAt := 0 |}.

Definition db0 : Db num :=
  {| users := []; settings := []; clients := [acme]; invoices := [];
     payments := [] |}.

Definition line (q p : num) (rate : JsValue num) : Item num :=
  {| description := "Consulting"; quantity := q; unit_price := p;
     tax_rate := rate |}.

Definition data (s : Status) (global : JsValue num) : InvoiceData num :=
  {| d_invoice_date := 0; d_due_date := Some (Some 1500); d_status := s;
     d_notes := None; d_currency := None; d_global_tax_rate := global;
     d_is_recurring := None; d_recurrence_frequency := None;
     d_recurrence_interval := None; d_recurrence_end_date := None;
     d_extra := no_overrides |}.

Definition order (its : list (Item num)) (s : Status)
  (global : JsValue num) : InvoiceBody num :=
  {| client_id := "c-acme"; items := its; invoiceData := data s global |}.

Definition cash (a : num) (date : Time) : PaymentBody num :=
  {| amount := JNumber a; payment_date := Some date;
     payment_method := "cash"; notes := None |}.

(** Two units at 100 with 10% tax and one unit at 50 with no tax rate:
    270.00. *)
Definition two_lines : InvoiceBody num :=
  order [line (of_Z 2) (of_Z 100) (JNumber (of_Z 10));
         line (of_Z 1) (of_Z 50) JUndefined] pending JUndefined.

(** The database after that invoice is created ... *)
Definition db1 : Db num :=
  snd (invoiceRouter_post db0 alice two_lines "i-1" 2025 1000).

(** ... and after a payment of 100.00 on it. *)
Definition db2 : Db num :=
  snd (invoiceRouter_post_payments db1 alice "i-1" (cash (of_Z 100) 2000)
         "p-1" 2000).

(** The invoice of [db1] as it is stored, with its status and the instant
    of its last update. *)
Definition invoice1 (s : Status) (updated : Time) : Invoice num :=
  {| inv_id := "i-1"; inv_userId := "u-alice"; inv_clientId := "c-acme";
     inv_client_name := "Acme"; inv_invoice_number := "INV-2025-00001";
     inv_invoice_date := 0; inv_due_date := Some 1500;
     inv_items := items two_lines;
     inv_total_amount := total_amount (items two_lines) JUndefined;
     inv_status := s; inv_notes := None; inv_currency := None;
     inv_global_tax_rate := JUndefined;
     inv_recurrence :=
       {| is_recurring := None; recurrence_frequency := None;
          recurrence_interval := None; recurrence_end_date := None |};
     inv_createdAt := 1000; inv_updatedAt := updated |}.

(** The payment of [db2] as it is stored. *)
Definition payment1 : Payment num :=
  {| pay_id := "p-1"; pay_invoiceId := "i-1"; pay_userId := "u-alice";
     pay_amount := of_Z 100; pay_payment_date := 2000;
     pay_payment_method := "cash"; pay_notes := None;
     pay_createdAt := 2000 |}.

(** An invoice of 270.00 that is created as cancelled. *)
Definition db_cancelled : Db num :=
  snd (invoiceRouter_post db0 alice
         (order (items two_lines) cancelled JUndefined) "i-1" 2025 1000).

(** One unit at 100 whose tax rate is the number 0, on an invoice whose
    global tax rate is 10. *)
Definition exempt_line : InvoiceBody num :=
  order [line (of_Z 1) (of_Z 100) (JNumber (of_Z 0))] pending
        (JNumber (of_Z 10)).



(** Two invoices are created, the first is deleted, a third is created. *)
Definition db_two : Db num :=
  snd (invoiceRouter_post db1 alice two_lines "i-2" 2025 1100).

Definition db_after_delete : Db num :=
  snd (invoiceRouter_delete db_two alice "i-1").

Definition db_third : Db num :=
  snd (invoiceRouter_post db_after_delete alice two_lines "i-3" 2025 1200).


End Data.

End Sample.

(** ** A platform for the samples *)

(** Stand-ins for the library functions on ASCII strings, with which the
    samples run: [trim] strips white space, an email is a string with an
    [@], normalising is lowering the case, a hash is the salt and the
    password, and a token is the payload in clear. The properties are
    proved for every platform. *)
Module Demo.

Fixpoint trimEnd (s : string) : string :=
  match s with
  | EmptyString => EmptyString
  | String c s' =>
      match trimEnd s' with
      | EmptyString => if is_space c then EmptyString else String c EmptyString
      | t => String c t
      end
  end.

Definition lower (c : ascii) : ascii :=
  let n := nat_of_ascii c in
  if (Nat.leb 65 n && Nat.leb n 90)%bool then ascii_of_nat (n + 32) else c.

Fixpoint lowercase (s : string) : string :=
  match s with
  | EmptyString => EmptyString
  | String c s' => String (lower c) (lowercase s')
  end.

Definition hash (password salt : string) : string :=
  (salt ++ "$" ++ password)%string.

Definition compare (password hashed : string) : bool :=
  match split "$" hashed with
  | [_; p] => String.eqb password p
  | _ => false
  end.

Definition sign (payload : AuthUser) (now : Time) : string :=
  (au_id payload ++ "|" ++ au_email payload ++ "|" ++ au_name payload)%string.

Definition verify (t : string) (now : Time) : option AuthUser :=
  match split "|" t with
  | [id; email; name] =>
      Some {| au_id := id; au_email := email; au_name := name;
              au_roles := ["user"] |}
  | _ => None
  end.

#[global] Instance platform : Platform :=
  Build_Platform (fun s => trimEnd (trimStart s))
    (fun s => includesString s "@") lowercase
    (fun n s => Nat.leb n (String.length s)) lowercase hash compare sign
    verify.

Section Data.

Context {num : Type} `{JsNumber num}.

Definition registration : RegisterBody :=
  {| rb_name := " Alice "; rb_email := "Alice@Example.com";
     rb_password := "secret1" |}.

Definition acme : ClientBody :=
  {| cb_name := "Acme"; cb_email := "billing@acme.test";
     cb_phone := Some " 555 0100 "; cb_address := None; cb_notes := Some "" |}.

Definition globex : ClientBody :=
  {| cb_name := "Globex"; cb_email := "ap@globex.test"; cb_phone := None;
     cb_address := Some "1 Main St"; cb_notes := None |}.

Definition bob : AuthUser :=
  {| au_id := "u-bob"; au_email := "bob@example.com"; au_name := "Bob";
     au_roles := ["user"] |}.

(** An account, a client, two invoices of 270.00 and a payment of 100.00
    on the first. *)
Definition history : list (Request num) :=
  [PostRegister registration "u-alice" "salt" 100;
   PostClient Sample.alice acme "c-acme" 200;
   PostInvoice Sample.alice Sample.two_lines "i-1" 2025 1000;
   PostInvoice Sample.alice Sample.two_lines "i-2" 2025 1100;
   PostPayment Sample.alice "i-1" (Sample.cash (of_Z 100) 2000) "p-1" 2000].

Definition store : Db num := run history.

(** The same store once Bob has an account, a client, an invoice and a
    payment of his own. *)
Definition bob_registration : RegisterBody :=
  {| rb_name := "Bob"; rb_email := "bob@example.com";
     rb_password := "hunter22" |}.

Definition bob_order : InvoiceBody num :=
  {| client_id := "c-bob"; items := items Sample.two_lines;
     invoiceData := invoiceData Sample.two_lines |}.

Definition crowded : Db num :=
  run (history
       ++ [PostRegister bob_registration "u-bob" "pepper" 3000;
           PostClient bob globex "c-bob" 3100;
           PostInvoice bob bob_order "i-b" 2025 3200;
           PostPayment bob "i-b" (Sample.cash (of_Z 270) 3300) "p-b" 3300]).

End Data.

End Demo.

(** ** Laws of numbers *)

(** The properties below are stated for every number structure that obeys
    the law they need. Each law names the arguments it is used at, so that
    it is a law of IEEE-754 doubles (where [NaN] compares false with
    everything and [Infinity - Infinity] is [NaN]) as well as of the exact
    rationals: [ExactLaws] proves the four classes for the rationals, and
    [Binary64Laws] proves the first three for doubles. *)

(** Sums of positive numbers are positive. *)
Class PositiveSums (num : Type) `{JsNumber num} : Prop := {
  zero_add_positive : forall a : num,
    gtb a (of_Z 0) = true -> gtb (add (of_Z 0) a) (of_Z 0) = true;
  add_positive : forall s a : num,
    gtb s (of_Z 0) = true -> gtb a (of_Z 0) = true ->
    gtb (add s a) (of_Z 0) = true
}.

(** [<=] is transitive, and adding a positive number and rounding to two
    decimals are monotone on the numbers from zero up. *)
Class MonotoneSums (num : Type) `{JsNumber num} : Prop := {
  leb_zero : leb (of_Z 0) (of_Z 0) = true;
  leb_trans : forall a b c : num,
    leb a b = true -> leb b c = true -> leb a c = true;
  add_monotone : forall o t b : num,
    leb (of_Z 0) o = true -> leb o t = true -> gtb b (of_Z 0) = true ->
    leb (add o b) (add t b) = true;
  add_increasing : forall t b : num,
    leb (of_Z 0) t = true -> gtb b (of_Z 0) = true ->
    leb t (add t b) = true;
  toFixed2_monotone : forall a b : num,
    leb (of_Z 0) a = true -> leb a b = true ->
    leb (toFixed2 a) (toFixed2 b) = true
}.

(** On positive numbers the sign of [b - a] orders [a] and [b]. *)
Class SubtractionOrders (num : Type) `{JsNumber num} : Prop := {
  sub_positive : forall a b : num,
    gtb a (of_Z 0) = true -> gtb b (of_Z 0) = true ->
    gtb (sub b a) (of_Z 0) = true -> leb a b = true;
  sub_not_positive : forall a b : num,
    gtb a (of_Z 0) = true -> gtb b (of_Z 0) = true ->
    gtb (sub b a) (of_Z 0) = false -> leb b a = true;
  leb_transitive : forall a b c : num,
    leb a b = true -> leb b c = true -> leb a c = true
}.

(** Addition is exact: it is commutative and associative. This is a law of
    the rationals and not of doubles, whose sums round. *)
Class ExactSums (num : Type) `{JsNumber num} : Prop := {
  add_comm : forall a b : num, add a b = add b a;
  add_assoc : forall a b c : num, add (add a b) c = add a (add b c)
}.

(** The number that an integer denotes is above zero exactly when the
    integer is. *)
Class IntegerSigns (num : Type) `{JsNumber num} : Prop := {
  of_Z_positive : forall z : Z, gtb (of_Z z) (of_Z 0) = (0 <? z)
}.

(** ** Arrays: facts about [filter], [find] and in-place mutation *)

Section Arrays.

Context {A : Type}.

Lemma filter_length_le (p : A -> bool) (l : list A) :
  (List.length (List.filter p l) <= List.length l)%nat.
Proof.
  induction l as [|x l IH]; simpl; [lia|].
  destruct (p x); simpl; lia.
Qed.

(** [filter] shortens an array that holds an element it rejects. *)
Lemma filter_length_lt (p : A -> bool) (l : list A) (x : A) :
  In x l -> p x = false ->
  (List.length (List.filter p l) < List.length l)%nat.
Proof.
  induction l as [|y l IH]; simpl; [tauto|].
  intros [->|Hin] Hp.
  - rewrite Hp. pose proof (filter_length_le p l). lia.
  - specialize (IH Hin Hp). destruct (p y); simpl; lia.
Qed.

(** Mutating the object that [find] returned splits the array around the
    first match. *)
Lemma mutate_found_split (p : A -> bool) (f : A -> A) (l : list A) (x : A) :
  find p l = Some x ->
  exists before after,
    l = before ++ x :: after /\
    mutate_found p f l = before ++ f x :: after /\
    find p before = None /\ p x = true.
Proof.
  induction l as [|y l IH]; simpl; [discriminate|].
  destruct (p y) eqn:Hy.
  - intros [= ->]. exists [], l. simpl. auto.
  - intros Hfind. destruct (IH Hfind) as (b & a & -> & -> & Hb & Hx).
    exists (y :: b), a. simpl. rewrite Hy. auto.
Qed.

Lemma find_app_none (p : A -> bool) (l1 l2 : list A) :
  find p l1 = None -> find p (l1 ++ l2) = find p l2.
Proof.
  induction l1 as [|y l1 IH]; simpl; [reflexivity|].
  destruct (p y); [discriminate|exact IH].
Qed.

Lemma find_filter_negb (p : A -> bool) (l : list A) :
  find p (List.filter (fun x => negb (p x)) l) = None.
Proof.
  induction l as [|y l IH]; simpl; [reflexivity|].
  destruct (p y) eqn:Hy; simpl; [exact IH|].
  rewrite Hy. exact IH.
Qed.

(** A loop that adds under a condition adds over the filtered array. *)
Lemma fold_left_filter {B : Type} (g : B -> A -> B) (p : A -> bool)
  (l : list A) (b : B) :
  fold_left (fun acc x => if p x then g acc x else acc) l b
  = fold_left g (List.filter p l) b.
Proof.
  revert b. induction l as [|y l IH]; intros b; simpl; [reflexivity|].
  rewrite IH. destruct (p y); reflexivity.
Qed.


End Arrays.

(** ** Deleting an invoice *)

Section Delete.

Context {num : Type} `{JsNumber num}.

Lemma eqb_false_neq (a b : string) :
  negb (String.eqb a b) = true <-> a <> b.
Proof.
  rewrite negb_true_iff. apply String.eqb_neq.
Qed.

(** C7. Deleting an invoice that the caller owns answers 204, removes the
    invoice, removes every payment whose [invoiceId] is the deleted id and
    keeps every other payment, in order; after it, fetching the payments
    of that id answers 404. Users, settings and clients are untouched. *)
Theorem delete_invoice_cascades (db : Db num) (user : AuthUser) (id : Id)
  (invoice : Invoice num) :
  In invoice (invoices db) ->
  owns_invoice id user invoice = true ->
  exists db',
    invoiceRouter_delete db user id = (Reply 204 tt, db') /\
    invoices db'
    = List.filter (fun inv => negb (owns_invoice id user inv)) (invoices db) /\
    ~ In invoice (invoices db') /\
    payments db'
    = List.filter (fun p => negb (String.eqb (pay_invoiceId p) id))
                  (payments db) /\
    (forall p, In p (payments db')
               <-> In p (payments db) /\ pay_invoiceId p <> id) /\
    invoiceRouter_get_payments db' user id
    = Failure 404 "Invoice not found or access denied." /\
    users db' = users db /\ settings db' = settings db /\
    clients db' = clients db.
Proof.
  intros Hin Hown. unfold invoiceRouter_delete. simpl.
  pose proof (filter_length_lt
                (fun inv => negb (owns_invoice id user inv))
                (invoices db) invoice Hin) as Hlt.
  cbn beta in Hlt. rewrite Hown in Hlt. specialize (Hlt eq_refl).
  destruct (Nat.eqb_spec
              (List.length
                 (List.filter (fun inv => negb (owns_invoice id user inv))
                    (invoices db)))
              (List.length (invoices db))) as [Heq|_]; [lia|].
  eexists. split; [reflexivity|]. simpl.
  repeat split; try tauto.
  - rewrite filter_In, Hown. simpl. intros [_ Hfalse]. discriminate.
  - rewrite filter_In in H0. tauto.
  - rewrite filter_In in H0. apply eqb_false_neq. tauto.
  - intros [Hp Hne]. apply filter_In. split; [exact Hp|].
    apply eqb_false_neq. exact Hne.
  - unfold invoiceRouter_get_payments. simpl.
    rewrite (find_filter_negb (owns_invoice id user)). reflexivity.
Qed.

End Delete.

(** ** Recording a payment *)

Section Payments.

Context {num : Type} `{JsNumber num}.

Lemma owns_invoice_with_status (id : Id) (user : AuthUser)
  (inv : Invoice num) (s : Status) (now : Time) :
  owns_invoice id user (with_status inv s now) = owns_invoice id user inv.
Proof. reflexivity. Qed.

Lemma deriveStatus_with_status (t : num) (now : Time) (inv : Invoice num) :
  deriveStatus t now inv = with_status inv (derivedStatus t inv) now.
Proof.
  unfold deriveStatus, derivedStatus.
  destruct (geb t (inv_total_amount inv)); [reflexivity|].
  destruct (gtb t (of_Z 0)); reflexivity.
Qed.

(** What a validated payment on an invoice of the caller does. *)
Lemma post_payments_effect (db : Db num) (user : AuthUser) (invoiceId : Id)
  (body : PaymentBody num) (uuid : Id) (now : Time) (invoice : Invoice num) :
  paymentValidationRules body = true ->
  find (owns_invoice invoiceId user) (invoices db) = Some invoice ->
  exists newPayment before after,
    invoiceRouter_post_payments db user invoiceId body uuid now
    = (Reply 201 newPayment,
       {| users := users db; settings := settings db;
          clients := clients db;
          invoices :=
            before
            ++ with_status invoice
                 (derivedStatus
                    (totalPaid (payments db ++ [newPayment]) invoiceId)
                    invoice) now
            :: after;
          payments := payments db ++ [newPayment] |}) /\
    invoices db = before ++ invoice :: after /\
    find (owns_invoice invoiceId user) before = None /\
    pay_invoiceId newPayment = invoiceId /\
    pay_userId newPayment = au_id user /\
    pay_amount newPayment = Number (amount body).
Proof.
  intros Hvalid Hfind. unfold invoiceRouter_post_payments.
  rewrite Hvalid, Hfind. simpl.
  unfold paymentValidationRules in Hvalid.
  destruct (payment_date body) as [date|] eqn:Hdate;
    [|rewrite andb_false_r in Hvalid; discriminate].
  destruct (mutate_found_split (owns_invoice invoiceId user)
              (deriveStatus
                 (totalPaid
                    (payments db
                     ++ [{| pay_id := uuid; pay_invoiceId := invoiceId;
                            pay_userId := au_id user;
                            pay_amount := Number (amount body);
                            pay_payment_date := date;
                            pay_payment_method := payment_method body;
                            pay_notes := notes body;
                            pay_createdAt := now |}]) invoiceId) now)
              _ _ Hfind) as (before & after & Hsplit & Hmut & Hnone & _).
  eexists. exists before, after.
  split.
  - unfold set_invoices, set_payments. simpl. rewrite Hmut.
    rewrite deriveStatus_with_status. reflexivity.
  - repeat split; try eassumption; reflexivity.
Qed.

(** C2. A payment that passes validation (amount > 0) on an invoice of the
    caller answers 201, appends exactly the new [Payment] and leaves the
    invoice with the status that the sum of the payments of that invoice
    decides: [paid] when the sum reaches [total_amount], else
    [partially_paid] when the sum is positive, else the status it had,
    whatever that was. A payment whose amount is zero answers 400 and
    changes nothing. *)
Theorem record_payment_derives_status (db : Db num) (user : AuthUser)
  (invoiceId : Id) (uuid : Id) (now : Time) :
  gtb (of_Z 0 : num) (of_Z 0) = false ->
  (forall body invoice,
      paymentValidationRules body = true ->
      find (owns_invoice invoiceId user) (invoices db) = Some invoice ->
      exists newPayment db' invoice',
        invoiceRouter_post_payments db user invoiceId body uuid now
        = (Reply 201 newPayment, db') /\
        payments db' = payments db ++ [newPayment] /\
        pay_invoiceId newPayment = invoiceId /\
        pay_amount newPayment = Number (amount body) /\
        find (owns_invoice invoiceId user) (invoices db') = Some invoice' /\
        let paidSum := totalPaid (payments db') invoiceId in
        inv_status invoice'
        = if geb paidSum (inv_total_amount invoice) then paid
          else if gtb paidSum (of_Z 0) then partially_paid
          else inv_status invoice) /\
  (forall body,
      Number (amount body) = of_Z 0 ->
      invoiceRouter_post_payments db user invoiceId body uuid now
      = (Failure 400 "validation errors", db)).
Proof.
  intros Hzero. split.
  - intros body invoice Hvalid Hfind.
    destruct (post_payments_effect db user invoiceId body uuid now invoice
                Hvalid Hfind)
      as (newPayment & before & after & Hrun & Hsplit & Hnone & Hid & _ & Ham).
    eexists newPayment, _, _. split; [exact Hrun|]. simpl.
    repeat split; try assumption.
    + rewrite (find_app_none _ _ _ Hnone). simpl.
      rewrite owns_invoice_with_status.
      apply find_some in Hfind. destruct Hfind as [_ ->]. reflexivity.
    + reflexivity.
  - intros body Hamount. unfold invoiceRouter_post_payments.
    replace (paymentValidationRules body) with false; [reflexivity|].
    unfold paymentValidationRules, isFloat_gt0.
    destruct (amount body) as [|x|x]; simpl in Hamount |- *;
      try reflexivity; subst x; rewrite Hzero; reflexivity.
Qed.

(** A reply 201 comes from a validated body and an invoice of the caller. *)
Lemma post_payments_created (db db' : Db num) (user : AuthUser)
  (invoiceId : Id) (body : PaymentBody num) (uuid : Id) (now : Time)
  (newPayment : Payment num) :
  invoiceRouter_post_payments db user invoiceId body uuid now
  = (Reply 201 newPayment, db') ->
  paymentValidationRules body = true /\
  exists invoice,
    find (owns_invoice invoiceId user) (invoices db) = Some invoice.
Proof.
  unfold invoiceRouter_post_payments.
  destruct (paymentValidationRules body); simpl; [|discriminate].
  destruct (find (owns_invoice invoiceId user) (invoices db)) as [inv|];
    [|discriminate].
  intros _. split; [reflexivity|]. exists inv. reflexivity.
Qed.

(** C10. A payment that is recorded (reply 201) leaves users, settings and
    clients as they were, and changes one invoice only, the first one with
    that id that the caller owns; of that invoice every field but [status]
    and [updatedAt] is unchanged. *)
Theorem record_payment_frame (db db' : Db num) (user : AuthUser)
  (invoiceId : Id) (body : PaymentBody num) (uuid : Id) (now : Time)
  (newPayment : Payment num) :
  invoiceRouter_post_payments db user invoiceId body uuid now
  = (Reply 201 newPayment, db') ->
  users db' = users db /\
  settings db' = settings db /\
  clients db' = clients db /\
  exists before invoice invoice' after,
    invoices db = before ++ invoice :: after /\
    invoices db' = before ++ invoice' :: after /\
    owns_invoice invoiceId user invoice = true /\
    inv_id invoice' = inv_id invoice /\
    inv_userId invoice' = inv_userId invoice /\
    inv_clientId invoice' = inv_clientId invoice /\
    inv_client_name invoice' = inv_client_name invoice /\
    inv_invoice_number invoice' = inv_invoice_number invoice /\
    inv_invoice_date invoice' = inv_invoice_date invoice /\
    inv_due_date invoice' = inv_due_date invoice /\
    inv_items invoice' = inv_items invoice /\
    inv_total_amount invoice' = inv_total_amount invoice /\
    inv_notes invoice' = inv_notes invoice /\
    inv_currency invoice' = inv_currency invoice /\
    inv_global_tax_rate invoice' = inv_global_tax_rate invoice /\
    inv_recurrence invoice' = inv_recurrence invoice /\
    inv_createdAt invoice' = inv_createdAt invoice.
Proof.
  intros Hrun.
  destruct (post_payments_created _ _ _ _ _ _ _ _ Hrun)
    as (Hvalid & invoice & Hfind).
  destruct (post_payments_effect db user invoiceId body uuid now invoice
              Hvalid Hfind)
    as (p & before & after & Heff & Hsplit & _ & _ & _ & _).
  rewrite Hrun in Heff. injection Heff as _ ->. simpl.
  repeat split.
  exists before, invoice.
  eexists. exists after.
  split; [exact Hsplit|]. split; [reflexivity|].
  split; [apply find_some in Hfind; tauto|].
  simpl. repeat split.
Qed.

(** Adding positive amounts to a positive sum keeps it positive. *)
Lemma fold_add_positive `{!PositiveSums num} (ps : list (Payment num))
  (s : num) :
  gtb s (of_Z 0) = true ->
  Forall (fun p => gtb (pay_amount p) (of_Z 0) = true) ps ->
  gtb (fold_left (fun sum p => add sum (pay_amount p)) ps s) (of_Z 0) = true.
Proof.
  intros Hs Hall. revert s Hs.
  induction Hall as [|p ps Hp _ IH]; intros s Hs; simpl; [exact Hs|].
  apply IH. apply add_positive; assumption.
Qed.

(** The sum that the handler computes once a positive amount is appended
    to positive amounts. *)
Lemma totalPaid_positive `{!PositiveSums num} (ps : list (Payment num))
  (new : Payment num) (invoiceId : Id) :
  (forall p, In p ps -> pay_invoiceId p = invoiceId ->
             gtb (pay_amount p) (of_Z 0) = true) ->
  pay_invoiceId new = invoiceId ->
  gtb (pay_amount new) (of_Z 0) = true ->
  gtb (totalPaid (ps ++ [new]) invoiceId) (of_Z 0) = true.
Proof.
  intros Hold Hid Hnew. unfold totalPaid.
  rewrite filter_app. simpl. rewrite Hid, String.eqb_refl.
  rewrite fold_left_app. simpl.
  assert (Hall : Forall (fun p => gtb (pay_amount p) (of_Z 0) = true)
                   (List.filter
                      (fun p => String.eqb (pay_invoiceId p) invoiceId) ps)).
  { apply Forall_forall. intros p Hp. apply filter_In in Hp.
    destruct Hp as [Hin Heq]. apply Hold; [exact Hin|].
    apply String.eqb_eq. exact Heq. }
  destruct (List.filter (fun p => String.eqb (pay_invoiceId p) invoiceId) ps)
    as [|q qs]; simpl.
  - apply zero_add_positive. exact Hnew.
  - apply add_positive; [|exact Hnew].
    inversion Hall as [|? ? Hq Hqs]; subst.
    apply fold_add_positive; [|exact Hqs].
    apply zero_add_positive. exact Hq.
Qed.

(** C9. When the new amount and every amount recorded before on the
    invoice are positive, the sum is positive and the invoice ends up
    [paid] or [partially_paid]: the branch that keeps the status is not
    taken. *)
Theorem record_payment_settles_status `{!PositiveSums num} (db : Db num)
  (user : AuthUser) (invoiceId : Id) (body : PaymentBody num) (uuid : Id)
  (now : Time) (invoice : Invoice num) :
  paymentValidationRules body = true ->
  find (owns_invoice invoiceId user) (invoices db) = Some invoice ->
  (forall p, In p (payments db) -> pay_invoiceId p = invoiceId ->
             gtb (pay_amount p) (of_Z 0) = true) ->
  exists newPayment db' invoice',
    invoiceRouter_post_payments db user invoiceId body uuid now
    = (Reply 201 newPayment, db') /\
    find (owns_invoice invoiceId user) (invoices db') = Some invoice' /\
    gtb (totalPaid (payments db') invoiceId) (of_Z 0) = true /\
    (inv_status invoice' = paid \/ inv_status invoice' = partially_paid).
Proof.
  intros Hvalid Hfind Hold.
  destruct (post_payments_effect db user invoiceId body uuid now invoice
              Hvalid Hfind)
    as (p & before & after & Hrun & Hsplit & Hnone & Hid & _ & Ham).
  assert (Hpos : gtb (totalPaid (payments db ++ [p]) invoiceId) (of_Z 0)
                 = true).
  { apply totalPaid_positive; [exact Hold|exact Hid|].
    rewrite Ham. unfold paymentValidationRules, isFloat_gt0 in Hvalid.
    destruct (amount body) as [|x|x]; simpl in Hvalid |- *;
      try discriminate;
      apply andb_true_iff in Hvalid; destruct Hvalid as [Hvalid _];
      apply andb_true_iff in Hvalid; tauto. }
  eexists p, _, _. split; [exact Hrun|]. simpl.
  split; [|split; [exact Hpos|]].
  - rewrite (find_app_none _ _ _ Hnone). simpl.
    rewrite owns_invoice_with_status.
    apply find_some in Hfind. destruct Hfind as [_ ->]. reflexivity.
  - simpl. unfold derivedStatus. rewrite Hpos.
    destruct (geb (totalPaid (payments db ++ [p]) invoiceId)
                (inv_total_amount invoice)); auto.
Qed.

End Payments.

(** ** The summary report *)

Section Summary.

Context {num : Type} `{JsNumber num}.

(** The condition under which the loop adds to [totalOverdue]. *)
Lemma overdue_condition (db : Db num) (now : Time) (inv : Invoice num) :
  gtb (balance_due db inv) (of_Z 0) && is_open (inv_status inv)
  && match inv_due_date inv with
     | Some due =>
         (due <? now)
         && negb (Status_eqb (inv_status inv) paid)
         && negb (Status_eqb (inv_status inv) cancelled)
     | None => false
     end
  = outstanding db inv && past_due now inv.
Proof.
  unfold outstanding, past_due.
  destruct (gtb (balance_due db inv) (of_Z 0)); simpl; [|reflexivity].
  destruct (inv_due_date inv) as [due|];
    destruct (inv_status inv); simpl; try reflexivity;
    destruct (due <? now); reflexivity.
Qed.

Lemma summary_outstanding (db : Db num) (now : Time)
  (l : list (Invoice num)) (acc : Totals) :
  totalOutstanding (fold_left (summaryStep db now) l acc)
  = fold_left (fun sum inv => add sum (balance_due db inv))
      (List.filter (outstanding db) l) (totalOutstanding acc).
Proof.
  rewrite <- fold_left_filter. revert acc.
  induction l as [|inv l IH]; intros acc; simpl; [reflexivity|].
  rewrite IH. reflexivity.
Qed.

Lemma summary_overdue (db : Db num) (now : Time)
  (l : list (Invoice num)) (acc : Totals) :
  totalOverdue (fold_left (summaryStep db now) l acc)
  = fold_left (fun sum inv => add sum (balance_due db inv))
      (List.filter (fun inv => outstanding db inv && past_due now inv) l)
      (totalOverdue acc).
Proof.
  rewrite <- fold_left_filter. revert acc.
  induction l as [|inv l IH]; intros acc; simpl; [reflexivity|].
  rewrite IH. simpl. rewrite <- overdue_condition. reflexivity.
Qed.


(** Over the same invoices the overdue sum stays between zero and the
    outstanding sum. *)
Lemma overdue_below_outstanding `{!MonotoneSums num} (db : Db num)
  (now : Time) (l : list (Invoice num)) (o t : num) :
  leb (of_Z 0) o = true -> leb o t = true ->
  leb (of_Z 0)
    (fold_left (fun sum inv => add sum (balance_due db inv))
       (List.filter (fun inv => outstanding db inv && past_due now inv) l) o)
  = true /\
  leb
    (fold_left (fun sum inv => add sum (balance_due db inv))
       (List.filter (fun inv => outstanding db inv && past_due now inv) l) o)
    (fold_left (fun sum inv => add sum (balance_due db inv))
       (List.filter (outstanding db) l) t)
  = true.
Proof.
  revert o t. induction l as [|inv l IH]; intros o t Ho Hot; simpl;
    [split; assumption|].
  destruct (outstanding db inv) eqn:Hout; simpl; [|apply IH; assumption].
  assert (Hpos : gtb (balance_due db inv) (of_Z 0) = true).
  { unfold outstanding in Hout. apply andb_true_iff in Hout. tauto. }
  assert (Ht : leb (of_Z 0) t = true) by (eapply leb_trans; eassumption).
  destruct (past_due now inv); simpl; apply IH.
  - eapply leb_trans; [exact Ho|]. apply add_increasing; assumption.
  - apply add_monotone; assumption.
  - exact Ho.
  - eapply leb_trans; [exact Hot|]. apply add_increasing; assumption.
Qed.

(** C5. In the summary report [total_outstanding] is the rounded sum of the
    balances due of the caller's invoices that have a positive balance and
    status pending, partially paid or overdue, [total_overdue] is the
    rounded sum over those of them whose due date is set and earlier than
    now, and [total_overdue <= total_outstanding]. *)
Theorem summary_overdue_le_outstanding `{!MonotoneSums num} (db : Db num)
  (user : AuthUser) (now : Time) :
  let report := reportRouter_get_summary db user now in
  total_outstanding report
  = toFixed2
      (sum_balances db
         (List.filter (outstanding db) (invoicesOfUser db user))) /\
  total_overdue report
  = toFixed2
      (sum_balances db
         (List.filter (fun inv => outstanding db inv && past_due now inv)
                      (invoicesOfUser db user))) /\
  leb (total_overdue report) (total_outstanding report) = true.
Proof.
  simpl. unfold summaryTotals.
  rewrite summary_outstanding, summary_overdue. simpl.
  split; [reflexivity|]. split; [reflexivity|].
  destruct (overdue_below_outstanding db now
              (List.filter
                 (fun inv => String.eqb (inv_userId inv) (au_id user))
                 (invoices db))
              (of_Z 0) (of_Z 0) leb_zero leb_zero) as [H0 Hle].
  apply toFixed2_monotone; assumption.
Qed.


End Summary.

(** ** The revenue-by-client report *)

Section Revenue.

Context {num : Type} `{JsNumber num}.

Lemma insertSorted_perm {A : Type} (compare : A -> A -> num) (x : A)
  (l : list A) :
  Permutation (x :: l) (insertSorted compare x l).
Proof.
  induction l as [|y l IH]; simpl; [reflexivity|].
  destruct (gtb (compare x y) (of_Z 0)); [|reflexivity].
  rewrite perm_swap. constructor. exact IH.
Qed.

(** [sort] keeps the elements of the array, whatever [compare] is. *)
Lemma sort_perm {A : Type} (compare : A -> A -> num) (l : list A) :
  Permutation l (sort compare l).
Proof.
  induction l as [|x l IH]; simpl; [reflexivity|].
  rewrite <- insertSorted_perm. constructor. exact IH.
Qed.

Lemma insertSorted_descending `{!SubtractionOrders num} (x : Revenue num)
  (l : list (Revenue num)) :
  positive_revenue x -> Forall positive_revenue l ->
  StronglySorted descending l ->
  StronglySorted descending (insertSorted byRevenue x l).
Proof.
  intros Hx Hpos Hsorted.
  induction Hsorted as [|y l Hl IH Hy]; simpl.
  - constructor; constructor.
  - inversion Hpos as [|? ? Hypos Hlpos]; subst.
    destruct (gtb (byRevenue x y) (of_Z 0)) eqn:Hcmp.
    + constructor; [apply IH; exact Hlpos|].
      apply Forall_forall. intros z Hz.
      apply (Permutation_in _ (Permutation_sym (insertSorted_perm _ x l)))
        in Hz.
      destruct Hz as [<-|Hz].
      * unfold descending. apply sub_positive; assumption.
      * rewrite Forall_forall in Hy. apply Hy. exact Hz.
    + assert (Hxy : descending x y).
      { unfold descending. apply sub_not_positive; assumption. }
      constructor; [constructor; assumption|].
      constructor; [exact Hxy|].
      apply Forall_forall. intros z Hz.
      rewrite Forall_forall in Hy. unfold descending in *.
      eapply leb_transitive; [apply Hy; exact Hz|exact Hxy].
Qed.

(** On positive revenues [sort] with [b.total_revenue - a.total_revenue]
    yields a descending array. *)
Lemma sort_descending `{!SubtractionOrders num} (l : list (Revenue num)) :
  Forall positive_revenue l ->
  StronglySorted descending (sort byRevenue l).
Proof.
  induction 1 as [|x l Hx Hl IH]; simpl; [constructor|].
  apply insertSorted_descending; [exact Hx| |exact IH].
  apply Forall_forall. intros z Hz.
  apply (Permutation_in _ (Permutation_sym (sort_perm byRevenue l))) in Hz.
  rewrite Forall_forall in Hl. apply Hl. exact Hz.
Qed.

(** C8. For a caller with the [admin] or [user] role the report answers
    with the entries of the clients of the target user, one per client,
    whose rounded revenue is positive; the revenue of an entry is the
    rounded sum, over the invoices of that client and user with status
    [paid] or [partially_paid], of the payments of each invoice; the
    entries are in descending order of revenue; and the target of a caller
    who is not [admin] is the caller. *)
Theorem revenue_by_client_report `{!SubtractionOrders num} (db : Db num)
  (user : AuthUser) (query_userId : option Id) :
  authorizeRole ["admin"; "user"] user = true ->
  let target := targetUserId user query_userId in
  exists data,
    reportRouter_get_revenue_by_client db user query_userId = Reply 200 data /\
    (includes (au_roles user) "admin" = false -> target = au_id user) /\
    Permutation data
      (List.filter (fun d => gtb (total_revenue d) (of_Z 0))
         (map (clientRevenue db target)
            (List.filter (fun c => String.eqb (cl_userId c) target)
                         (clients db)))) /\
    (forall d, In d data ->
       gtb (total_revenue d) (of_Z 0) = true /\
       exists client,
         In client (clients db) /\ cl_userId client = target /\
         rev_client_id d = cl_id client /\
         rev_client_name d = cl_name client /\
         total_revenue d
         = toFixed2
             (fold_left
                (fun sum inv =>
                   add sum (totalPaid (payments db) (inv_id inv)))
                (List.filter
                   (fun inv => String.eqb (inv_clientId inv) (cl_id client)
                               && String.eqb (inv_userId inv) target
                               && is_settled (inv_status inv))
                   (invoices db))
                (of_Z 0))) /\
    StronglySorted descending data.
Proof.
  intros Hauth target. unfold reportRouter_get_revenue_by_client.
  rewrite Hauth. simpl. eexists. split; [reflexivity|].
  fold target. unfold revenueData. fold byRevenue.
  set (l := List.filter (fun d => gtb (total_revenue d) (of_Z 0))
              (map (clientRevenue db target)
                 (List.filter (fun c => String.eqb (cl_userId c) target)
                              (clients db)))).
  assert (Hpos : Forall positive_revenue l).
  { apply Forall_forall. intros d Hd. apply filter_In in Hd. apply Hd. }
  split; [|split; [|split]].
  - intros Hadmin. unfold target, targetUserId. rewrite Hadmin.
    destruct query_userId; reflexivity.
  - apply Permutation_sym, sort_perm.
  - intros d Hd.
    apply (Permutation_in _ (Permutation_sym (sort_perm byRevenue l))) in Hd.
    apply filter_In in Hd. destruct Hd as [Hd Hgt]. split; [exact Hgt|].
    apply in_map_iff in Hd. destruct Hd as (c & <- & Hc).
    apply filter_In in Hc. destruct Hc as [Hc Hown].
    exists c. split; [exact Hc|]. split; [apply String.eqb_eq; exact Hown|].
    repeat split.
  - apply sort_descending. exact Hpos.
Qed.

End Revenue.

(** ** Invoice totals *)

Section Totals.

Context {num : Type} `{JsNumber num}.




End Totals.

(** ** Arrays: more facts about [filter], [findIndex] and [assign] *)

Section MoreArrays.

Context {A : Type}.

(** A [filter] that keeps the length keeps the array. *)
Lemma filter_length_eq (p : A -> bool) (l : list A) :
  List.length (List.filter p l) = List.length l -> List.filter p l = l.
Proof.
  induction l as [|x l IH]; simpl; [reflexivity|].
  destruct (p x); simpl; intros Hlen.
  - f_equal. apply IH. lia.
  - pose proof (filter_length_le p l). lia.
Qed.

(** [findIndex] finds the first match, and an assignment at that index
    replaces it. *)
Lemma findIndex_split (p : A -> bool) (l : list A) (i : nat) :
  findIndex p l = Some i ->
  exists before x after,
    l = before ++ x :: after /\
    nth_error l i = Some x /\
    p x = true /\
    find p before = None /\
    forall v, assign l i v = before ++ v :: after.
Proof.
  revert i. induction l as [|y l IH]; intros i; simpl; [discriminate|].
  destruct (p y) eqn:Hy.
  - intros [= <-]. exists [], y, l. simpl. auto.
  - destruct (findIndex p l) as [j|]; [|discriminate].
    intros [= <-].
    destruct (IH j eq_refl) as (b & x & a & -> & Hnth & Hx & Hb & Hassign).
    exists (y :: b), x, a. simpl. rewrite Hy.
    repeat split; try assumption.
    intros v. rewrite Hassign. reflexivity.
Qed.


(** The index of the first match behind a prefix without one. *)
Lemma findIndex_app (p : A -> bool) (before after : list A) (x : A) :
  find p before = None -> p x = true ->
  findIndex p (before ++ x :: after) = Some (List.length before).
Proof.
  induction before as [|y b IH]; simpl; intros Hb Hx.
  - rewrite Hx. reflexivity.
  - destruct (p y); [discriminate|]. rewrite (IH Hb Hx). reflexivity.
Qed.

Lemma nth_error_middle (before after : list A) (x : A) :
  nth_error (before ++ x :: after) (List.length before) = Some x.
Proof.
  induction before; simpl; auto.
Qed.

Lemma assign_middle (before after : list A) (x v : A) :
  assign (before ++ x :: after) (List.length before) v
  = before ++ v :: after.
Proof.
  induction before as [|y b IH]; simpl; [reflexivity|].
  rewrite IH. reflexivity.
Qed.


Lemma find_none_forall (p : A -> bool) (l : list A) :
  find p l = None <-> forall x, In x l -> p x = false.
Proof.
  induction l as [|y l IH]; simpl.
  - split; [intros _ x []|reflexivity].
  - destruct (p y) eqn:Hy.
    + split; [discriminate|]. intros Hall. specialize (Hall y (or_introl eq_refl)).
      congruence.
    + rewrite IH. split.
      * intros Hall x [<-|Hx]; auto.
      * intros Hall x Hx. apply Hall. right. exact Hx.
Qed.

End MoreArrays.

(** ** Invoice numbers *)

(** ** Invoice numbers *)

Section Numbers.

Context {num : Type} `{JsNumber num}.

(** The number that a string of digits denotes, read by the standard
    library's parser. *)
Lemma uint_of_string_zeros (k : nat) (s : string) :
  option_map Nat.of_uint
    (NilEmpty.uint_of_string (repeat_string "0" k ++ s)%string)
  = option_map Nat.of_uint (NilEmpty.uint_of_string s).
Proof.
  induction k as [|k IH]; simpl; [reflexivity|].
  rewrite <- IH.
  destruct (NilEmpty.uint_of_string (repeat_string "0" k ++ s)%string)
    as [d|]; simpl; [|reflexivity].
  reflexivity.
Qed.

Lemma uint_of_string_of_nat (n : nat) :
  option_map Nat.of_uint (NilEmpty.uint_of_string (string_of_nat n)) = Some n.
Proof.
  unfold string_of_nat, NilZero.string_of_uint.
  pose proof (Unsigned.of_to n) as Hn.
  destruct (Nat.to_uint n) eqn:Hd;
    try (rewrite NilEmpty.usu; simpl; f_equal; exact Hn).
  simpl. f_equal. exact Hn.
Qed.

(** Padding with zeros keeps the number that the digits denote. *)
Lemma padStart_zeros_value (k n : nat) :
  option_map Nat.of_uint
    (NilEmpty.uint_of_string (padStart k "0" (string_of_nat n)))
  = Some n.
Proof.
  unfold padStart. rewrite uint_of_string_zeros.
  apply uint_of_string_of_nat.
Qed.

(** Two strings of digits, each followed by a dash, that start the same
    string are equal. *)
Lemma digits_before_dash (y1 y2 r1 r2 : string) :
  NilEmpty.uint_of_string y1 <> None ->
  NilEmpty.uint_of_string y2 <> None ->
  (y1 ++ String "-" r1 = y2 ++ String "-" r2)%string ->
  y1 = y2 /\ r1 = r2.
Proof.
  revert y2. induction y1 as [|c y1 IH]; intros [|c2 y2] H1 H2; simpl.
  - intros [= ->]. split; reflexivity.
  - intros [= <- _]. exfalso. apply H2. simpl.
    destruct (NilEmpty.uint_of_string y2); reflexivity.
  - intros [= -> _]. exfalso. apply H1. simpl.
    destruct (NilEmpty.uint_of_string y1); reflexivity.
  - intros [= -> Heq].
    destruct (IH y2) as [-> ->]; try exact Heq; [| |split; reflexivity].
    + intros Hnone. apply H1. simpl. rewrite Hnone. reflexivity.
    + intros Hnone. apply H2. simpl. rewrite Hnone. reflexivity.
Qed.

Lemma string_of_nat_digits (n : nat) :
  NilEmpty.uint_of_string (string_of_nat n) <> None.
Proof.
  pose proof (uint_of_string_of_nat n) as Hn.
  destruct (NilEmpty.uint_of_string (string_of_nat n)); discriminate.
Qed.

(** The text of an invoice number tells the year and the sequence. *)
Lemma number_text_injective (year year' n n' : nat) :
  ("INV-" ++ string_of_nat year ++ "-"
   ++ padStart 5 "0" (string_of_nat n))%string
  = ("INV-" ++ string_of_nat year' ++ "-"
     ++ padStart 5 "0" (string_of_nat n'))%string ->
  year = year' /\ n = n'.
Proof.
  intros Heq.
  apply (f_equal (fun s => substring 4 (String.length s - 4) s)) in Heq.
  cbn [String.append String.length substring Nat.sub] in Heq.
  rewrite !Nat.sub_0_r in Heq.
  assert (Hsub : forall s, substring 0 (String.length s) s = s).
  { induction s; simpl; [reflexivity|]. f_equal. assumption. }
  rewrite !Hsub in Heq.
  apply digits_before_dash in Heq; try apply string_of_nat_digits.
  destruct Heq as [Hy Hp].
  apply (f_equal (fun s => option_map Nat.of_uint
                             (NilEmpty.uint_of_string s))) in Hy, Hp.
  rewrite !uint_of_string_of_nat in Hy.
  rewrite !padStart_zeros_value in Hp.
  injection Hy as ->. injection Hp as Hp. split; [reflexivity|exact Hp].
Qed.

(** X1. Two invoice numbers that [generateInvoiceNumber] draws are equal
    only when they are drawn in the same year with the same number of
    invoices in the store. *)
Theorem invoice_number_injective (db db' : Db num) (year year' : nat) :
  generateInvoiceNumber db year = generateInvoiceNumber db' year' ->
  year = year' /\ List.length (invoices db) = List.length (invoices db').
Proof.
  unfold generateInvoiceNumber. intros Heq.
  apply number_text_injective in Heq. lia.
Qed.

End Numbers.

Section Digits.

Context {num : Type} `{JsNumber num}.

(** The number that a run of digits denotes, read behind the digits that
    denote [acc]. *)
Lemma of_uint_acc_value (d : Decimal.uint) (acc : nat) :
  Z.of_nat (Nat.of_uint_acc d acc)
  = Z.of_nat acc * 10 ^ Z.of_nat (Decimal.nb_digits d)
    + Z.of_nat (Nat.of_uint d).
Proof.
  unfold Nat.of_uint. revert acc.
  induction d as [|d IH|d IH|d IH|d IH|d IH|d IH|d IH|d IH|d IH|d IH];
    intros acc; cbn [Nat.of_uint_acc Decimal.nb_digits];
    [simpl; lia|..];
    repeat match goal with
           | |- context [Nat.of_uint_acc d ?a] =>
               lazymatch a with
               | 0%nat => fail
               | _ => rewrite (IH a)
               end
           end;
    rewrite !Nat.tail_mul_spec, (Nat2Z.inj_succ (Decimal.nb_digits d)),
      Z.pow_succ_r by lia;
    set (P := 10 ^ Z.of_nat (Decimal.nb_digits d)); nia.
Qed.

Lemma of_uint_bound (d : Decimal.uint) :
  Z.of_nat (Nat.of_uint d) < 10 ^ Z.of_nat (Decimal.nb_digits d).
Proof.
  induction d as [|d IH|d IH|d IH|d IH|d IH|d IH|d IH|d IH|d IH|d IH];
    [simpl; lia|..];
    unfold Nat.of_uint; cbn [Nat.of_uint_acc Decimal.nb_digits];
    rewrite of_uint_acc_value, !Nat.tail_mul_spec,
      (Nat2Z.inj_succ (Decimal.nb_digits d)), Z.pow_succ_r by lia;
    set (P := 10 ^ Z.of_nat (Decimal.nb_digits d)) in *; lia.
Qed.

(** A run of digits that does not start with a zero denotes a number of
    that many digits. *)
Lemma of_uint_lower (d : Decimal.uint) :
  d <> Decimal.Nil -> (forall d', d <> Decimal.D0 d') ->
  10 ^ (Z.of_nat (Decimal.nb_digits d) - 1) <= Z.of_nat (Nat.of_uint d).
Proof.
  intros Hnil Hzero.
  destruct d as [|d|d|d|d|d|d|d|d|d|d];
    [contradiction|exfalso; exact (Hzero d eq_refl)|..];
    unfold Nat.of_uint; cbn [Nat.of_uint_acc Decimal.nb_digits];
    rewrite of_uint_acc_value, !Nat.tail_mul_spec,
      (Nat2Z.inj_succ (Decimal.nb_digits d));
    replace (Z.succ (Z.of_nat (Decimal.nb_digits d)) - 1)
      with (Z.of_nat (Decimal.nb_digits d)) by lia;
    pose proof (Z.pow_pos_nonneg 10 (Z.of_nat (Decimal.nb_digits d))
                  ltac:(lia) ltac:(lia));
    set (P := 10 ^ Z.of_nat (Decimal.nb_digits d)) in *; lia.
Qed.

Lemma string_of_uint_length (d : Decimal.uint) :
  String.length (NilEmpty.string_of_uint d) = Decimal.nb_digits d.
Proof.
  induction d; simpl; congruence.
Qed.

(** The decimal numeral of [n] has [k] digits exactly when [n] lies
    between [10 ^ (k - 1)] and [10 ^ k]; zero has one digit. *)
Lemma string_of_nat_length (n : nat) :
  let len := Z.of_nat (String.length (string_of_nat n)) in
  1 <= len /\ Z.of_nat n < 10 ^ len /\
  (n <> 0%nat -> 10 ^ (len - 1) <= Z.of_nat n).
Proof.
  unfold string_of_nat.
  pose proof (Unsigned.of_to n) as Hof.
  pose proof (Unsigned.to_of (Nat.to_uint n)) as Hto. rewrite Hof in Hto.
  set (d := Nat.to_uint n) in *. unfold Decimal.unorm in Hto.
  pose proof (DecimalFacts.nzhead_nonzero d) as Hhead.
  assert (Hcases : d = Decimal.D0 Decimal.Nil \/
                   d <> Decimal.Nil /\ forall d', d <> Decimal.D0 d').
  { destruct (Decimal.nzhead d) as [|d0|d0|d0|d0|d0|d0|d0|d0|d0|d0] eqn:Hnz;
      try (right; rewrite Hto; split; [discriminate|intros d'; discriminate]).
    - left. exact Hto.
    - exfalso. exact (Hhead d0 eq_refl). }
  destruct Hcases as [Hd|[Hnil Hzero]].
  - rewrite Hd in *. simpl in Hof. subst n.
    split; [simpl; lia|]. split; [reflexivity|].
    intros Hne. exfalso. apply Hne. reflexivity.
  - assert (Hlen : String.length (NilZero.string_of_uint d)
                   = Decimal.nb_digits d).
    { unfold NilZero.string_of_uint.
      destruct d; try contradiction; apply string_of_uint_length. }
    rewrite Hlen. cbv zeta.
    pose proof (of_uint_bound d) as Hup.
    pose proof (of_uint_lower d Hnil Hzero) as Hlow.
    rewrite Hof in Hup, Hlow.
    split; [destruct d; try contradiction; simpl; lia|]. tauto.
Qed.

Lemma append_length (s t : string) :
  String.length (s ++ t)%string = (String.length s + String.length t)%nat.
Proof.
  induction s as [|c s IH]; simpl; [reflexivity|]. rewrite IH. reflexivity.
Qed.

Lemma repeat_string_length (c : string) (k : nat) :
  String.length (repeat_string c k) = (k * String.length c)%nat.
Proof.
  induction k as [|k IH]; simpl; [reflexivity|].
  rewrite append_length, IH. reflexivity.
Qed.

(** X2. The sequence in an invoice number has five digits up to the
    99999th invoice; from the 100000th on it has more, and no digit is
    cut. *)
Theorem invoice_number_width (db : Db num) (year : nat) :
  let n := S (List.length (invoices db)) in
  exists sequence,
    generateInvoiceNumber db year
    = ("INV-" ++ string_of_nat year ++ "-" ++ sequence)%string /\
    option_map Nat.of_uint (NilEmpty.uint_of_string sequence) = Some n /\
    (Z.of_nat n < 100000 -> String.length sequence = 5%nat) /\
    (100000 <= Z.of_nat n ->
     sequence = string_of_nat n /\ (5 < String.length sequence)%nat).
Proof.
  intros n. unfold generateInvoiceNumber.
  replace (List.length (invoices db) + 1)%nat with n by (unfold n; lia).
  eexists. split; [reflexivity|].
  split; [apply padStart_zeros_value|].
  destruct (string_of_nat_length n) as (Hone & Hup & Hlow).
  specialize (Hlow ltac:(unfold n; lia)).
  set (len := String.length (string_of_nat n)) in *.
  unfold padStart. fold len. split.
  - intros Hsmall.
    assert (Hlen : (len <= 5)%nat).
    { destruct (Nat.le_gt_cases len 5) as [Hle|Hgt]; [exact Hle|].
      exfalso.
      assert (10 ^ 5 <= 10 ^ (Z.of_nat len - 1))
        by (apply Z.pow_le_mono_r; lia).
      change (10 ^ 5) with 100000 in *. lia. }
    rewrite append_length, repeat_string_length. fold len.
    simpl String.length. lia.
  - intros Hbig.
    assert (Hlen : (5 < len)%nat).
    { destruct (Nat.le_gt_cases len 5) as [Hle|Hgt]; [|exact Hgt].
      exfalso.
      assert (10 ^ Z.of_nat len <= 10 ^ 5)
        by (apply Z.pow_le_mono_r; lia).
      change (10 ^ 5) with 100000 in *. lia. }
    replace (5 - len)%nat with 0%nat by lia. simpl. split; [reflexivity|].
    exact Hlen.
Qed.

End Digits.

(** ** Requests that fail *)

Section Failures.

Context {num : Type} `{JsNumber num} `{Platform}.

Lemma set_invoices_same (db : Db num) : set_invoices db (invoices db) = db.
Proof. destruct db; reflexivity. Qed.

Lemma set_clients_same (db : Db num) : set_clients db (clients db) = db.
Proof. destruct db; reflexivity. Qed.

(** X3. An invoice request that is answered with an error leaves the
    store as it was: nothing is written before a check fails, and a
    deletion that finds nothing filters nothing out. *)
Theorem failed_invoice_request_changes_nothing (db : Db num)
  (user : AuthUser) (id : Id) (uuid : Id) (year : nat) (now : Time) :
  (forall body code message db',
      invoiceRouter_post db user body uuid year now
      = (Failure code message, db') -> db' = db) /\
  (forall body code message db',
      invoiceRouter_put db user id body now
      = (Failure code message, db') -> db' = db) /\
  (forall code message db',
      invoiceRouter_delete db user id = (Failure code message, db') ->
      db' = db) /\
  (forall body code message db',
      invoiceRouter_post_payments db user id body uuid now
      = (Failure code message, db') -> db' = db).
Proof.
  repeat split.
  - intros body code message db'. unfold invoiceRouter_post.
    destruct (invoiceValidationRules body); simpl; [|congruence].
    destruct (find _ (clients db)); [discriminate|congruence].
  - intros body code message db'. unfold invoiceRouter_put.
    destruct (invoiceValidationRules body); simpl; [|congruence].
    destruct (findIndex _ (invoices db)); [|congruence].
    destruct (find _ (clients db)); [|congruence].
    destruct (nth_error _ _); [discriminate|congruence].
  - intros code message db'. unfold invoiceRouter_delete. simpl.
    destruct (Nat.eqb_spec
                (List.length
                   (List.filter (fun inv => negb (owns_invoice id user inv))
                      (invoices db)))
                (List.length (invoices db))) as [Heq|_]; [|discriminate].
    intros [= _ _ <-]. rewrite (filter_length_eq _ _ Heq).
    apply set_invoices_same.
  - intros body code message db'. unfold invoiceRouter_post_payments.
    destruct (paymentValidationRules body); simpl; [|congruence].
    destruct (find _ (invoices db)); [|congruence].
    destruct (payment_date body); [discriminate|congruence].
Qed.

(** X4. A client request or a registration that is answered with an error
    leaves the store as it was. *)
Theorem failed_client_request_changes_nothing (db : Db num)
  (user : AuthUser) (id : Id) (uuid : Id) (salt : string) (now : Time) :
  (forall body code message db',
      clientRouter_post db user body uuid now
      = (Failure code message, db') -> db' = db) /\
  (forall body code message db',
      clientRouter_put db user id body now
      = (Failure code message, db') -> db' = db) /\
  (forall code message db',
      clientRouter_delete db user id = (Failure code message, db') ->
      db' = db) /\
  (forall body code message db',
      authRouter_post_register db body uuid salt now
      = (Failure code message, db') -> db' = db).
Proof.
  repeat split.
  - intros body code message db'. unfold clientRouter_post.
    destruct (clientValidationRules body); simpl; [|congruence].
    destruct (find _ (clients db)); [congruence|discriminate].
  - intros body code message db'. unfold clientRouter_put.
    destruct (clientValidationRules body); simpl; [|congruence].
    destruct (findIndex _ (clients db)); [|congruence].
    destruct (nth_error _ _); [discriminate|congruence].
  - intros code message db'. unfold clientRouter_delete. simpl.
    destruct (Nat.eqb_spec
                (List.length
                   (List.filter (fun c => negb (owns_client id user c))
                      (clients db)))
                (List.length (clients db))) as [Heq|_]; [|discriminate].
    intros [= _ _ <-]. rewrite (filter_length_eq _ _ Heq).
    apply set_clients_same.
  - intros body code message db'. unfold authRouter_post_register.
    destruct (registerValidation body); simpl; [|congruence].
    destruct (find _ (users db)); [congruence|discriminate].
Qed.

End Failures.

(** ** Creating and updating an invoice *)

Section Creation.

Context {num : Type} `{JsNumber num} `{Platform}.


End Creation.

Section Updates.

Context {num : Type} `{JsNumber num}.

(** An update that is accepted replaces the first invoice of the caller
    with that id by [updatedInvoice]. *)
Lemma put_accepted (db db' : Db num) (user : AuthUser) (id : Id)
  (body : InvoiceBody num) (now : Time) (updated : Invoice num) :
  invoiceRouter_put db user id body now = (Reply 200 updated, db') ->
  exists before old after client,
    invoiceValidationRules body = true /\
    invoices db = before ++ old :: after /\
    find (owns_invoice id user) before = None /\
    owns_invoice id user old = true /\
    find (owns_client (client_id body) user) (clients db) = Some client /\
    updated = updatedInvoice body client old now /\
    db' = set_invoices db (before ++ updated :: after).
Proof.
  unfold invoiceRouter_put.
  destruct (invoiceValidationRules body); simpl; [|discriminate].
  destruct (findIndex (owns_invoice id user) (invoices db)) as [i|] eqn:Hi;
    [|discriminate].
  destruct (findIndex_split _ _ _ Hi)
    as (before & old & after & Hsplit & Hnth & Hown & Hnone & Hassign).
  destruct (find (owns_client (client_id body) user) (clients db))
    as [client|]; [|discriminate].
  rewrite Hnth. intros [= <- <-].
  exists before, old, after, client.
  repeat split; try assumption. rewrite Hassign. reflexivity.
Qed.

(** Conversely, a valid body is accepted for an invoice and a client of
    the caller. *)
Lemma put_accepts (db : Db num) (user : AuthUser) (id : Id)
  (body : InvoiceBody num) (now : Time) (before after : list (Invoice num))
  (old : Invoice num) (client : Client) :
  invoiceValidationRules body = true ->
  invoices db = before ++ old :: after ->
  find (owns_invoice id user) before = None ->
  owns_invoice id user old = true ->
  find (owns_client (client_id body) user) (clients db) = Some client ->
  invoiceRouter_put db user id body now
  = (Reply 200 (updatedInvoice body client old now),
     set_invoices db
       (before ++ updatedInvoice body client old now :: after)).
Proof.
  intros Hvalid Hsplit Hnone Hown Hclient. unfold invoiceRouter_put.
  rewrite Hvalid, Hsplit, (findIndex_app _ _ _ _ Hnone Hown), Hclient.
  simpl. rewrite nth_error_middle, assign_middle. reflexivity.
Qed.

Lemma orElse_twice {A : Type} (o : option A) (x : A) :
  orElse o (orElse o x) = orElse o x.
Proof. destruct o; reflexivity. Qed.

Lemma spread_twice {A : Type} (new old : option A) :
  spread new (spread new old) = spread new old.
Proof. destruct new; reflexivity. Qed.

Lemma spreadValue_twice (new old : JsValue num) :
  spreadValue new (spreadValue new old) = spreadValue new old.
Proof. destruct new; reflexivity. Qed.

Lemma updatedInvoice_twice (body : InvoiceBody num) (client : Client)
  (old : Invoice num) (now : Time) :
  updatedInvoice body client (updatedInvoice body client old now) now
  = updatedInvoice body client old now.
Proof.
  unfold updatedInvoice. simpl.
  rewrite !orElse_twice, !spread_twice, spreadValue_twice. reflexivity.
Qed.


(** X7. An update that was accepted is accepted again when it is sent a
    second time, with the same reply, and the store stays as the first
    one left it. *)
Theorem update_invoice_idempotent (db db' : Db num) (user : AuthUser)
  (id : Id) (body : InvoiceBody num) (now : Time) (updated : Invoice num) :
  invoiceRouter_put db user id body now = (Reply 200 updated, db') ->
  x_id (d_extra (invoiceData body)) = None ->
  x_userId (d_extra (invoiceData body)) = None ->
  invoiceRouter_put db' user id body now = (Reply 200 updated, db').
Proof.
  intros Hrun Hid Huser.
  destruct (put_accepted _ _ _ _ _ _ _ Hrun)
    as (before & old & after & client & Hvalid & Hsplit & Hnone & Hown
        & Hclient & -> & ->).
  rewrite (put_accepts _ user id body now before after
             (updatedInvoice body client old now) client);
    try assumption; try reflexivity.
  - rewrite updatedInvoice_twice. reflexivity.
  - unfold owns_invoice, updatedInvoice. simpl. rewrite Hid, Huser. exact Hown.
Qed.

End Updates.

(** ** The payments of an invoice *)

Section Ledger.

Context {num : Type} `{JsNumber num}.

(** X8. A payment that is recorded is the last of the payments that the
    invoice then lists. *)
Theorem recorded_payment_is_listed (db db' : Db num) (user : AuthUser)
  (invoiceId : Id) (body : PaymentBody num) (uuid : Id) (now : Time)
  (newPayment : Payment num) :
  invoiceRouter_post_payments db user invoiceId body uuid now
  = (Reply 201 newPayment, db') ->
  exists listedBefore,
    invoiceRouter_get_payments db user invoiceId = Reply 200 listedBefore /\
    invoiceRouter_get_payments db' user invoiceId
    = Reply 200 (listedBefore ++ [newPayment]).
Proof.
  intros Hrun.
  destruct (post_payments_created _ _ _ _ _ _ _ _ Hrun)
    as (Hvalid & invoice & Hfind).
  destruct (post_payments_effect db user invoiceId body uuid now invoice
              Hvalid Hfind)
    as (p & before & after & Heff & Hsplit & Hnone & Hid & Huser & _).
  rewrite Hrun in Heff. injection Heff as -> ->.
  unfold invoiceRouter_get_payments. rewrite Hfind. eexists.
  split; [reflexivity|]. simpl.
  rewrite (find_app_none _ _ _ Hnone). simpl.
  rewrite owns_invoice_with_status.
  apply find_some in Hfind. destruct Hfind as [_ ->].
  rewrite filter_app. simpl.
  rewrite Hid, Huser, !String.eqb_refl. reflexivity.
Qed.

(** Sums of positive amounts are not below zero. *)
Lemma fold_add_nonneg `{!MonotoneSums num} (ps : list (Payment num))
  (s : num) :
  leb (of_Z 0) s = true ->
  Forall (fun p => gtb (pay_amount p) (of_Z 0) = true) ps ->
  leb (of_Z 0) (fold_left (fun sum p => add sum (pay_amount p)) ps s) = true.
Proof.
  intros Hs Hall. revert s Hs.
  induction Hall as [|p ps Hp _ IH]; intros s Hs; simpl; [exact Hs|].
  apply IH. eapply leb_trans; [exact Hs|].
  apply add_increasing; assumption.
Qed.

(** X9. An invoice whose payments cover its total stays [paid] when a
    further payment arrives. *)
Theorem covered_invoice_stays_paid `{!MonotoneSums num} (db : Db num)
  (user : AuthUser) (invoiceId : Id) (body : PaymentBody num) (uuid : Id)
  (now : Time) (invoice : Invoice num) :
  paymentValidationRules body = true ->
  find (owns_invoice invoiceId user) (invoices db) = Some invoice ->
  (forall p, In p (payments db) -> pay_invoiceId p = invoiceId ->
             gtb (pay_amount p) (of_Z 0) = true) ->
  geb (totalPaid (payments db) invoiceId) (inv_total_amount invoice) = true ->
  exists newPayment db' invoice',
    invoiceRouter_post_payments db user invoiceId body uuid now
    = (Reply 201 newPayment, db') /\
    find (owns_invoice invoiceId user) (invoices db') = Some invoice' /\
    inv_status invoice' = paid.
Proof.
  intros Hvalid Hfind Hold Hcovered.
  destruct (post_payments_effect db user invoiceId body uuid now invoice
              Hvalid Hfind)
    as (p & before & after & Hrun & Hsplit & Hnone & Hid & _ & Ham).
  eexists p, _, _. split; [exact Hrun|]. simpl.
  rewrite (find_app_none _ _ _ Hnone). simpl.
  rewrite owns_invoice_with_status.
  apply find_some in Hfind. destruct Hfind as [_ ->].
  split; [reflexivity|]. simpl. unfold derivedStatus.
  replace (geb (totalPaid (payments db ++ [p]) invoiceId)
             (inv_total_amount invoice)) with true; [reflexivity|].
  symmetry. unfold geb in *. unfold totalPaid in *.
  rewrite filter_app. simpl. rewrite Hid, String.eqb_refl.
  rewrite fold_left_app. simpl.
  eapply leb_trans; [exact Hcovered|].
  apply add_increasing.
  - apply fold_add_nonneg; [apply leb_zero|].
    apply Forall_forall. intros q Hq. apply filter_In in Hq.
    destruct Hq as [Hin Heq]. apply Hold; [exact Hin|].
    apply String.eqb_eq. exact Heq.
  - rewrite Ham. unfold paymentValidationRules, isFloat_gt0 in Hvalid.
    destruct (amount body) as [|x|x]; simpl in Hvalid |- *;
      try discriminate;
      apply andb_true_iff in Hvalid; destruct Hvalid as [Hvalid _];
      apply andb_true_iff in Hvalid; tauto.
Qed.

End Ledger.

(** ** The summary of a user *)

Section Isolation.

Context {num : Type} `{JsNumber num}.

Lemma fold_left_ext_in {A B : Type} (f g : B -> A -> B) (l : list A)
  (b : B) :
  (forall acc x, In x l -> f acc x = g acc x) ->
  fold_left f l b = fold_left g l b.
Proof.
  revert b. induction l as [|x l IH]; intros b Hfg; simpl; [reflexivity|].
  rewrite (Hfg b x (or_introl eq_refl)). apply IH.
  intros acc y Hy. apply Hfg. right. exact Hy.
Qed.

(** X10. The summary of a user is made of the invoices of that user and of
    the payments under their ids, and of nothing else in the store. *)
Theorem summary_reads_own_invoices (db db' : Db num) (user : AuthUser)
  (now : Time) :
  invoicesOfUser db' user = invoicesOfUser db user ->
  (forall inv, In inv (invoicesOfUser db user) ->
     List.filter (fun p => String.eqb (pay_invoiceId p) (inv_id inv))
                 (payments db')
     = List.filter (fun p => String.eqb (pay_invoiceId p) (inv_id inv))
                   (payments db)) ->
  reportRouter_get_summary db' user now = reportRouter_get_summary db user now.
Proof.
  intros Hinvoices Hpayments.
  unfold reportRouter_get_summary, summaryTotals.
  fold (invoicesOfUser db user). fold (invoicesOfUser db' user).
  rewrite Hinvoices.
  rewrite (fold_left_ext_in (summaryStep db' now) (summaryStep db now));
    [reflexivity|].
  intros acc inv Hin. unfold summaryStep. rewrite (Hpayments inv Hin).
  reflexivity.
Qed.

End Isolation.

(** ** Invoices and clients of other users *)

Section Access.

Context {num : Type} `{JsNumber num} `{Platform}.






End Access.

(** ** Clients *)

Section ClientRoutes.

Context {num : Type} `{JsNumber num} `{Platform}.

(** X14. A client that is created is stored last, belongs to the caller,
    and is what a fetch of its id returns when the id is new. *)
Theorem created_client_is_fetched (db db' : Db num) (user : AuthUser)
  (body : ClientBody) (uuid : Id) (now : Time) (newClient : Client) :
  clientRouter_post db user body uuid now = (Reply 201 newClient, db') ->
  (forall c, In c (clients db) -> cl_id c <> uuid) ->
  clients db' = clients db ++ [newClient] /\
  cl_id newClient = uuid /\
  cl_userId newClient = au_id user /\
  cl_name newClient = trim (cb_name body) /\
  cl_email newClient = normalizeEmail (cb_email body) /\
  clientRouter_get db' user uuid = Reply 200 newClient.
Proof.
  unfold clientRouter_post.
  destruct (clientValidationRules body); simpl; [|discriminate].
  destruct (find _ (clients db)); [discriminate|].
  intros [= <- <-] Hfresh. simpl. repeat split.
  unfold clientRouter_get. simpl. rewrite find_app_none.
  - simpl. unfold owns_client. simpl. rewrite !String.eqb_refl. reflexivity.
  - apply find_none_forall. intros c Hc. unfold owns_client.
    destruct (String.eqb_spec (cl_id c) uuid) as [Hid|_]; [|reflexivity].
    exfalso. exact (Hfresh c Hc Hid).
Qed.

(** X15. An update of a client replaces, in place, the first client of the
    caller with that id; it keeps the id, the owner and the creation time,
    takes the five fields from the body, an absent one included, and
    leaves every invoice as it is. *)
Theorem update_client_frame (db db' : Db num) (user : AuthUser) (id : Id)
  (body : ClientBody) (now : Time) (updated : Client) :
  clientRouter_put db user id body now = (Reply 200 updated, db') ->
  users db' = users db /\ settings db' = settings db /\
  invoices db' = invoices db /\ payments db' = payments db /\
  exists before old after,
    clients db = before ++ old :: after /\
    clients db' = before ++ updated :: after /\
    find (owns_client id user) before = None /\
    owns_client id user old = true /\
    cl_id updated = cl_id old /\
    cl_userId updated = cl_userId old /\
    cl_createdAt updated = cl_createdAt old /\
    cl_name updated = trim (cb_name body) /\
    cl_email updated = normalizeEmail (cb_email body) /\
    cl_phone updated = optional_trim (cb_phone body) /\
    cl_address updated = optional_trim (cb_address body) /\
    cl_notes updated = optional_trim (cb_notes body) /\
    cl_updatedAt updated = now.
Proof.
  unfold clientRouter_put.
  destruct (clientValidationRules body); simpl; [|discriminate].
  destruct (findIndex (owns_client id user) (clients db)) as [i|] eqn:Hi;
    [|discriminate].
  destruct (findIndex_split _ _ _ Hi)
    as (before & old & after & Hsplit & Hnth & Hown & Hnone & Hassign).
  rewrite Hnth. intros [= <- <-]. simpl. repeat split.
  exists before, old, after. rewrite Hassign. simpl. repeat split; assumption.
Qed.

(** X16. Deleting a client removes the clients of the caller with that id
    and nothing else; the invoices that refer to it stay, and from then on
    they are listed under the name ['N/A'] and fetched with no client. *)
Theorem delete_client_keeps_invoices (db : Db num) (user : AuthUser)
  (id : Id) (client : Client) :
  In client (clients db) ->
  owns_client id user client = true ->
  exists db',
    clientRouter_delete db user id = (Reply 204 tt, db') /\
    clients db'
    = List.filter (fun c => negb (owns_client id user c)) (clients db) /\
    users db' = users db /\ settings db' = settings db /\
    invoices db' = invoices db /\ payments db' = payments db /\
    clientRouter_get db' user id
    = Failure 404 "Client not found or access denied." /\
    (forall inv, inv_clientId inv = id ->
       listInvoice db' user inv
       = {| listed := with_client_name inv "N/A";
            client_email := "N/A" |}) /\
    (forall invoiceId inv c,
       invoiceRouter_get db' user invoiceId = Reply 200 (inv, c) ->
       inv_clientId inv = id ->
       In inv (invoices db) /\ c = None).
Proof.
  intros Hin Hown. unfold clientRouter_delete. simpl.
  pose proof (filter_length_lt
                (fun c => negb (owns_client id user c))
                (clients db) client Hin) as Hlt.
  cbn beta in Hlt. rewrite Hown in Hlt. specialize (Hlt eq_refl).
  destruct (Nat.eqb_spec
              (List.length
                 (List.filter (fun c => negb (owns_client id user c))
                    (clients db)))
              (List.length (clients db))) as [Heq|_]; [lia|].
  eexists. split; [reflexivity|]. simpl.
  pose proof (find_filter_negb (owns_client id user) (clients db)) as Hgone.
  repeat (split; [reflexivity|]).
  split; [unfold clientRouter_get; simpl; rewrite Hgone; reflexivity|].
  split.
  - intros inv <-. unfold listInvoice. simpl. rewrite Hgone. reflexivity.
  - intros invoiceId inv c Hget Hcl. revert Hget.
    unfold invoiceRouter_get. simpl.
    destruct (find _ (invoices db)) eqn:Hfind; [|discriminate].
    intros [= <- <-]. split; [apply find_some in Hfind; tauto|].
    rewrite Hcl. exact Hgone.
Qed.

End ClientRoutes.

(** ** Runs of requests *)

(** Case analysis on the handlers: each [if] and [match] of a handler
    that is unfolded in the goal. *)
Ltac branches :=
  repeat match goal with
         | |- context [if ?b then _ else _] => destruct b eqn:?; simpl
         | |- context [match ?o with Some _ => _ | None => _ end] =>
             destruct o eqn:?; simpl
         end.

Section Histories.

Context {num : Type} `{JsNumber num} `{Platform}.



Lemma serve_clients (db : Db num) (r : Request num) :
  match r with
  | PostClient _ _ _ _ | PutClient _ _ _ _ | DeleteClient _ _ => True
  | _ => clients (serve db r) = clients db
  end.
Proof.
  destruct r; simpl; try exact I;
    unfold authRouter_post_register, userRouter_get_settings,
      invoiceRouter_post, invoiceRouter_put,
      invoiceRouter_delete, invoiceRouter_post_payments;
    simpl; branches; reflexivity.
Qed.

Lemma serve_invoices (db : Db num) (r : Request num) :
  match r with
  | PostInvoice _ _ _ _ _ | PutInvoice _ _ _ _ | DeleteInvoice _ _
  | PostPayment _ _ _ _ _ => True
  | _ => invoices (serve db r) = invoices db
  end.
Proof.
  destruct r; simpl; try exact I;
    unfold authRouter_post_register, userRouter_get_settings,
      clientRouter_post, clientRouter_put, clientRouter_delete;
    simpl; branches; reflexivity.
Qed.

Lemma serve_payments (db : Db num) (r : Request num) :
  match r with
  | DeleteInvoice _ _ | PostPayment _ _ _ _ _ => True
  | _ => payments (serve db r) = payments db
  end.
Proof.
  destruct r; simpl; try exact I;
    unfold authRouter_post_register, userRouter_get_settings,
      clientRouter_post, clientRouter_put, clientRouter_delete,
      invoiceRouter_post, invoiceRouter_put;
    simpl; branches; reflexivity.
Qed.

(** A new invoice goes last; without extra keys in the body it carries the
    id and the number that the handler drew. *)
Lemma post_invoice_invoices (db : Db num) (user : AuthUser)
  (body : InvoiceBody num) (uuid : Id) (year : nat) (now : Time) :
  d_extra (invoiceData body) = no_overrides ->
  invoices (snd (invoiceRouter_post db user body uuid year now))
  = invoices db \/
  exists newInvoice,
    invoices (snd (invoiceRouter_post db user body uuid year now))
    = invoices db ++ [newInvoice] /\
    inv_id newInvoice = uuid /\
    inv_userId newInvoice = au_id user /\
    inv_invoice_number newInvoice = generateInvoiceNumber db year.
Proof.
  intros Hplain. unfold invoiceRouter_post.
  destruct (invoiceValidationRules body); simpl; [|left; reflexivity].
  destruct (find _ (clients db)); simpl; [|left; reflexivity].
  right. eexists. split; [reflexivity|]. rewrite Hplain. simpl. auto.
Qed.

(** An update and a payment keep the ids, the owners and the numbers of
    the invoices, in their order. *)
Lemma put_invoice_keys (db : Db num) (user : AuthUser) (id : Id)
  (body : InvoiceBody num) (now : Time) :
  d_extra (invoiceData body) = no_overrides ->
  let db' := snd (invoiceRouter_put db user id body now) in
  map inv_id (invoices db') = map inv_id (invoices db) /\
  map inv_userId (invoices db') = map inv_userId (invoices db) /\
  map inv_invoice_number (invoices db')
  = map inv_invoice_number (invoices db).
Proof.
  intros Hplain.
  destruct (invoiceRouter_put db user id body now) as [[code u|code m] db']
    eqn:Hrun; simpl.
  - assert (code = 200%nat) as ->.
    { revert Hrun. unfold invoiceRouter_put. branches; congruence. }
    destruct (put_accepted _ _ _ _ _ _ _ Hrun)
      as (before & old & after & client & _ & Hsplit & _ & _ & _ & -> & ->).
    simpl. rewrite Hsplit, !map_app. simpl.
    unfold updatedInvoice. rewrite Hplain. simpl. auto.
  - replace db' with db; [auto|].
    revert Hrun. unfold invoiceRouter_put. branches; congruence.
Qed.

Lemma post_payment_keys (db : Db num) (user : AuthUser) (id : Id)
  (body : PaymentBody num) (uuid : Id) (now : Time) :
  let db' := snd (invoiceRouter_post_payments db user id body uuid now) in
  map inv_id (invoices db') = map inv_id (invoices db) /\
  map inv_userId (invoices db') = map inv_userId (invoices db) /\
  map inv_invoice_number (invoices db')
  = map inv_invoice_number (invoices db) /\
  (payments db' = payments db \/
   exists newPayment invoice,
     payments db' = payments db ++ [newPayment] /\
     pay_invoiceId newPayment = id /\
     In invoice (invoices db) /\ inv_id invoice = id).
Proof.
  destruct (paymentValidationRules body) eqn:Hvalid.
  - destruct (find (owns_invoice id user) (invoices db)) as [invoice|]
      eqn:Hfind.
    + destruct (post_payments_effect db user id body uuid now invoice
                  Hvalid Hfind)
        as (p & before & after & Hrun & Hsplit & _ & Hid & _ & _).
      rewrite Hrun. simpl. rewrite Hsplit, !map_app. simpl.
      repeat split. right. exists p, invoice.
      split; [reflexivity|]. split; [exact Hid|].
      apply find_some in Hfind. destruct Hfind as [Hin Hown].
      rewrite <- Hsplit. split; [exact Hin|].
      unfold owns_invoice in Hown. apply andb_true_iff in Hown.
      apply String.eqb_eq. tauto.
    + unfold invoiceRouter_post_payments. rewrite Hvalid, Hfind. simpl. auto.
  - unfold invoiceRouter_post_payments. rewrite Hvalid. simpl. auto.
Qed.

(** The invariant behind the numbering: the invoice at index [i] carries
    the number that is drawn when [i] invoices are stored. *)
Lemma run_numbered (requests : list (Request num)) :
  Forall plain requests ->
  forallb (fun r => negb (deletesInvoice r)) requests = true ->
  forall i n,
    nth_error (map inv_invoice_number (invoices (run requests))) i = Some n ->
    exists (db0 : Db num) year,
      List.length (invoices db0) = i /\ n = generateInvoiceNumber db0 year.
Proof.
  unfold run. induction requests as [|r rs IH] using rev_ind.
  - intros _ _ i n. simpl. destruct i; discriminate.
  - intros Hplain Hkeep. rewrite fold_left_app. simpl.
    apply Forall_app in Hplain. destruct Hplain as [Hrs Hr].
    inversion Hr as [|? ? Hr' _]; subst.
    rewrite forallb_app in Hkeep. apply andb_true_iff in Hkeep.
    destruct Hkeep as [Hkrs Hkr]. simpl in Hkr.
    specialize (IH Hrs Hkrs).
    set (db := fold_left serve rs emptyDb) in *.
    pose proof (serve_invoices db r) as Hsame.
    destruct r; simpl in Hkr; try discriminate;
      try (rewrite Hsame; exact IH).
    + simpl in Hr'. simpl.
      destruct (post_invoice_invoices db user body uuid year now Hr')
        as [->|(inv & -> & _ & _ & Hnum)]; [exact IH|].
      intros i n. rewrite map_app. simpl.
      destruct (Nat.lt_ge_cases i (List.length (invoices db))) as [Hlt|Hge].
      * rewrite nth_error_app1 by (rewrite length_map; exact Hlt). apply IH.
      * rewrite nth_error_app2 by (rewrite length_map; exact Hge).
        rewrite length_map.
        destruct (i - List.length (invoices db))%nat as [|k] eqn:Hk; simpl.
        -- intros [= <-]. exists db, year. split; [lia|exact Hnum].
        -- destruct k; discriminate.
    + simpl in Hr'. simpl.
      destruct (put_invoice_keys db user id body now Hr') as (_ & _ & ->).
      exact IH.
    + simpl.
      destruct (post_payment_keys db user id body uuid now)
        as (_ & _ & -> & _).
      exact IH.
Qed.

(** X17. As long as no invoice is deleted and no body names an invoice
    number of its own, the invoices of the store carry different
    numbers. *)
Theorem invoice_numbers_unique_without_delete
  (requests : list (Request num)) :
  Forall plain requests ->
  forallb (fun r => negb (deletesInvoice r)) requests = true ->
  NoDup (map inv_invoice_number (invoices (run requests))).
Proof.
  intros Hplain Hkeep.
  pose proof (run_numbered requests Hplain Hkeep) as Hnum.
  apply NoDup_nth_error. intros i j Hi Heq.
  destruct (nth_error (map inv_invoice_number (invoices (run requests))) i)
    as [n|] eqn:Hn; [|apply nth_error_None in Hn; lia].
  destruct (Hnum i n Hn) as (dbi & yi & Hleni & Hgi).
  destruct (Hnum j n (eq_sym Heq)) as (dbj & yj & Hlenj & Hgj).
  rewrite Hgi in Hgj. unfold generateInvoiceNumber in Hgj.
  apply number_text_injective in Hgj. lia.
Qed.

(** X18. Every payment of the store is a payment of an invoice of the
    store. *)
Theorem no_payment_without_invoice (requests : list (Request num)) :
  Forall plain requests ->
  forall p, In p (payments (run requests)) ->
    exists invoice,
      In invoice (invoices (run requests)) /\
      inv_id invoice = pay_invoiceId p.
Proof.
  unfold run. induction requests as [|r rs IH] using rev_ind.
  - intros _ p [].
  - intros Hplain. rewrite fold_left_app. simpl.
    apply Forall_app in Hplain. destruct Hplain as [Hrs Hr].
    inversion Hr as [|? ? Hr' _]; subst.
    specialize (IH Hrs).
    set (db := fold_left serve rs emptyDb) in *.
    assert (Hids : forall db' : Db num,
               map inv_id (invoices db') = map inv_id (invoices db) ->
               forall p, In p (payments db) ->
                 exists invoice,
                   In invoice (invoices db') /\
                   inv_id invoice = pay_invoiceId p).
    { intros db' Hmap p Hp. destruct (IH p Hp) as (inv & Hin & Hid).
      assert (Hx : In (pay_invoiceId p) (map inv_id (invoices db'))).
      { rewrite Hmap, <- Hid. apply in_map. exact Hin. }
      apply in_map_iff in Hx. destruct Hx as (inv' & Hid' & Hin').
      exists inv'. split; assumption. }
    pose proof (serve_invoices db r) as Hinv.
    pose proof (serve_payments db r) as Hpay.
    destruct r; try (rewrite Hinv, Hpay; exact IH).
    + cbn [serve plain] in *. rewrite Hpay.
      destruct (post_invoice_invoices db user body uuid year now Hr')
        as [->|(inv & -> & _)]; [exact IH|].
      intros p Hp. destruct (IH p Hp) as (i & Hin & Hid).
      exists i. split; [apply in_or_app; left; exact Hin|exact Hid].
    + cbn [serve plain] in *. rewrite Hpay.
      destruct (put_invoice_keys db user id body now Hr') as (Hmap & _).
      apply Hids. exact Hmap.
    + cbn [serve]. unfold invoiceRouter_delete. simpl.
      destruct (Nat.eqb _ _) eqn:Heqb; simpl.
      * intros p Hp. destruct (IH p Hp) as (inv & Hin & Hid).
        exists inv. split; [|exact Hid].
        (* the store is unchanged when nothing was removed *)
        apply filter_In. split; [exact Hin|].
        destruct (owns_invoice id user inv) eqn:Hown; [|reflexivity].
        exfalso. revert Heqb. clear - Hin Hown.
        intros Hlen. apply Nat.eqb_eq in Hlen.
        pose proof (filter_length_lt
                      (fun inv => negb (owns_invoice id user inv))
                      (invoices db) inv Hin) as Hlt.
        cbn beta in Hlt. rewrite Hown in Hlt. specialize (Hlt eq_refl). lia.
      * intros p Hp. apply filter_In in Hp. destruct Hp as [Hp Hne].
        destruct (IH p Hp) as (inv & Hin & Hid).
        exists inv. split; [|exact Hid].
        apply filter_In. split; [exact Hin|].
        unfold owns_invoice. rewrite Hid.
        apply negb_true_iff in Hne. rewrite Hne. reflexivity.
    + cbn [serve].
      destruct (post_payment_keys db user id body uuid now)
        as (Hmap & _ & _ & [->|(q & inv & -> & Hq & Hin & Hid)]).
      * apply Hids. exact Hmap.
      * intros p Hp. apply in_app_or in Hp. destruct Hp as [Hp|[<-|[]]].
        -- apply Hids; assumption.
        -- assert (Hx : In id (map inv_id
                 (invoices (snd (invoiceRouter_post_payments db user id body
                                   uuid now))))).
           { rewrite Hmap, <- Hid. apply in_map. exact Hin. }
           apply in_map_iff in Hx. destruct Hx as (inv' & Hid' & Hin').
           exists inv'. split; [exact Hin'|]. rewrite Hq. exact Hid'.
Qed.

End Histories.

Section Objects.

Context {A : Type}.

(** Reading a key after writing it, and after writing another one. *)
Lemma property_setProperty (key key' : Id) (v : A) (o : list (Id * A)) :
  property key' (setProperty key v o)
  = if String.eqb key key' then Some v else property key' o.
Proof.
  induction o as [|[k w] o IH]; simpl.
  - reflexivity.
  - destruct (String.eqb_spec k key) as [->|Hk]; simpl.
    + destruct (String.eqb key key'); reflexivity.
    + rewrite IH. destruct (String.eqb_spec k key') as [->|Hk'].
      * destruct (String.eqb_spec key key'); [congruence|reflexivity].
      * reflexivity.
Qed.

End Objects.

Section Accounts.

Context {num : Type} `{JsNumber num} `{Platform}.



(** Filtering keeps the keys of an array different. *)
Lemma filter_keeps_keys_different {A K : Type} (keep : A -> bool)
  (key : A -> K) (l : list A) :
  NoDup (map key l) -> NoDup (map key (List.filter keep l)).
Proof.
  induction l as [|x l IH]; simpl; [auto|].
  intros Hnd. inversion Hnd as [|? ? Hx Hl]; subst.
  destruct (keep x); simpl; [|auto].
  constructor; [|auto].
  intros Hin. apply Hx. apply in_map_iff in Hin.
  destruct Hin as (y & Hy & Hyin). apply filter_In in Hyin.
  rewrite <- Hy. apply in_map. tauto.
Qed.

(** X20. As long as no client is updated, a user has no two clients with
    the same email. *)
Theorem client_emails_unique_without_update
  (requests : list (Request num)) :
  forallb (fun r => negb (updatesClient r)) requests = true ->
  NoDup (map (fun c => (cl_userId c, cl_email c))
             (clients (run requests))).
Proof.
  unfold run. induction requests as [|r rs IH] using rev_ind; simpl.
  - intros _. constructor.
  - intros Hkeep. rewrite fold_left_app. simpl.
    rewrite forallb_app in Hkeep. apply andb_true_iff in Hkeep.
    destruct Hkeep as [Hkrs Hkr]. simpl in Hkr.
    specialize (IH Hkrs).
    set (db := fold_left serve rs emptyDb) in *.
    pose proof (serve_clients db r) as Hsame.
    destruct r; simpl in Hkr; try discriminate;
      try (rewrite Hsame; exact IH); cbn [serve].
    + unfold clientRouter_post.
      destruct (clientValidationRules body); simpl; [|exact IH].
      destruct (find _ (clients db)) eqn:Hfind; simpl; [exact IH|].
      rewrite map_app. simpl.
      apply NoDup_app; [exact IH|repeat constructor; intros []|].
      intros e He [<-|[]]. apply in_map_iff in He.
      destruct He as (c & [= Hcu Hce] & Hc).
      pose proof (proj1 (find_none_forall _ _) Hfind c Hc) as Hno.
      simpl in Hno. rewrite Hcu, Hce, !String.eqb_refl in Hno.
      discriminate.
    + unfold clientRouter_delete. simpl.
      destruct (Nat.eqb _ _); simpl; apply filter_keeps_keys_different; exact IH.
Qed.

End Accounts.

(** ** The list routes *)

Section Pagination.

Context {A : Type}.

Lemma slice_length (l : list A) (start end_ : ParsedInt) :
  Z.of_nat (List.length (slice l start end_))
  = Z.max 0
      (Z.min (sliceIndex (Z.of_nat (List.length l)) end_
              - sliceIndex (Z.of_nat (List.length l)) start)
             (Z.of_nat (List.length l)
              - Z.max 0 (sliceIndex (Z.of_nat (List.length l)) start))).
Proof.
  unfold slice. rewrite length_firstn, length_skipn. lia.
Qed.

Lemma slice_In (l : list A) (start end_ : ParsedInt) (x : A) :
  In x (slice l start end_) -> In x l.
Proof.
  unfold slice. intros Hx.
  set (k := Z.to_nat (sliceIndex (Z.of_nat (List.length l)) start)) in *.
  rewrite <- (firstn_skipn k l). apply in_or_app. right.
  set (c := Z.to_nat _) in Hx.
  rewrite <- (firstn_skipn c (skipn k l)). apply in_or_app. left. exact Hx.
Qed.

(** The page of a positive page number [k] under a positive limit [L]:
    the items from [(k - 1) * L] up to [k * L]. *)
Lemma page_data (l : list A) (k L : Z) :
  0 < L -> 1 <= k ->
  slice l (mul_int (pred_int (Finite k)) (Finite L))
          (mul_int (Finite k) (Finite L))
  = firstn (Z.to_nat (Z.min (k * L) (Z.of_nat (List.length l))
                      - Z.min ((k - 1) * L) (Z.of_nat (List.length l))))
      (skipn (Z.to_nat (Z.min ((k - 1) * L) (Z.of_nat (List.length l)))) l).
Proof.
  intros HL Hk. unfold slice. simpl.
  destruct (Z.ltb_spec ((k - 1) * L) 0) as [Hneg|_]; [nia|].
  destruct (Z.ltb_spec (k * L) 0) as [Hneg|_]; [nia|].
  reflexivity.
Qed.

Lemma firstn_chain (l : list A) (a b : nat) :
  (a <= b)%nat ->
  firstn a l ++ firstn (b - a) (skipn a l) = firstn b l.
Proof.
  revert a b. induction l as [|x l IH]; intros a b Hab.
  - rewrite skipn_nil, !firstn_nil. reflexivity.
  - destruct a as [|a]; simpl.
    + rewrite Nat.sub_0_r. reflexivity.
    + destruct b as [|b]; [lia|]. simpl. f_equal. apply IH. lia.
Qed.

(** The pages from 1 to [m] make up the first [m * L] items. *)
Lemma pages_up_to (l : list A) (L : Z) (m : nat) :
  0 < L ->
  List.concat
    (map (fun k =>
            slice l (mul_int (pred_int (Finite (Z.of_nat k))) (Finite L))
                    (mul_int (Finite (Z.of_nat k)) (Finite L)))
         (seq 1 m))
  = firstn (Z.to_nat (Z.min (Z.of_nat m * L) (Z.of_nat (List.length l)))) l.
Proof.
  intros HL. induction m as [|m IH].
  - simpl. rewrite Z.min_l by lia. reflexivity.
  - rewrite seq_S, map_app, concat_app, IH.
    cbn [map List.concat]. rewrite app_nil_r.
    rewrite page_data by lia.
    replace (Z.of_nat (1 + m) - 1) with (Z.of_nat m) by lia.
    set (n := Z.of_nat (List.length l)).
    replace (Z.to_nat (Z.min (Z.of_nat (1 + m) * L) n
                       - Z.min (Z.of_nat m * L) n))
      with (Z.to_nat (Z.min (Z.of_nat (1 + m) * L) n)
            - Z.to_nat (Z.min (Z.of_nat m * L) n))%nat by nia.
    replace (Z.of_nat (S m)) with (Z.of_nat (1 + m)) by lia.
    apply firstn_chain. nia.
Qed.

(** X21. A page holds at most [limit] items, whatever the page number. *)
Theorem page_size_bounded (l : list A) (page limit_ : option ParsedInt)
  (L : Z) :
  limit (paginate l page limit_) = Finite L ->
  0 < L ->
  Z.of_nat (List.length (data (paginate l page limit_))) <= L.
Proof.
  unfold paginate. simpl. intros -> HL. rewrite slice_length.
  set (n := Z.of_nat (List.length l)).
  assert (Hn : 0 <= n) by (unfold n; lia).
  destruct (orElse page (Finite 1)) as [|p|[]]; simpl; try lia.
  replace (p * L) with ((p - 1) * L + L) by lia.
  destruct (Z.ltb_spec ((p - 1) * L) 0), (Z.ltb_spec ((p - 1) * L + L) 0);
    lia.
Qed.

(** X22. Under a positive limit the pages from 1 to [totalPages], one
    after the other, are the array; each of them holds an item and every
    later page is empty. *)
Theorem pages_tile (l : list A) (limit_ : option ParsedInt) (L : Z) :
  limit (paginate l None limit_) = Finite L ->
  0 < L ->
  let page k := paginate l (Some (Finite (Z.of_nat k))) limit_ in
  exists m : nat,
    (forall p, totalPages (paginate l p limit_) = Some (Z.of_nat m)) /\
    List.concat (map (fun k => data (page k)) (seq 1 m)) = l /\
    (forall k, (1 <= k <= m)%nat -> data (page k) <> []) /\
    (forall k, (m < k)%nat -> data (page k) = []).
Proof.
  unfold paginate. cbn [limit data totalPages orElse]. intros -> HL.
  set (n := Z.of_nat (List.length l)).
  assert (Hn : 0 <= n) by (unfold n; lia).
  pose proof (Z.div_mod (- n) L ltac:(lia)) as Hdiv.
  pose proof (Z.mod_pos_bound (- n) L HL) as Hmod.
  set (T := - (- n / L)) in *.
  assert (HT : 0 <= T) by nia.
  exists (Z.to_nat T). split; [|split; [|split]].
  - intros p. unfold ceil_div. destruct (Z.eqb_spec L 0); [lia|].
    f_equal. fold n. fold T. lia.
  - rewrite pages_up_to by exact HL. fold n.
    rewrite Z.min_r by nia. unfold n. rewrite Nat2Z.id.
    apply firstn_all.
  - intros k Hk Hempty.
    apply (f_equal (fun x => Z.of_nat (List.length x))) in Hempty.
    rewrite slice_length in Hempty. fold n in Hempty. simpl in Hempty.
    destruct (Z.ltb_spec ((Z.of_nat k - 1) * L) 0) as [Hneg|_]; [nia|].
    destruct (Z.ltb_spec (Z.of_nat k * L) 0) as [Hneg|_]; [nia|].
    nia.
  - intros k Hk. apply length_zero_iff_nil. apply Nat2Z.inj.
    rewrite slice_length. fold n. simpl.
    destruct (Z.ltb_spec ((Z.of_nat k - 1) * L) 0) as [Hneg|_]; [nia|].
    destruct (Z.ltb_spec (Z.of_nat k * L) 0) as [Hneg|_]; [nia|].
    nia.
Qed.

(** X23. A limit that is not a number, or zero, empties every page and
    leaves no page count; a negative limit [-L] makes the first page hold
    all but the last [L] items. *)
Theorem degenerate_limits (l : list A) (page : option ParsedInt) :
  (forall limit_,
      limit_ = NaNInt \/ limit_ = Finite 0 ->
      data (paginate l page (Some limit_)) = [] /\
      totalPages (paginate l page (Some limit_)) = None) /\
  (forall L,
      0 < L ->
      data (paginate l None (Some (Finite (- L))))
      = firstn (List.length l - Z.to_nat L) l /\
      totalPages (paginate l None (Some (Finite (- L))))
      = Some (- (Z.of_nat (List.length l) / L))).
Proof.
  split.
  - intros limit_ [->| ->]; unfold paginate; simpl.
    + split; [|reflexivity].
      destruct (orElse page (Finite 1)) as [|p|[]]; reflexivity.
    + split; [|reflexivity].
      apply length_zero_iff_nil. apply Nat2Z.inj. rewrite slice_length.
      destruct (orElse page (Finite 1)) as [|p|[]]; simpl;
        rewrite ?Z.mul_0_r; simpl; lia.
  - intros L HL. unfold paginate, slice.
    cbn [data totalPages orElse mul_int pred_int sliceIndex ceil_div].
    change (1 - 1) with 0. rewrite Z.mul_0_l, Z.mul_1_l.
    destruct (Z.ltb_spec (- L) 0) as [_|Hge]; [|lia].
    destruct (Z.eqb_spec (- L) 0); [lia|].
    change (0 <? 0) with false. cbn iota. split.
    + rewrite Z.min_l by lia. cbn [Z.to_nat skipn]. f_equal. lia.
    + f_equal. f_equal. apply Z.div_opp_opp. lia.
Qed.

End Pagination.

Section ClientList.

Context {num : Type} `{JsNumber num} `{Platform}.

(** X24. The client list shows clients of the caller only, and under a
    search only those whose name or email holds the term; [totalItems]
    counts all of them, whatever the page. *)
Theorem listed_clients_belong_to_caller (db : Db num) (user : AuthUser)
  (search : option string) (page limit_ : option ParsedInt) :
  let reply := clientRouter_list db user search page limit_ in
  (forall c, In c (data reply) ->
     In c (clients db) /\ cl_userId c = au_id user /\
     forall s, search = Some s -> s <> "" ->
       clientMatches (toLowerCase s) c = true) /\
  totalItems reply
  = List.length
      (List.filter
         (fun c => String.eqb (cl_userId c) (au_id user)
                   && match search with
                      | Some s =>
                          negb (truthyString s)
                          || clientMatches (toLowerCase s) c
                      | None => true
                      end)
         (clients db)).
Proof.
  assert (Hand : forall (p q : Client -> bool) l,
             List.filter q (List.filter p l)
             = List.filter (fun c => p c && q c) l).
  { intros p q l. induction l as [|x l IH]; simpl; [reflexivity|].
    destruct (p x); simpl; [destruct (q x); simpl; congruence|exact IH]. }
  unfold clientRouter_list, paginate. simpl. split.
  - intros c Hc. apply slice_In in Hc.
    destruct search as [s|].
    + unfold truthyString in Hc.
      destruct (String.eqb_spec s "") as [->|Hs]; simpl in Hc.
      * apply filter_In in Hc. destruct Hc as [Hc Hu].
        split; [exact Hc|]. split; [apply String.eqb_eq; exact Hu|].
        intros s' [= <-] Hs'. contradiction.
      * apply filter_In in Hc. destruct Hc as [Hc Hm].
        apply filter_In in Hc. destruct Hc as [Hc Hu].
        split; [exact Hc|]. split; [apply String.eqb_eq; exact Hu|].
        intros s' [= <-] _. exact Hm.
    + apply filter_In in Hc. destruct Hc as [Hc Hu].
      split; [exact Hc|]. split; [apply String.eqb_eq; exact Hu|].
      intros s' [=].
  - destruct search as [s|].
    + destruct (truthyString s); simpl.
      * rewrite Hand. reflexivity.
      * f_equal. apply filter_ext. intros c. rewrite andb_true_r.
        reflexivity.
    + f_equal. apply filter_ext. intros c. rewrite andb_true_r.
      reflexivity.
Qed.

End ClientList.

Section Sorting.

Context {num : Type} `{JsNumber num}.

(** [sort] orders an array by any relation that is transitive and that
    the sign of [compare] decides. *)
Lemma sort_sorted {A : Type} (compare : A -> A -> num) (R : A -> A -> Prop)
  (l : list A) :
  (forall x y z, R x y -> R y z -> R x z) ->
  (forall x y, gtb (compare x y) (of_Z 0) = true -> R y x) ->
  (forall x y, gtb (compare x y) (of_Z 0) = false -> R x y) ->
  StronglySorted R (sort compare l).
Proof.
  intros Htrans Hafter Hbefore.
  assert (Hins : forall x l, StronglySorted R l ->
                   StronglySorted R (insertSorted compare x l)).
  { intros x l0 Hsorted.
    induction Hsorted as [|y l' Hl IH Hy]; simpl.
    - constructor; constructor.
    - destruct (gtb (compare x y) (of_Z 0)) eqn:Hcmp.
      + constructor; [exact IH|].
        apply Forall_forall. intros z Hz.
        apply (Permutation_in _ (Permutation_sym (insertSorted_perm _ x l')))
          in Hz.
        destruct Hz as [<-|Hz]; [apply Hafter; exact Hcmp|].
        rewrite Forall_forall in Hy. apply Hy. exact Hz.
      + constructor; [constructor; assumption|].
        constructor; [apply Hbefore; exact Hcmp|].
        apply Forall_forall. intros z Hz. rewrite Forall_forall in Hy.
        apply (Htrans _ y); [apply Hbefore; exact Hcmp|apply Hy; exact Hz]. }
  induction l as [|x l IH]; simpl; [constructor|].
  apply Hins. exact IH.
Qed.

Lemma StronglySorted_skipn {A : Type} (R : A -> A -> Prop) (n : nat)
  (l : list A) :
  StronglySorted R l -> StronglySorted R (skipn n l).
Proof.
  revert l. induction n as [|n IH]; intros l Hl; [exact Hl|].
  destruct l as [|x l]; [exact Hl|]. simpl. apply IH.
  inversion Hl; assumption.
Qed.

Lemma StronglySorted_firstn {A : Type} (R : A -> A -> Prop) (n : nat)
  (l : list A) :
  StronglySorted R l -> StronglySorted R (firstn n l).
Proof.
  revert l. induction n as [|n IH]; intros l Hl; [constructor|].
  destruct l as [|x l]; [constructor|]. simpl.
  inversion Hl as [|? ? Hl' Hx]; subst. constructor; [apply IH; exact Hl'|].
  apply Forall_forall. intros y Hy. rewrite Forall_forall in Hx. apply Hx.
  rewrite <- (firstn_skipn n l). apply in_or_app. left. exact Hy.
Qed.

End Sorting.

Section InvoiceList.

Context {num : Type} `{JsNumber num} `{Platform}.

(** X25. Every page of the invoice list is in descending order of invoice
    date, and shows invoices of the caller only, each with the name and
    the email of its client as they are now, and under a status filter
    only those of that status. *)
Theorem invoice_list_sorted `{!IntegerSigns num} (db : Db num)
  (user : AuthUser) (search status : option string)
  (page limit_ : option ParsedInt) :
  let reply := invoiceRouter_list db user search status page limit_ in
  StronglySorted
    (fun a b => inv_invoice_date (listed b) <= inv_invoice_date (listed a))
    (data reply) /\
  forall e, In e (data reply) ->
    exists inv,
      In inv (invoices db) /\ inv_userId inv = au_id user /\
      e = listInvoice db user inv /\
      forall s, status = Some s -> s <> "" ->
        Status_name (inv_status inv) = s.
Proof.
  unfold invoiceRouter_list, paginate. cbn [data]. split.
  - unfold slice. apply StronglySorted_firstn, StronglySorted_skipn.
    apply sort_sorted.
    + intros x y z Hxy Hyz. lia.
    + intros x y. unfold byDate. rewrite of_Z_positive. lia.
    + intros x y. unfold byDate. rewrite of_Z_positive. lia.
  - intros e He. apply slice_In in He.
    apply (Permutation_in _ (Permutation_sym (sort_perm _ _))) in He.
    set (mine := map (listInvoice db user)
                   (List.filter
                      (fun inv => String.eqb (inv_userId inv) (au_id user))
                      (invoices db))) in *.
    set (searched := match search with
                     | Some s =>
                         if truthyString s
                         then List.filter (invoiceMatches (toLowerCase s)) mine
                         else mine
                     | None => mine
                     end) in *.
    assert (Hsearched : forall x, In x searched -> In x mine).
    { intros x. unfold searched. destruct search as [s|]; [|auto].
      destruct (truthyString s); [|auto]. intros Hx.
      apply filter_In in Hx. tauto. }
    assert (Hmine : In e mine /\
                    forall s, status = Some s -> s <> "" ->
                      Status_name (inv_status (listed e)) = s).
    { destruct status as [s|].
      - unfold truthyString in He.
        destruct (String.eqb_spec s "") as [->|Hs]; simpl in He.
        + split; [auto|]. intros s' [= <-] Hs'. contradiction.
        + apply filter_In in He. destruct He as [He Hst].
          split; [auto|]. intros s' [= <-] _.
          apply String.eqb_eq. exact Hst.
      - split; [auto|]. intros s' [=]. }
    destruct Hmine as [He' Hstatus].
    apply in_map_iff in He'. destruct He' as (inv & <- & Hinv).
    apply filter_In in Hinv. destruct Hinv as [Hinv Hu].
    exists inv. split; [exact Hinv|].
    split; [apply String.eqb_eq; exact Hu|]. split; [reflexivity|].
    exact Hstatus.
Qed.

End InvoiceList.

(** ** Sessions and accounts *)

Section Words.

(** A string without the separator is one word, and the words of a
    string start with the word before its first separator. *)
Lemma split_word (sep : ascii) (w : string) :
  ~ In sep (list_ascii_of_string w) -> split sep w = [w].
Proof.
  induction w as [|c w IH]; simpl; [reflexivity|].
  intros Hno. destruct (Ascii.eqb_spec c sep) as [->|_].
  - exfalso. apply Hno. left. reflexivity.
  - rewrite IH; [reflexivity|]. intros Hin. apply Hno. right. exact Hin.
Qed.

Lemma split_first (sep : ascii) (w rest : string) :
  ~ In sep (list_ascii_of_string w) ->
  split sep (w ++ String sep rest) = w :: split sep rest.
Proof.
  induction w as [|c w IH]; simpl.
  - intros _. rewrite Ascii.eqb_refl. reflexivity.
  - intros Hno. destruct (Ascii.eqb_spec c sep) as [->|_].
    + exfalso. apply Hno. left. reflexivity.
    + rewrite IH; [reflexivity|]. intros Hin. apply Hno. right. exact Hin.
Qed.

End Words.

Section Sessions.

Context {num : Type} `{JsNumber num} `{Platform}.

(** X26. The token is the second word of the header, whatever the first
    word is and whatever follows the second; a header of one word, or no
    header, is answered 401. *)
Theorem token_is_second_word (scheme t rest : string) (now : Time) :
  ~ In " "%char (list_ascii_of_string scheme) ->
  ~ In " "%char (list_ascii_of_string t) ->
  let verified :=
    match jwt_verify t now with
    | None => Failure 403 "Invalid or expired token."
    | Some user => Reply 200 user
    end in
  authenticateToken (Some (scheme ++ " " ++ t)%string) now = verified /\
  authenticateToken (Some (scheme ++ " " ++ t ++ " " ++ rest)%string) now
  = verified /\
  (scheme <> "" ->
   authenticateToken (Some scheme) now
   = Failure 401 "Authentication token required.") /\
  authenticateToken None now = Failure 401 "Authentication token required.".
Proof.
  intros Hscheme Ht verified.
  assert (Htruthy : forall x,
             truthyString (scheme ++ " " ++ x)%string = true).
  { intros x. destruct scheme; reflexivity. }
  unfold authenticateToken, verified. repeat split.
  - rewrite Htruthy. change (scheme ++ " " ++ t)%string
      with (scheme ++ String " " t)%string.
    rewrite (split_first _ _ _ Hscheme), (split_word _ _ Ht). reflexivity.
  - rewrite Htruthy. change (scheme ++ " " ++ t ++ " " ++ rest)%string
      with (scheme ++ String " " (t ++ String " " rest))%string.
    rewrite (split_first _ _ _ Hscheme), (split_first _ _ _ Ht). reflexivity.
  - intros Hne. unfold truthyString.
    destruct (String.eqb_spec scheme "") as [Heq|_]; [contradiction|].
    simpl. rewrite (split_word _ _ Hscheme). reflexivity.
Qed.

(** X27. An account that has just been registered logs in with its
    password and is told apart from no other failure when the password is
    wrong. *)
Theorem registered_user_logs_in (db db' : Db num) (body : RegisterBody)
  (uuid : Id) (salt : string) (now later : Time) (message : string) :
  authRouter_post_register db body uuid salt now = (Reply 201 message, db') ->
  isLength_min 6 "" = false ->
  let account :=
    {| au_id := uuid; au_email := normalizeEmail (rb_email body);
       au_name := trim (rb_name body); au_roles := ["user"] |} in
  (bcrypt_compare (rb_password body)
     (bcrypt_hash (rb_password body) salt) = true ->
   authRouter_post_login db'
     {| lb_email := rb_email body; lb_password := rb_password body |} later
   = Reply 200 {| token := jwt_sign account later; login_user := account |}) /\
  (forall password,
     bcrypt_compare password (bcrypt_hash (rb_password body) salt) = false ->
     authRouter_post_login db'
       {| lb_email := rb_email body; lb_password := password |} later
     = if truthyString password
       then Failure 401 "Invalid email or password."
       else Failure 400 "validation errors").
Proof.
  unfold authRouter_post_register.
  destruct (registerValidation body) eqn:Hvalid; simpl; [|discriminate].
  destruct (find _ (users db)) eqn:Hfind; [discriminate|].
  intros [= _ <-] Hempty.
  unfold registerValidation in Hvalid.
  apply andb_true_iff in Hvalid. destruct Hvalid as [Hvalid Hlen].
  apply andb_true_iff in Hvalid. destruct Hvalid as [_ Hemail].
  assert (Hpw : truthyString (rb_password body) = true).
  { unfold truthyString.
    destruct (String.eqb_spec (rb_password body) "") as [Heq|_];
      [|reflexivity].
    rewrite Heq, Hempty in Hlen. discriminate. }
  unfold authRouter_post_login, loginValidation. simpl.
  rewrite Hemail, (find_app_none _ _ _ Hfind). simpl.
  rewrite String.eqb_refl. split.
  - intros Hmatch. cbn [user_passwordHash]. rewrite Hpw, Hmatch. reflexivity.
  - intros password Hwrong. cbn [user_passwordHash]. rewrite Hwrong.
    destruct (truthyString password); reflexivity.
Qed.

(** X28. A new account has the settings that every account starts with,
    and reading them does not change the store. *)
Theorem registered_user_has_settings (db db' : Db num) (body : RegisterBody)
  (uuid : Id) (salt : string) (now : Time) (message : string)
  (user : AuthUser) :
  authRouter_post_register db body uuid salt now = (Reply 201 message, db') ->
  au_id user = uuid ->
  userRouter_get_settings db' user
  = (Reply 200 (initialSettings (trim (rb_name body))), db').
Proof.
  unfold authRouter_post_register.
  destruct (registerValidation body); simpl; [|discriminate].
  destruct (find _ (users db)); [discriminate|].
  intros [= _ <-] Hid. unfold userRouter_get_settings. simpl.
  rewrite Hid, property_setProperty, String.eqb_refl. reflexivity.
Qed.

(** X29. Reading the settings always answers with settings; what it
    answers is then stored under the caller's id, a second read answers
    the same and changes nothing, and the settings of other users are not
    touched. *)
Theorem settings_are_initialised_once (db : Db num) (user : AuthUser) :
  exists userSettings db',
    userRouter_get_settings db user = (Reply 200 userSettings, db') /\
    property (au_id user) (settings db') = Some userSettings /\
    userRouter_get_settings db' user = (Reply 200 userSettings, db') /\
    (property (au_id user) (settings db) = None ->
     userSettings = initialSettings (au_name user)) /\
    (forall key, key <> au_id user ->
       property key (settings db') = property key (settings db)) /\
    users db' = users db /\ clients db' = clients db /\
    invoices db' = invoices db /\ payments db' = payments db.
Proof.
  unfold userRouter_get_settings.
  destruct (property (au_id user) (settings db)) as [s|] eqn:Hs.
  - exists s, db. rewrite Hs. repeat split; try reflexivity.
    intros [=].
  - eexists _, _. split; [reflexivity|]. simpl.
    rewrite property_setProperty, String.eqb_refl.
    repeat split; try reflexivity.
    intros key Hkey. rewrite property_setProperty.
    destruct (String.eqb_spec (au_id user) key); [congruence|reflexivity].
Qed.

(** X30. The token of a login opens the session of the account that
    logged in. *)
Theorem login_token_opens_session (db : Db num) (body : LoginBody)
  (now later : Time) (reply : LoginReply) :
  authRouter_post_login db body now = Reply 200 reply ->
  NoDup (map user_id (users db)) ->
  ~ In " "%char (list_ascii_of_string (token reply)) ->
  jwt_verify (token reply) later = Some (login_user reply) ->
  let authorization := Some ("Bearer " ++ token reply)%string in
  authenticateToken authorization later = Reply 200 (login_user reply) /\
  authRouter_get_status db authorization later
  = Reply 200 (login_user reply) /\
  authRouter_post_logout authorization later
  = Reply 200 "Logged out successfully.".
Proof.
  intros Hrun Hnodup Hspace Hverify authorization.
  unfold authRouter_post_login in Hrun.
  destruct (loginValidation body); simpl in Hrun; [|discriminate].
  destruct (find _ (users db)) as [user|] eqn:Hfind; [|discriminate].
  destruct (bcrypt_compare _ _); simpl in Hrun; [|discriminate].
  injection Hrun as <-. cbn [token login_user] in *.
  assert (Hauth : authenticateToken authorization later
                  = Reply 200 (tokenPayload user)).
  { unfold authorization, authenticateToken.
    change ("Bearer " ++ jwt_sign (tokenPayload user) now)%string
      with ("Bearer" ++ String " " (jwt_sign (tokenPayload user) now))%string.
    rewrite split_first, (split_word _ _ Hspace).
    - simpl. rewrite Hverify. reflexivity.
    - simpl. intros [Hc|[Hc|[Hc|[Hc|[Hc|[Hc|[]]]]]]]; discriminate. }
  unfold authRouter_get_status, authRouter_post_logout. rewrite Hauth.
  repeat split.
  apply find_some in Hfind. destruct Hfind as [Hin _].
  replace (find (fun u => String.eqb (user_id u)
                            (au_id (tokenPayload user))) (users db))
    with (Some user); [reflexivity|].
  symmetry. simpl. clear - Hin Hnodup.
  induction (users db) as [|u l IH]; simpl in *; [contradiction|].
  inversion Hnodup as [|? ? Hu Hl]; subst.
  destruct Hin as [->|Hin]; [rewrite String.eqb_refl; reflexivity|].
  destruct (String.eqb_spec (user_id u) (user_id user)) as [Heq|_].
  - exfalso. apply Hu. rewrite Heq. apply in_map. exact Hin.
  - apply IH; assumption.
Qed.

End Sessions.

(** ** The exact rationals obey the laws *)

Module ExactLaws.

Lemma ltb_lt (a b : Qc) : Exact.ltb a b = true <-> (a < b)%Qc.
Proof.
  unfold Exact.ltb. rewrite Qclt_alt.
  destruct (a ?= b)%Qc; split; congruence.
Qed.

Lemma leb_le (a b : Qc) : Exact.leb a b = true <-> (a <= b)%Qc.
Proof.
  unfold Exact.leb. rewrite Qcle_alt.
  destruct (a ?= b)%Qc; split; congruence.
Qed.

Lemma ltb_ge (a b : Qc) : Exact.ltb a b = false <-> (b <= a)%Qc.
Proof.
  rewrite <- not_true_iff_false, ltb_lt. split.
  - apply Qcnot_lt_le.
  - apply Qcle_not_lt.
Qed.

(** Turns comparisons of the interface into inequalities of [Q]. *)
Ltac to_Q :=
  unfold gtb, geb in *;
  simpl ltb in *; simpl leb in *; simpl add in *; simpl sub in *;
  simpl of_Z in *;
  rewrite ?ltb_lt, ?leb_le, ?ltb_ge in *;
  unfold Qclt, Qcle, Qcminus, Exact.of_Z in *; unfold Qcplus, Qcopp in *;
  unfold Q2Qc in *; cbn [this] in *;
  rewrite ?Qred_correct in *; change (inject_Z 0) with 0%Q in *.

Lemma hundredths_monotone (a b : Qc) :
  (0 <= a)%Q -> (a <= b)%Q -> Exact.hundredths a <= Exact.hundredths b.
Proof.
  intros Ha Hab. unfold Exact.hundredths. apply Qfloor_resp_le.
  rewrite (Qabs_pos a), (Qabs_pos b); lra.
Qed.

Lemma toFixed2_monotone_exact (a b : Qc) :
  leb (of_Z 0) a = true -> leb a b = true ->
  leb (toFixed2 a) (toFixed2 b) = true.
Proof.
  intros Ha Hab. simpl toFixed2. unfold Exact.toFixed2.
  replace (Exact.ltb a (Exact.of_Z 0)) with false
    by (symmetry; apply ltb_ge, leb_le; exact Ha).
  replace (Exact.ltb b (Exact.of_Z 0)) with false
    by (symmetry; apply ltb_ge; to_Q; lra).
  to_Q. pose proof (hundredths_monotone a b Ha Hab).
  unfold Qle. simpl. lia.
Qed.

#[global] Instance positive_sums : PositiveSums Qc.
Proof.
  split.
  - intros a Ha. to_Q. lra.
  - intros s a Hs Ha. to_Q. lra.
Qed.

#[global] Instance monotone_sums : MonotoneSums Qc.
Proof.
  split.
  - reflexivity.
  - intros a b c Hab Hbc. to_Q. lra.
  - intros o t b Ho Hot Hb. to_Q. lra.
  - intros t b Ht Hb. to_Q. lra.
  - exact toFixed2_monotone_exact.
Qed.

#[global] Instance subtraction_orders : SubtractionOrders Qc.
Proof.
  split.
  - intros a b _ _ Hsub. to_Q. lra.
  - intros a b _ _ Hsub. to_Q. lra.
  - intros a b c Hab Hbc. to_Q. lra.
Qed.

#[global] Instance exact_sums : ExactSums Qc.
Proof.
  split.
  - exact Qcplus_comm.
  - intros a b c. symmetry. apply Qcplus_assoc.
Qed.

(** Except for rates that are the number 0, the chain of [||] picks the
    rate that the specification names. *)
Lemma effective_rate_exact (r g : JsValue Qc) (item : Item Qc) :
  tax_rate item = r -> rate_given r -> rate_given g ->
  Number (jsOr (jsOr r g) (JNumber (of_Z 0)))
  = effective_tax_rate_spec item g.
Proof.
  intros Hr Hgr Hgg. unfold effective_tax_rate_spec. rewrite Hr.
  unfold jsOr, rate_given in *.
  destruct (toBoolean r) eqn:Er.
  - rewrite Er. destruct r; [discriminate Er|reflexivity|reflexivity].
  - rewrite (Hgr eq_refl) in *.
    destruct (toBoolean g) eqn:Eg; cbn iota.
    + rewrite ?Eg. destruct g; [discriminate Eg|reflexivity|reflexivity].
    + rewrite ?Eg. rewrite (Hgg eq_refl). reflexivity.
Qed.

Lemma addItem_exact (g : JsValue Qc) (t : Qc) (item : Item Qc) :
  rate_given (tax_rate item) -> rate_given g ->
  addItem g t item
  = add t (mul (mul (quantity item) (unit_price item))
             (add (of_Z 1)
                (div (effective_tax_rate_spec item g) (of_Z 100)))).
Proof.
  intros Hr Hg. unfold addItem.
  rewrite (effective_rate_exact (tax_rate item) g item eq_refl Hr Hg).
  simpl. change (Exact.of_Z 1) with 1%Qc. ring.
Qed.

(** On exact amounts, and when no rate is the number 0, the stored total
    is the formula of the specification, rounded once. *)
Lemma total_amount_formula_exact (its : list (Item Qc)) (g : JsValue Qc) :
  Forall (fun item => rate_given (tax_rate item)) its -> rate_given g ->
  total_amount its g = total_amount_spec its g.
Proof.
  intros Hits Hg. unfold total_amount, total_amount_spec, totalAmount.
  f_equal. generalize (of_Z 0 : Qc).
  induction Hits as [|item its Hitem _ IH]; intros t; cbn [fold_left];
    [reflexivity|].
  rewrite (addItem_exact g t item Hitem Hg). apply IH.
Qed.

#[global] Instance integer_signs : IntegerSigns Qc.
Proof.
  split. intros z. unfold gtb. simpl ltb. simpl of_Z.
  destruct (Z.ltb_spec 0 z) as [Hz|Hz].
  - apply ltb_lt. unfold Qclt, Exact.of_Z, Q2Qc. cbn [this].
    rewrite !Qred_correct. rewrite <- Zlt_Qlt. exact Hz.
  - apply ltb_ge. unfold Qcle, Exact.of_Z, Q2Qc. cbn [this].
    rewrite !Qred_correct. rewrite <- Zle_Qle. exact Hz.
Qed.

End ExactLaws.

(** ** Doubles obey the laws *)

(** From the specification of the primitive operations in the standard
    library ([add_spec], [sub_spec], [ltb_spec], [leb_spec], [abs_spec],
    [Prim2SF_valid], [Prim2SF_SF2Prim]): rounding never turns a number
    that is not zero into zero, never changes a sign, and is monotone. *)
Module Binary64Laws.

Import Binary64.

Lemma ltb_zero_positive (x : float) :
  PrimFloat.ltb zero x = positive_sf (Prim2SF x).
Proof.
  rewrite ltb_spec. change (Prim2SF zero) with (S754_zero false).
  destruct (Prim2SF x) as [s|s| |s m e]; try destruct s; reflexivity.
Qed.

Lemma shr_1_wide (n : nat) (mrs : shr_record) :
  wide (S n) mrs -> wide n (shr_1 mrs).
Proof.
  intros (m & Hm & Hd). destruct mrs as [mm r s]. simpl in Hm. subst mm.
  destruct m as [p|p|]; simpl in *.
  - exists p. split; [reflexivity|]. rewrite Pos2Nat.inj_succ in Hd. lia.
  - exists p. split; [reflexivity|]. rewrite Pos2Nat.inj_succ in Hd. lia.
  - change (Pos.to_nat 1) with 1%nat in Hd. lia.
Qed.

Lemma iter_shr_1_wide (p : positive) (n : nat) (mrs : shr_record) :
  wide (n + Pos.to_nat p) mrs -> wide n (iter_pos shr_1 p mrs).
Proof.
  revert n mrs. induction p as [p IH|p IH|]; intros n mrs Hw; simpl.
  - apply IH, IH, shr_1_wide.
    replace (S (n + Pos.to_nat p + Pos.to_nat p)) with (n + Pos.to_nat p~1)%nat; [exact Hw|].
    rewrite Pos2Nat.inj_xI. lia.
  - apply IH, IH.
    replace (n + Pos.to_nat p + Pos.to_nat p)%nat with (n + Pos.to_nat p~0)%nat; [exact Hw|].
    rewrite Pos2Nat.inj_xO. lia.
  - apply shr_1_wide. replace (S n) with (n + Pos.to_nat 1)%nat; [exact Hw|].
    change (Pos.to_nat 1) with 1%nat. lia.
Qed.

(** [shr_fexp] keeps a positive mantissa positive, from [emin64] up. *)
Lemma shr_fexp_positive (m : positive) (e : Z) (l : location) :
  emin64 <= e ->
  exists m', shr_m (fst (shr_fexp prec emax (Z.pos m) e l)) = Z.pos m'
             /\ emin64 <= snd (shr_fexp prec emax (Z.pos m) e l).
Proof.
  intros He. unfold shr_fexp, shr.
  set (n := fexp prec emax (Zdigits2 (Z.pos m) + e) - e).
  assert (Hrec : shr_m (shr_record_of_loc (Z.pos m) l) = Z.pos m).
  { destruct l as [|[]]; reflexivity. }
  destruct n as [|p|p] eqn:Hn; simpl fst; simpl snd.
  - exists m. auto.
  - destruct (iter_shr_1_wide p 0 (shr_record_of_loc (Z.pos m) l)) as (m' & Hm' & _).
    + exists m. split; [exact Hrec|]. simpl.
      unfold n, fexp in Hn. simpl Zdigits2 in Hn. unfold emin64 in He.
      assert (Z.pos p = Z.pos (digits2_pos m) - prec) by lia.
      unfold prec in *. lia.
    + exists m'. split; [exact Hm'|]. unfold emin64 in *. lia.
  - exists m. auto.
Qed.

Lemma round_nearest_even_positive (m : positive) (l : location) :
  exists m', round_nearest_even (Z.pos m) l = Z.pos m'.
Proof.
  destruct l as [|[]]; simpl; eauto.
  destruct m; simpl; eauto.
Qed.

Lemma binary_round_aux_positive (m : positive) (e : Z) (l : location) :
  emin64 <= e ->
  positive_sf (binary_round_aux prec emax false (Z.pos m) e l) = true.
Proof.
  intros He. unfold binary_round_aux.
  destruct (shr_fexp_positive m e l He) as (m1 & Hm1 & He1).
  destruct (shr_fexp prec emax (Z.pos m) e l) as [mrs1 e1]. simpl in Hm1, He1.
  rewrite Hm1.
  destruct (round_nearest_even_positive m1 (loc_of_shr_record mrs1)) as (m2 & ->).
  destruct (shr_fexp_positive m2 e1 loc_Exact He1) as (m3 & Hm3 & _).
  destruct (shr_fexp prec emax (Z.pos m2) e1 loc_Exact) as [mrs3 e3]. simpl in Hm3.
  rewrite Hm3.
  destruct (e3 <=? emax - prec); reflexivity.
Qed.

Lemma binary_round_positive (m : positive) (e : Z) :
  emin64 <= e ->
  positive_sf (binary_round prec emax false m e) = true.
Proof.
  intros He. unfold binary_round.
  destruct (shl_align m e (fexp prec emax (Z.pos (digits2_pos m) + e))) as [mz ez] eqn:Hal.
  apply binary_round_aux_positive.
  unfold shl_align in Hal.
  destruct (fexp prec emax (Z.pos (digits2_pos m) + e) - e) eqn:Hd;
    injection Hal as <- <-; try exact He.
  unfold fexp, emin64 in *. lia.
Qed.

Lemma valid_emin (s : bool) (m : positive) (e : Z) :
  valid_binary (S754_finite s m e) = true -> emin64 <= e.
Proof.
  simpl. unfold bounded, canonical_mantissa. intros H.
  apply andb_true_iff in H. destruct H as [H _].
  apply Z.eqb_eq in H. unfold fexp, emin64 in *. lia.
Qed.

Lemma SFadd_positive (x y : spec_float) :
  valid_binary x = true -> valid_binary y = true ->
  positive_sf x = true -> positive_sf y = true ->
  positive_sf (SFadd prec emax x y) = true.
Proof.
  intros Vx Vy Px Py.
  destruct x as [sx|sx| |sx mx ex]; try discriminate; destruct sx; try discriminate;
  destruct y as [sy|sy| |sy my ey]; try discriminate; destruct sy; try discriminate;
    try reflexivity.
  unfold SFadd. simpl cond_Zopp.
  apply valid_emin in Vx, Vy.
  change (Z.pos ?a + Z.pos ?b) with (Z.pos (a + b)).
  unfold binary_normalize. apply binary_round_positive.
  unfold emin64 in *. lia.
Qed.

Lemma float_add_positive (s a : float) :
  PrimFloat.ltb zero s = true -> PrimFloat.ltb zero a = true ->
  PrimFloat.ltb zero (PrimFloat.add s a) = true.
Proof.
  rewrite !ltb_zero_positive, add_spec.
  apply SFadd_positive; apply Prim2SF_valid.
Qed.

Lemma float_zero_add_positive (a : float) :
  PrimFloat.ltb zero a = true -> PrimFloat.ltb zero (PrimFloat.add zero a) = true.
Proof.
  rewrite !ltb_zero_positive, add_spec. change (Prim2SF zero) with (S754_zero false).
  destruct (Prim2SF a) as [s|s| |s m e]; try discriminate; destruct s; try discriminate; reflexivity.
Qed.

#[global] Instance positive_sums : PositiveSums float.
Proof.
  split.
  - exact float_zero_add_positive.
  - exact float_add_positive.
Qed.

Lemma digits2_pos_bounds (m : positive) :
  2 ^ (Z.pos (digits2_pos m) - 1) <= Z.pos m < 2 ^ Z.pos (digits2_pos m).
Proof.
  induction m as [m IH|m IH|]; simpl digits2_pos.
  - rewrite Pos2Z.inj_succ.
    replace (Z.succ (Z.pos (digits2_pos m)) - 1) with (Z.succ (Z.pos (digits2_pos m) - 1)) by lia.
    rewrite !Z.pow_succ_r by lia. lia.
  - rewrite Pos2Z.inj_succ.
    replace (Z.succ (Z.pos (digits2_pos m)) - 1) with (Z.succ (Z.pos (digits2_pos m) - 1)) by lia.
    rewrite !Z.pow_succ_r by lia. lia.
  - simpl. lia.
Qed.

Lemma iter_xO_pow (m d : positive) :
  Z.pos (Pos.iter xO m d) = Z.pos m * 2 ^ Z.pos d.
Proof.
  induction d as [|d IH] using Pos.peano_ind.
  - simpl. lia.
  - rewrite Pos.iter_succ, Pos2Z.inj_succ, Z.pow_succ_r by lia.
    rewrite Pos2Z.inj_xO, IH. lia.
Qed.

(** The mantissa once it is aligned on an exponent [e' <= e]. *)
Lemma shl_align_value (m : positive) (e e' : Z) :
  e' <= e -> Z.pos (fst (shl_align m e e')) = Z.pos m * 2 ^ (e - e').
Proof.
  intros Hle. unfold shl_align.
  destruct (e' - e) as [|d|d] eqn:Hd; simpl fst.
  - replace (e - e') with 0 by lia. simpl. lia.
  - lia.
  - rewrite iter_xO_pow. f_equal. f_equal. lia.
Qed.

(** A canonical mantissa has at most [prec] digits, and exactly [prec]
    above the smallest exponent. *)
Lemma canonical_digits (m : positive) (e : Z) :
  valid_binary (S754_finite false m e) = true ->
  emin64 <= e /\ Z.pos (digits2_pos m) <= prec /\
  (emin64 < e -> Z.pos (digits2_pos m) = prec).
Proof.
  simpl. unfold bounded, canonical_mantissa. intros H.
  apply andb_true_iff in H. destruct H as [H _].
  apply Z.eqb_eq in H. unfold fexp, emin64 in *. lia.
Qed.

Lemma pow_lt_mono (a b : Z) : 0 <= a -> a < b -> 2 ^ a < 2 ^ b.
Proof. intros. apply Z.pow_lt_mono_r; lia. Qed.

Lemma lt_of_smaller_exponent (ma mb : positive) (ea eb : Z) :
  valid_binary (S754_finite false ma ea) = true ->
  valid_binary (S754_finite false mb eb) = true ->
  ea < eb -> Z.pos ma < Z.pos mb * 2 ^ (eb - ea).
Proof.
  intros Va Vb Hlt.
  destruct (canonical_digits _ _ Va) as (Hea & Hda & _).
  destruct (canonical_digits _ _ Vb) as (Heb & _ & Hdb).
  specialize (Hdb ltac:(lia)).
  pose proof (digits2_pos_bounds ma) as [_ Hma].
  pose proof (digits2_pos_bounds mb) as [Hmb _].
  rewrite Hdb in Hmb.
  assert (2 ^ Z.pos (digits2_pos ma) <= 2 ^ prec) by (apply Z.pow_le_mono_r; lia).
  assert (2 ^ prec = 2 * 2 ^ (prec - 1)) by reflexivity.
  assert (2 ^ 1 <= 2 ^ (eb - ea)) by (apply Z.pow_le_mono_r; lia).
  change (2 ^ 1) with 2 in *. nia.
Qed.

(** Comparing two canonical positive doubles is comparing their mantissas
    once aligned on the smaller exponent. *)
Lemma SFcompare_aligned (ma mb : positive) (ea eb : Z) :
  valid_binary (S754_finite false ma ea) = true ->
  valid_binary (S754_finite false mb eb) = true ->
  SFcompare (S754_finite false ma ea) (S754_finite false mb eb)
  = Some (Z.pos (fst (shl_align ma ea (Z.min ea eb)))
          ?= Z.pos (fst (shl_align mb eb (Z.min ea eb)))).
Proof.
  intros Va Vb. unfold SFcompare. f_equal.
  rewrite !shl_align_value by lia.
  change (Pos.compare_cont Eq ma mb) with (Z.pos ma ?= Z.pos mb).
  destruct (Z.compare_spec ea eb) as [Heq|Hlt|Hgt].
  - subst eb. rewrite Z.min_id, Z.sub_diag, !Z.mul_1_r. reflexivity.
  - rewrite Z.min_l by lia. rewrite Z.sub_diag, Z.mul_1_r.
    symmetry. apply Z.compare_lt_iff. apply lt_of_smaller_exponent; assumption.
  - rewrite Z.min_r by lia. rewrite Z.sub_diag, Z.mul_1_r.
    symmetry. apply Z.compare_gt_iff. apply lt_of_smaller_exponent; assumption.
Qed.

Lemma binary_round_aux_negative (m e : Z) (l : location) :
  positive_sf (binary_round_aux prec emax true m e l) = false.
Proof.
  unfold binary_round_aux.
  destruct (shr_fexp prec emax m e l) as [mrs1 e1].
  destruct (shr_fexp prec emax _ e1 loc_Exact) as [mrs2 e2].
  destruct (shr_m mrs2); [reflexivity| |reflexivity].
  destruct (e2 <=? emax - prec); reflexivity.
Qed.

(** The difference [b - a] of two positive finite doubles is positive
    exactly when [a < b]. *)
Lemma SFsub_positive (ma mb : positive) (ea eb : Z) :
  valid_binary (S754_finite false ma ea) = true ->
  valid_binary (S754_finite false mb eb) = true ->
  positive_sf (SFsub prec emax (S754_finite false mb eb) (S754_finite false ma ea))
  = match SFcompare (S754_finite false ma ea) (S754_finite false mb eb) with
    | Some Lt => true
    | _ => false
    end.
Proof.
  intros Va Vb. rewrite (SFcompare_aligned _ _ _ _ Va Vb).
  unfold SFsub. simpl cond_Zopp. rewrite (Z.min_comm eb ea).
  set (a' := Z.pos (fst (shl_align ma ea (Z.min ea eb)))).
  set (b' := Z.pos (fst (shl_align mb eb (Z.min ea eb)))).
  destruct (canonical_digits _ _ Va) as (Hea & _).
  destruct (canonical_digits _ _ Vb) as (Heb & _).
  destruct (b' - a') as [|d|d] eqn:Hd; unfold binary_normalize.
  - replace (a' ?= b') with Eq by (symmetry; apply Z.compare_eq_iff; lia).
    reflexivity.
  - replace (a' ?= b') with Lt by (symmetry; apply Z.compare_lt_iff; lia).
    apply binary_round_positive. lia.
  - replace (a' ?= b') with Gt by (symmetry; apply Z.compare_gt_iff; lia).
    unfold binary_round.
    destruct (shl_align d _ _) as [mz ez]. apply binary_round_aux_negative.
Qed.

(** Splits on every comparison of exponents and mantissas in sight. *)
Ltac compare_cases :=
  repeat match goal with
  | H : context [Z.compare ?a ?b] |- _ =>
      destruct (Z.compare_spec a b); simpl in H; try discriminate H
  | H : context [Pos.compare_cont Eq ?a ?b] |- _ =>
      change (Pos.compare_cont Eq a b) with (Pos.compare a b) in H
  | H : context [Pos.compare ?a ?b] |- _ =>
      destruct (Pos.compare_spec a b); simpl in H; try discriminate H
  end;
  repeat match goal with
  | |- context [Z.compare ?a ?b] => destruct (Z.compare_spec a b); simpl
  | |- context [Pos.compare_cont Eq ?a ?b] =>
      change (Pos.compare_cont Eq a b) with (Pos.compare a b)
  | |- context [Pos.compare ?a ?b] => destruct (Pos.compare_spec a b); simpl
  end;
  try reflexivity; try lia.

Lemma SFleb_trans (x y z : spec_float) :
  SFleb x y = true -> SFleb y z = true -> SFleb x z = true.
Proof.
  unfold SFleb, SFcompare.
  destruct x as [sx|sx| |sx mx ex]; try destruct sx;
  destruct y as [sy|sy| |sy my ey]; try destruct sy;
  destruct z as [sz|sz| |sz mz ez]; try destruct sz;
    intros Hxy Hyz; try discriminate; try reflexivity; compare_cases.
Qed.

Lemma leb_zero_cases (x : float) :
  PrimFloat.ltb zero x = true ->
  Prim2SF x = S754_infinity false \/ exists m e, Prim2SF x = S754_finite false m e.
Proof.
  rewrite ltb_zero_positive.
  destruct (Prim2SF x) as [s|s| |s m e]; try destruct s; try discriminate; eauto.
Qed.

Lemma float_sub_orders (a b : float) :
  PrimFloat.ltb zero a = true -> PrimFloat.ltb zero b = true ->
  (PrimFloat.ltb zero (PrimFloat.sub b a) = true -> PrimFloat.leb a b = true) /\
  (PrimFloat.ltb zero (PrimFloat.sub b a) = false -> PrimFloat.leb b a = true).
Proof.
  intros Ha Hb. rewrite ltb_zero_positive, sub_spec, !leb_spec.
  pose proof (Prim2SF_valid a) as Va. pose proof (Prim2SF_valid b) as Vb.
  destruct (leb_zero_cases a Ha) as [Ea|(ma & ea & Ea)];
  destruct (leb_zero_cases b Hb) as [Eb|(mb & eb & Eb)];
    rewrite Ea, Eb in *.
  - split; intros; reflexivity.
  - split; [discriminate|reflexivity].
  - split; [reflexivity|discriminate].
  - unfold SF64sub. rewrite (SFsub_positive _ _ _ _ Va Vb).
    unfold SFleb. rewrite (SFcompare_aligned _ _ _ _ Va Vb), (SFcompare_aligned _ _ _ _ Vb Va).
    rewrite (Z.min_comm eb ea).
    set (a' := Z.pos (fst (shl_align ma ea (Z.min ea eb)))).
    set (b' := Z.pos (fst (shl_align mb eb (Z.min ea eb)))).
    destruct (Z.compare_spec a' b'); destruct (Z.compare_spec b' a'); split; intros; try reflexivity; try discriminate; lia.
Qed.

#[global] Instance subtraction_orders : SubtractionOrders float.
Proof.
  split.
  - intros a b Ha Hb. apply (float_sub_orders a b Ha Hb).
  - intros a b Ha Hb. apply (float_sub_orders a b Ha Hb).
  - intros a b c. unfold leb; simpl. rewrite !leb_spec. apply SFleb_trans.
Qed.

Lemma position_range (r D : Z) : 0 <= position r D <= 3.
Proof.
  unfold position. destruct (r =? 0); [lia|]. destruct (2 * r ?= D); lia.
Qed.

Lemma codeQ_div (N D : Z) : codeQ N D / 4 = N / D.
Proof.
  unfold codeQ. pose proof (position_range (N mod D) D).
  rewrite Z.add_comm, Z.mul_comm, Z.div_add by lia.
  rewrite Z.div_small by lia. lia.
Qed.

Lemma codeQ_mod (N D : Z) : codeQ N D mod 4 = position (N mod D) D.
Proof.
  unfold codeQ. pose proof (position_range (N mod D) D).
  rewrite Z.add_comm, Z.mul_comm, Z.mod_add by lia.
  apply Z.mod_small. lia.
Qed.

Lemma shr_1_code (mrs : shr_record) :
  0 <= shr_m mrs ->
  code (shr_1 mrs) = shiftcode (code mrs) /\ 0 <= shr_m (shr_1 mrs).
Proof.
  destruct mrs as [m r s]. unfold code, shiftcode. simpl shr_m. simpl shr_r. simpl shr_s.
  intros Hm.
  assert (Hdiv : (4 * m + (if r then 2 else 0) + (if s then 1 else 0)) / 4 = m).
  { rewrite <- Z.add_assoc, Z.add_comm, Z.mul_comm, Z.div_add by lia.
    rewrite Z.div_small by (destruct r, s; lia). lia. }
  assert (Hmod : (4 * m + (if r then 2 else 0) + (if s then 1 else 0)) mod 4
                 = (if r then 2 else 0) + (if s then 1 else 0)).
  { rewrite <- Z.add_assoc, Z.add_comm, Z.mul_comm, Z.mod_add by lia.
    apply Z.mod_small. destruct r, s; lia. }
  rewrite Hdiv, Hmod.
  destruct m as [|p|p]; [| |lia].
  - destruct r, s; simpl; split; lia.
  - destruct p as [p|p|]; destruct r, s; simpl; split; lia.
Qed.

Lemma shiftcode_codeQ (N D : Z) :
  0 <= N -> 0 < D -> shiftcode (codeQ N D) = codeQ N (2 * D).
Proof.
  intros HN HD. unfold shiftcode. rewrite codeQ_div, codeQ_mod.
  unfold codeQ.
  pose proof (Z.div_mod N D ltac:(lia)) as Hq.
  pose proof (Z.mod_pos_bound N D HD) as Hr.
  set (q := N / D) in *. set (r := N mod D) in *.
  pose proof (Z.div_mod q 2 ltac:(lia)) as Hq2.
  pose proof (Z.mod_pos_bound q 2 ltac:(lia)) as Hr2.
  assert (Hbound : 0 <= r + D * (q mod 2) < 2 * D).
  { assert (q mod 2 = 0 \/ q mod 2 = 1) as [E|E] by lia; rewrite E; lia. }
  assert (Hsplit : N = 2 * D * (q / 2) + (r + D * (q mod 2))).
  { rewrite Hq at 1. rewrite Hq2 at 1. ring. }
  assert (Hdiv : N / (2 * D) = q / 2).
  { symmetry. apply (Z.div_unique N (2 * D) (q / 2) (r + D * (q mod 2)));
      [left; exact Hbound|exact Hsplit]. }
  assert (Hmod : N mod (2 * D) = r + D * (q mod 2)).
  { symmetry. apply (Z.mod_unique N (2 * D) (q / 2) (r + D * (q mod 2)));
      [left; exact Hbound|exact Hsplit]. }
  rewrite Hdiv, Hmod. unfold position.
  destruct (Z.eqb_spec r 0) as [Hr0|Hr0].
  - change (0 =? 0) with true. cbn iota.
    assert (q mod 2 = 0 \/ q mod 2 = 1) as [E|E] by lia; rewrite E.
    + replace (r + D * 0) with 0 by lia. change (0 =? 0) with true. cbn iota.
      lia.
    + replace (r + D * 1 =? 0) with false by (symmetry; apply Z.eqb_neq; lia).
      replace (2 * (r + D * 1) ?= 2 * D) with Eq
        by (symmetry; apply Z.compare_eq_iff; lia).
      lia.
  - assert (Hp : (match 2 * r ?= D with Lt => 1 | Eq => 2 | Gt => 3 end =? 0)
                 = false).
    { destruct (2 * r ?= D); reflexivity. }
    rewrite Hp.
    assert (q mod 2 = 0 \/ q mod 2 = 1) as [E|E] by lia; rewrite E.
    + replace (r + D * 0 =? 0) with false by (symmetry; apply Z.eqb_neq; lia).
      replace (2 * (r + D * 0) ?= 2 * D) with Lt
        by (symmetry; apply Z.compare_lt_iff; lia).
      lia.
    + replace (r + D * 1 =? 0) with false by (symmetry; apply Z.eqb_neq; lia).
      replace (2 * (r + D * 1) ?= 2 * D) with Gt
        by (symmetry; apply Z.compare_gt_iff; lia).
      lia.
Qed.

Lemma pow2_xO (p : positive) : 2 ^ Z.pos p~0 = 2 ^ Z.pos p * 2 ^ Z.pos p.
Proof.
  rewrite <- (Z.pow_add_r 2 (Z.pos p) (Z.pos p)) by lia. f_equal. lia.
Qed.

Lemma pow2_xI (p : positive) : 2 ^ Z.pos p~1 = 2 * (2 ^ Z.pos p * 2 ^ Z.pos p).
Proof.
  rewrite <- (Z.pow_add_r 2 (Z.pos p) (Z.pos p)) by lia.
  rewrite <- (Z.pow_succ_r 2 (Z.pos p + Z.pos p)) by lia. f_equal. lia.
Qed.

Lemma iter_shr_1_code (p : positive) (mrs : shr_record) (N D : Z) :
  0 <= N -> 0 < D -> 0 <= shr_m mrs -> code mrs = codeQ N D ->
  code (iter_pos shr_1 p mrs) = codeQ N (D * 2 ^ Z.pos p)
  /\ 0 <= shr_m (iter_pos shr_1 p mrs).
Proof.
  intros HN. revert mrs D.
  induction p as [p IH|p IH|]; intros mrs D HD Hm Hc; simpl iter_pos.
  - destruct (shr_1_code mrs Hm) as [H1 H1m].
    rewrite Hc, shiftcode_codeQ in H1 by assumption.
    assert (Hpow : 0 < 2 ^ Z.pos p) by (apply Z.pow_pos_nonneg; lia).
    destruct (IH _ (2 * D) ltac:(lia) H1m H1) as [H2 H2m].
    destruct (IH _ (2 * D * 2 ^ Z.pos p) ltac:(nia) H2m H2) as [H3 H3m].
    split; [|exact H3m]. rewrite H3. f_equal. rewrite pow2_xI. ring.
  - assert (Hpow : 0 < 2 ^ Z.pos p) by (apply Z.pow_pos_nonneg; lia).
    destruct (IH _ D HD Hm Hc) as [H2 H2m].
    destruct (IH _ (D * 2 ^ Z.pos p) ltac:(nia) H2m H2) as [H3 H3m].
    split; [|exact H3m]. rewrite H3. f_equal. rewrite pow2_xO. ring.
  - destruct (shr_1_code mrs Hm) as [H1 H1m].
    rewrite Hc, shiftcode_codeQ in H1 by assumption.
    split; [|exact H1m]. rewrite H1. f_equal. change (2 ^ 1) with 2. lia.
Qed.

Lemma div_mod_4 (m b : Z) :
  0 <= b < 4 -> (4 * m + b) / 4 = m /\ (4 * m + b) mod 4 = b.
Proof.
  intros Hb. split.
  - symmetry. apply (Z.div_unique (4 * m + b) 4 m b); [left; exact Hb|ring].
  - symmetry. apply (Z.mod_unique (4 * m + b) 4 m b); [left; exact Hb|ring].
Qed.

Lemma code_bits (mrs : shr_record) :
  code mrs / 4 = shr_m mrs /\
  code mrs mod 4 = (if shr_r mrs then 2 else 0) + (if shr_s mrs then 1 else 0).
Proof.
  unfold code. rewrite <- Z.add_assoc. apply div_mod_4.
  destruct (shr_r mrs), (shr_s mrs); lia.
Qed.

Lemma round_nearest_even_code (mrs : shr_record) :
  round_nearest_even (shr_m mrs) (loc_of_shr_record mrs) = RNE (code mrs).
Proof.
  unfold RNE. destruct (code_bits mrs) as [-> ->].
  destruct mrs as [m r s]. destruct r, s; reflexivity.
Qed.

Lemma code_of_exact (m : Z) : code (shr_record_of_loc m loc_Exact) = codeQ m 1.
Proof.
  unfold code, codeQ, position. simpl.
  rewrite Z.div_1_r, Z.mod_1_r. simpl. lia.
Qed.

Lemma RNE_bounds (c : Z) : c / 4 <= RNE c <= c / 4 + 1.
Proof.
  unfold RNE. destruct (c mod 4 <=? 1); [lia|].
  destruct (c mod 4 =? 2); [|lia]. destruct (Z.even (c / 4)); lia.
Qed.

Lemma RNE_monotone (c1 c2 : Z) : c1 <= c2 -> RNE c1 <= RNE c2.
Proof.
  intros Hle.
  pose proof (Z.div_mod c1 4 ltac:(lia)) as H1.
  pose proof (Z.div_mod c2 4 ltac:(lia)) as H2.
  pose proof (Z.mod_pos_bound c1 4 ltac:(lia)) as B1.
  pose proof (Z.mod_pos_bound c2 4 ltac:(lia)) as B2.
  pose proof (RNE_bounds c1) as R1. pose proof (RNE_bounds c2) as R2.
  assert (Hq : c1 / 4 <= c2 / 4) by (apply Z.div_le_mono; lia).
  destruct (Z.eq_dec (c1 / 4) (c2 / 4)) as [E|NE]; [|lia].
  unfold RNE. rewrite E.
  assert (Hm : c1 mod 4 <= c2 mod 4) by lia.
  destruct (Z.leb_spec (c1 mod 4) 1), (Z.leb_spec (c2 mod 4) 1); try lia.
  - destruct (c2 mod 4 =? 2); [|lia]. destruct (Z.even (c2 / 4)); lia.
  - destruct (Z.eqb_spec (c1 mod 4) 2), (Z.eqb_spec (c2 mod 4) 2); try lia.
    destruct (Z.even (c2 / 4)); lia.
Qed.

(** The code of a quotient grows with the quotient. *)
Lemma codeQ_monotone (N1 D1 N2 D2 : Z) :
  0 <= N1 -> 0 < D1 -> 0 < D2 -> N1 * D2 <= N2 * D1 ->
  codeQ N1 D1 <= codeQ N2 D2.
Proof.
  intros HN1 HD1 HD2 Hle. unfold codeQ.
  pose proof (Z.div_mod N1 D1 ltac:(lia)) as H1.
  pose proof (Z.div_mod N2 D2 ltac:(lia)) as H2.
  pose proof (Z.mod_pos_bound N1 D1 HD1) as B1.
  pose proof (Z.mod_pos_bound N2 D2 HD2) as B2.
  pose proof (position_range (N1 mod D1) D1) as P1.
  pose proof (position_range (N2 mod D2) D2) as P2.
  set (q1 := N1 / D1) in *. set (q2 := N2 / D2) in *.
  set (r1 := N1 mod D1) in *. set (r2 := N2 mod D2) in *.
  assert (Hq : q1 <= q2).
  { destruct (Z.le_gt_cases q1 q2) as [|Hgt]; [assumption|exfalso].
    assert (q2 + 1 <= q1) by lia.
    assert (N2 * D1 < (q2 + 1) * D2 * D1) by nia.
    assert ((q2 + 1) * D2 * D1 <= q1 * D1 * D2) by nia.
    nia. }
  destruct (Z.eq_dec q1 q2) as [E|NE]; [|lia].
  assert (Hr : r1 * D2 <= r2 * D1) by nia.
  unfold position.
  destruct (Z.eqb_spec r1 0) as [Z1|NZ1].
  - destruct (r2 =? 0); [lia|]. destruct (2 * r2 ?= D2); lia.
  - destruct (Z.eqb_spec r2 0) as [Z2|NZ2]; [nia|].
    destruct (Z.compare_spec (2 * r1) D1), (Z.compare_spec (2 * r2) D2); try lia; nia.
Qed.

Lemma digits_unique (m : positive) (d : Z) :
  2 ^ (d - 1) <= Z.pos m < 2 ^ d -> Z.pos (digits2_pos m) = d.
Proof.
  intros [Hlo Hhi]. pose proof (digits2_pos_bounds m) as [Blo Bhi].
  assert (0 < d).
  { destruct (Z.lt_ge_cases 0 d) as [|Hd]; [assumption|exfalso].
    destruct (Z.eq_dec d 0) as [->|]; [simpl in Hhi; lia|].
    rewrite Z.pow_neg_r in Hhi by lia. lia. }
  destruct (Z.lt_trichotomy (Z.pos (digits2_pos m)) d) as [Hlt|[Heq|Hgt]];
    [exfalso|exact Heq|exfalso].
  - assert (2 ^ Z.pos (digits2_pos m) <= 2 ^ (d - 1)) by (apply Z.pow_le_mono_r; lia).
    lia.
  - assert (2 ^ d <= 2 ^ (Z.pos (digits2_pos m) - 1)) by (apply Z.pow_le_mono_r; lia).
    lia.
Qed.

Lemma shr_code (mrs : shr_record) (e n N D : Z) :
  0 <= N -> 0 < D -> 0 <= shr_m mrs -> code mrs = codeQ N D -> 0 <= n ->
  code (fst (shr mrs e n)) = codeQ N (D * 2 ^ n) /\
  snd (shr mrs e n) = e + n.
Proof.
  intros HN HD Hm Hc Hn. unfold shr.
  destruct n as [|p|p]; simpl fst; simpl snd; [| |lia].
  - rewrite Z.mul_1_r. split; [exact Hc|lia].
  - split; [|reflexivity]. apply iter_shr_1_code; assumption.
Qed.

Lemma div_pow2_bounds (q a b : Z) :
  0 <= b <= a -> 2 ^ a <= q < 2 ^ (a + 1) ->
  2 ^ (a - b) <= q / 2 ^ b < 2 ^ (a - b + 1).
Proof.
  intros Hab [Hlo Hhi].
  assert (Hb : 0 < 2 ^ b) by (apply Z.pow_pos_nonneg; lia).
  assert (E1 : 2 ^ a = 2 ^ (a - b) * 2 ^ b).
  { rewrite <- Z.pow_add_r by lia. f_equal. lia. }
  assert (E2 : 2 ^ (a + 1) = 2 ^ (a - b + 1) * 2 ^ b).
  { rewrite <- Z.pow_add_r by lia. f_equal. lia. }
  split.
  - apply Z.div_le_lower_bound; lia.
  - apply Z.div_lt_upper_bound; lia.
Qed.

(** The first shift of [binary_round_aux] brings the mantissa to the
    exponent that fits it. *)
Lemma first_shift_fits (q : positive) (e N D : Z) (l : location) :
  0 <= N -> 0 < D -> code (shr_record_of_loc (Z.pos q) l) = codeQ N D ->
  emin64 <= e -> e <= fexp prec emax (Z.pos (digits2_pos q) + e) ->
  let n := fexp prec emax (Z.pos (digits2_pos q) + e) - e in
  fits N (D * 2 ^ n) (e + n) /\
  code (fst (shr_fexp prec emax (Z.pos q) e l)) = codeQ N (D * 2 ^ n) /\
  snd (shr_fexp prec emax (Z.pos q) e l) = e + n.
Proof.
  intros HN HD Hc He Hn n.
  assert (Hm0 : shr_m (shr_record_of_loc (Z.pos q) l) = Z.pos q).
  { destruct l as [|[]]; reflexivity. }
  assert (Hq : N / D = Z.pos q).
  { rewrite <- codeQ_div, <- Hc. rewrite (proj1 (code_bits _)). exact Hm0. }
  destruct (shr_code (shr_record_of_loc (Z.pos q) l) e n N D HN HD
              ltac:(rewrite Hm0; lia) Hc ltac:(unfold n; lia)) as [Hcode Hexp].
  split; [|split; [exact Hcode|exact Hexp]].
  pose proof (digits2_pos_bounds q) as [Blo Bhi].
  set (dq := Z.pos (digits2_pos q)) in *.
  assert (Hcases : (n = dq - prec /\ prec <= dq)
                   \/ (n = 0 /\ e = emin64 /\ dq < prec)).
  { unfold n, fexp, emin64 in *. lia. }
  clearbody n. clear Hcode Hexp Hn.
  assert (Hn2 : 0 <= n) by (unfold prec in *; lia).
  assert (Hpow : 0 < 2 ^ n) by (apply Z.pow_pos_nonneg; lia).
  assert (Hdiv : N / (D * 2 ^ n) = Z.pos q / 2 ^ n).
  { rewrite <- Z.div_div by lia. rewrite Hq. reflexivity. }
  unfold fits. rewrite Hdiv.
  split; [exact HN|]. split; [nia|]. split; [lia|].
  destruct Hcases as [[En Hd]|[En [Ee Hd]]].
  - pose proof (div_pow2_bounds (Z.pos q) (dq - 1) n ltac:(unfold prec in *; lia)
                  ltac:(replace (dq - 1 + 1) with dq by lia; lia)) as [Dlo Dhi].
    replace (dq - 1 - n) with (prec - 1) in * by lia.
    replace (prec - 1 + 1) with prec in Dhi by lia.
    split; [split; [|exact Dhi]|right; exact Dlo].
    assert (0 < 2 ^ (prec - 1)) by (apply Z.pow_pos_nonneg; unfold prec; lia).
    lia.
  - subst n. rewrite Z.div_1_r.
    assert (2 ^ dq <= 2 ^ prec) by (apply Z.pow_le_mono_r; lia).
    split; [lia|]. left. lia.
Qed.

Lemma pow_digits_le (m : positive) (d : Z) :
  Z.pos m < 2 ^ d -> Z.pos (digits2_pos m) <= d.
Proof.
  intros Hlt. pose proof (digits2_pos_bounds m) as [Blo _].
  destruct (Z.le_gt_cases (Z.pos (digits2_pos m)) d) as [|Hgt]; [assumption|exfalso].
  assert (2 ^ d <= 2 ^ (Z.pos (digits2_pos m) - 1)).
  { apply Z.pow_le_mono_r; lia. }
  lia.
Qed.

Lemma pow_digits_ge (m : positive) (d : Z) :
  2 ^ d <= Z.pos m -> d + 1 <= Z.pos (digits2_pos m).
Proof.
  intros Hle. pose proof (digits2_pos_bounds m) as [_ Bhi].
  destruct (Z.le_gt_cases (d + 1) (Z.pos (digits2_pos m))) as [|Hgt]; [assumption|exfalso].
  assert (2 ^ Z.pos (digits2_pos m) <= 2 ^ d).
  { apply Z.pow_le_mono_r; lia. }
  lia.
Qed.

(** The second shift of [binary_round_aux] acts only after a carry. *)
Lemma second_shift (m2 E : Z) :
  emin64 <= E -> 1 <= m2 <= 2 ^ prec ->
  (E = emin64 \/ 2 ^ (prec - 1) <= m2) ->
  shr_m (fst (shr_fexp prec emax m2 E loc_Exact))
  = (if m2 =? 2 ^ prec then 2 ^ (prec - 1) else m2) /\
  snd (shr_fexp prec emax m2 E loc_Exact)
  = (if m2 =? 2 ^ prec then E + 1 else E).
Proof.
  intros HE Hm2 Hnorm.
  destruct (Z.eqb_spec m2 (2 ^ prec)) as [->|Hne].
  - unfold shr_fexp.
    replace (fexp prec emax (Zdigits2 (2 ^ prec) + E) - E) with 1.
    + simpl. split; reflexivity.
    + change (Zdigits2 (2 ^ prec)) with 54.
      unfold fexp, emin64, SpecFloat.emin, prec, emax in *. lia.
  - destruct m2 as [|p|p]; try lia.
    unfold shr_fexp. simpl Zdigits2.
    pose proof (pow_digits_le p prec ltac:(lia)) as Hd.
    assert (Hn : fexp prec emax (Z.pos (digits2_pos p) + E) - E = 0).
    { destruct Hnorm as [->|Hbig].
      - unfold fexp, emin64 in *. lia.
      - pose proof (pow_digits_ge p (prec - 1) Hbig).
        unfold fexp, emin64 in *. lia. }
    rewrite Hn. simpl. split; reflexivity.
Qed.

Lemma binary_round_aux_round_pos (q : positive) (e N D : Z) (l : location) :
  0 <= N -> 0 < D -> code (shr_record_of_loc (Z.pos q) l) = codeQ N D ->
  emin64 <= e -> e <= fexp prec emax (Z.pos (digits2_pos q) + e) ->
  let n := fexp prec emax (Z.pos (digits2_pos q) + e) - e in
  binary_round_aux prec emax false (Z.pos q) e l = round_pos N (D * 2 ^ n) (e + n)
  /\ fits N (D * 2 ^ n) (e + n).
Proof.
  intros HN HD Hc He Hn n.
  destruct (first_shift_fits q e N D l HN HD Hc He Hn) as (Hfits & Hcode & Hexp).
  fold n in Hfits, Hcode, Hexp. split; [|exact Hfits].
  unfold binary_round_aux.
  destruct (shr_fexp prec emax (Z.pos q) e l) as [mrs1 e1].
  simpl fst in Hcode. simpl snd in Hexp. subst e1.
  rewrite round_nearest_even_code, Hcode.
  destruct Hfits as (_ & HD' & HE & Hm1 & Hnorm).
  pose proof (RNE_bounds (codeQ N (D * 2 ^ n))) as Hb.
  rewrite codeQ_div in Hb.
  destruct (second_shift (RNE (codeQ N (D * 2 ^ n))) (e + n) HE ltac:(lia)
              ltac:(destruct Hnorm; [left; assumption|right; lia])) as [Hm3 He3].
  destruct (shr_fexp prec emax (RNE (codeQ N (D * 2 ^ n))) (e + n) loc_Exact)
    as [mrs3 e3].
  simpl fst in Hm3. simpl snd in He3. rewrite Hm3, He3.
  unfold round_pos.
  destruct (RNE (codeQ N (D * 2 ^ n)) =? 2 ^ prec).
  - reflexivity.
  - destruct (RNE (codeQ N (D * 2 ^ n))) as [|p|p]; try lia. reflexivity.
Qed.

Lemma SFleb_finite (a b : positive) (ea eb : Z) :
  ea < eb \/ (ea = eb /\ (a <= b)%positive) ->
  SFleb (S754_finite false a ea) (S754_finite false b eb) = true.
Proof.
  intros [Hlt|[-> Hle]]; unfold SFleb, SFcompare.
  - replace (ea ?= eb) with Lt by (symmetry; apply Z.compare_lt_iff; lia).
    reflexivity.
  - rewrite Z.compare_refl.
    change (Pos.compare_cont Eq a b) with (Pos.compare a b).
    destruct (Pos.compare_spec a b); try reflexivity. lia.
Qed.

Lemma round_pos_finish (N D E : Z) :
  round_pos N D E = finish (RNE (codeQ N D)) E.
Proof. reflexivity. Qed.

Lemma finish_monotone (m1 m2 E1 E2 : Z) :
  1 <= m1 <= 2 ^ prec -> 1 <= m2 <= 2 ^ prec ->
  (E1 = E2 /\ m1 <= m2) \/ (E1 < E2 /\ 2 ^ (prec - 1) <= m2) ->
  SFleb (finish m1 E1) (finish m2 E2) = true.
Proof.
  intros H1 H2 Hcase. unfold finish.
  assert (Hhalf : 2 ^ prec = 2 * 2 ^ (prec - 1)) by reflexivity.
  assert (Hpos : 0 < 2 ^ (prec - 1)) by reflexivity.
  destruct (Z.eqb_spec m1 (2 ^ prec)) as [C1|C1];
  destruct (Z.eqb_spec m2 (2 ^ prec)) as [C2|C2];
  match goal with
  | |- SFleb (if ?a <=? ?b then _ else _) (if ?c <=? ?d then _ else _) = true =>
      destruct (Z.leb_spec a b); destruct (Z.leb_spec c d)
  end; try reflexivity; try (exfalso; lia);
  apply SFleb_finite; lia.
Qed.

Lemma round_pos_monotone (N1 D1 E1 N2 D2 E2 : Z) :
  fits N1 D1 E1 -> fits N2 D2 E2 ->
  N1 * 2 ^ (E1 - emin64) * D2 <= N2 * 2 ^ (E2 - emin64) * D1 ->
  SFleb (round_pos N1 D1 E1) (round_pos N2 D2 E2) = true.
Proof.
  intros (HN1 & HD1 & HE1 & Hm1 & Hn1) (HN2 & HD2 & HE2 & Hm2 & Hn2) Hle.
  rewrite !round_pos_finish.
  pose proof (RNE_bounds (codeQ N1 D1)) as R1. rewrite codeQ_div in R1.
  pose proof (RNE_bounds (codeQ N2 D2)) as R2. rewrite codeQ_div in R2.
  pose proof (Z.div_mod N1 D1 ltac:(lia)) as Q1.
  pose proof (Z.div_mod N2 D2 ltac:(lia)) as Q2.
  pose proof (Z.mod_pos_bound N1 D1 HD1) as B1.
  pose proof (Z.mod_pos_bound N2 D2 HD2) as B2.
  set (q1 := N1 / D1) in *. set (q2 := N2 / D2) in *.
  assert (Hhalf : 2 ^ prec = 2 * 2 ^ (prec - 1)) by reflexivity.
  assert (Hpos : 0 < 2 ^ (prec - 1)) by reflexivity.
  assert (HX2 : 0 < 2 ^ (E2 - emin64)) by (apply Z.pow_pos_nonneg; lia).
  apply finish_monotone; try lia.
  destruct (Z.lt_trichotomy E1 E2) as [Hlt|[Heq|Hgt]].
  - right. split; [exact Hlt|]. destruct Hn2 as [Hn2|Hn2]; lia.
  - left. split; [exact Heq|]. subst E2.
    apply RNE_monotone, codeQ_monotone; try lia.
    apply (Z.mul_le_mono_pos_r _ _ (2 ^ (E1 - emin64))); [exact HX2|]. lia.
  - exfalso.
    assert (HX : 2 ^ (E1 - emin64) = 2 ^ (E1 - E2) * 2 ^ (E2 - emin64)).
    { rewrite <- Z.pow_add_r by lia. f_equal. lia. }
    assert (H2 : 2 ^ 1 <= 2 ^ (E1 - E2)) by (apply Z.pow_le_mono_r; lia).
    change (2 ^ 1) with 2 in H2.
    destruct Hn1 as [Hn1|Hn1]; [lia|].
    set (X2 := 2 ^ (E2 - emin64)) in *. set (K := 2 ^ (E1 - E2)) in *.
    set (P := 2 ^ (prec - 1)) in *.
    rewrite HX in Hle.
    assert (A1 : P * D1 <= N1) by nia.
    assert (A2 : N2 < 2 * P * D2) by nia.
    assert (A3 : P * D1 * (K * X2) * D2 <= N1 * (K * X2) * D2).
    { apply Z.mul_le_mono_nonneg_r; [lia|].
      apply Z.mul_le_mono_nonneg_r; [nia|exact A1]. }
    assert (A4 : N2 * X2 * D1 < 2 * P * D2 * X2 * D1).
    { apply Z.mul_lt_mono_pos_r; [lia|].
      apply Z.mul_lt_mono_pos_r; [lia|exact A2]. }
    assert (A5 : 2 * P * D2 * X2 * D1 <= P * D1 * (K * X2) * D2).
    { replace (2 * P * D2 * X2 * D1) with (2 * (P * D1 * X2 * D2)) by ring.
      replace (P * D1 * (K * X2) * D2) with (K * (P * D1 * X2 * D2)) by ring.
      apply Z.mul_le_mono_nonneg_r; [|exact H2].
      repeat apply Z.mul_nonneg_nonneg; lia. }
    lia.
Qed.

Lemma round_pos_valid (N D E : Z) :
  fits N D E -> valid_binary (round_pos N D E) = true.
Proof.
  intros (HN & HD & HE & Hm & Hn). rewrite round_pos_finish. unfold finish.
  pose proof (RNE_bounds (codeQ N D)) as R. rewrite codeQ_div in R.
  assert (Hhalf : 2 ^ prec = 2 * 2 ^ (prec - 1)) by reflexivity.
  destruct (Z.eqb_spec (RNE (codeQ N D)) (2 ^ prec)) as [C|C].
  - destruct (Z.leb_spec (E + 1) (emax - prec)) as [Hov|Hov]; [|reflexivity].
    unfold SpecFloat.valid_binary, bounded, canonical_mantissa.
    apply andb_true_iff. split; [|apply Z.leb_le; exact Hov].
    apply Z.eqb_eq.
    replace (Z.pos (digits2_pos (Z.to_pos (2 ^ (prec - 1))))) with prec
      by reflexivity.
    unfold fexp, emin64 in *. lia.
  - destruct (Z.leb_spec E (emax - prec)) as [Hov|Hov]; [|reflexivity].
    unfold SpecFloat.valid_binary, bounded, canonical_mantissa.
    apply andb_true_iff. split; [|apply Z.leb_le; exact Hov].
    apply Z.eqb_eq.
    destruct (RNE (codeQ N D)) as [|p|p]; try lia. simpl Z.to_pos.
    pose proof (pow_digits_le p prec ltac:(lia)) as Hd.
    destruct Hn as [->|Hbig].
    + unfold fexp, emin64 in *. lia.
    + pose proof (pow_digits_ge p (prec - 1) ltac:(lia)).
      unfold fexp, emin64 in *. lia.
Qed.

Lemma digits_iter_xO (m d : positive) :
  Z.pos (digits2_pos (Pos.iter xO m d)) = Z.pos (digits2_pos m) + Z.pos d.
Proof.
  induction d as [|d IH] using Pos.peano_ind.
  - simpl. lia.
  - rewrite Pos.iter_succ. simpl digits2_pos. rewrite !Pos2Z.inj_succ, IH. lia.
Qed.

Lemma binary_round_presents (m : positive) (e : Z) :
  emin64 <= e ->
  presents (binary_round prec emax false m e) (Z.pos m * 2 ^ (e - emin64)) 1.
Proof.
  intros He. unfold binary_round.
  set (F := fexp prec emax (Z.pos (digits2_pos m) + e)).
  assert (HF : emin64 <= F) by (unfold F, fexp, emin64; lia).
  unfold shl_align.
  destruct (F - e) as [|d|d] eqn:Hd.
  - destruct (binary_round_aux_round_pos m e (Z.pos m) 1 loc_Exact
                ltac:(lia) ltac:(lia) (code_of_exact _) He ltac:(fold F; lia))
      as [Hr Hf].
    fold F in Hr, Hf. replace (F - e) with 0 in * by lia.
    exists (Z.pos m), (1 * 2 ^ 0), (e + 0).
    split; [reflexivity|]. split; [exact Hr|]. split; [exact Hf|].
    replace (e + 0) with e by lia. simpl (1 * 2 ^ 0). lia.
  - destruct (binary_round_aux_round_pos m e (Z.pos m) 1 loc_Exact
                ltac:(lia) ltac:(lia) (code_of_exact _) He ltac:(fold F; lia))
      as [Hr Hf].
    fold F in Hr, Hf. rewrite Hd in *.
    assert (Hpow : 0 < 2 ^ Z.pos d) by (apply Z.pow_pos_nonneg; lia).
    exists (Z.pos m), (1 * 2 ^ Z.pos d), (e + Z.pos d).
    split; [lia|]. split; [exact Hr|]. split; [exact Hf|].
    replace (e + Z.pos d - emin64) with ((e - emin64) + Z.pos d) by lia.
    rewrite Z.pow_add_r by lia. ring.
  - assert (Hdig : Z.pos (digits2_pos (Pos.iter xO m d)) + F
                   = Z.pos (digits2_pos m) + e).
    { rewrite digits_iter_xO. lia. }
    destruct (binary_round_aux_round_pos (Pos.iter xO m d) F
                (Z.pos (Pos.iter xO m d)) 1 loc_Exact
                ltac:(lia) ltac:(lia) (code_of_exact _) HF
                ltac:(rewrite Hdig; fold F; lia)) as [Hr Hf].
    rewrite Hdig in Hr, Hf. fold F in Hr, Hf.
    replace (F - F) with 0 in * by lia.
    exists (Z.pos (Pos.iter xO m d)), (1 * 2 ^ 0), (F + 0).
    split; [reflexivity|]. split; [exact Hr|]. split; [exact Hf|].
    rewrite iter_xO_pow. replace (F + 0) with F by lia. simpl (1 * 2 ^ 0).
    replace (e - emin64) with (Z.pos d + (F - emin64)) by lia.
    rewrite Z.pow_add_r by lia. ring.
Qed.

Lemma finite_presents (m : positive) (e : Z) :
  valid_binary (S754_finite false m e) = true ->
  presents (S754_finite false m e) (Z.pos m * 2 ^ (e - emin64)) 1.
Proof.
  intros V. destruct (canonical_digits m e V) as (He & Hd & Hn).
  pose proof (digits2_pos_bounds m) as [Blo Bhi].
  assert (Hlt : Z.pos m < 2 ^ prec).
  { assert (2 ^ Z.pos (digits2_pos m) <= 2 ^ prec)
      by (apply Z.pow_le_mono_r; lia).
    lia. }
  exists (Z.pos m), 1, e. split; [lia|]. split; [|split].
  - unfold round_pos. unfold codeQ, position. rewrite Z.div_1_r, Z.mod_1_r.
    change (0 =? 0) with true. cbn iota. rewrite Z.add_0_r.
    unfold RNE. destruct (div_mod_4 (Z.pos m) 0 ltac:(lia)) as [Ediv Emod].
    rewrite Z.add_0_r in Ediv, Emod. rewrite Ediv, Emod.
    change (0 <=? 1) with true. cbn iota.
    replace (Z.pos m =? 2 ^ prec) with false by (symmetry; apply Z.eqb_neq; lia).
    simpl in V. unfold bounded in V. apply andb_true_iff in V.
    destruct V as [_ V]. rewrite V. reflexivity.
  - unfold fits. rewrite Z.div_1_r. repeat split; try lia.
    destruct (Z.eq_dec e emin64) as [->|Hne]; [left; reflexivity|right].
    rewrite <- (Hn ltac:(lia)). exact Blo.
  - ring.
Qed.

Lemma presents_leb (x y : spec_float) (n1 d1 n2 d2 : Z) :
  0 < d1 -> 0 < d2 ->
  presents x n1 d1 -> presents y n2 d2 -> n1 * d2 <= n2 * d1 ->
  SFleb x y = true.
Proof.
  intros Hd1 Hd2 (N1 & D1 & E1 & HD1 & -> & F1 & V1)
         (N2 & D2 & E2 & HD2 & -> & F2 & V2) Hle.
  apply round_pos_monotone; try assumption.
  apply (Z.mul_le_mono_pos_r _ _ (d1 * d2)); [nia|].
  replace (N1 * 2 ^ (E1 - emin64) * D2 * (d1 * d2))
    with (N1 * 2 ^ (E1 - emin64) * d1 * (D2 * d2)) by ring.
  replace (N2 * 2 ^ (E2 - emin64) * D1 * (d1 * d2))
    with (N2 * 2 ^ (E2 - emin64) * d2 * (D1 * d1)) by ring.
  rewrite V1, V2.
  replace (n1 * D1 * (D2 * d2)) with (n1 * d2 * (D1 * D2)) by ring.
  replace (n2 * D2 * (D1 * d1)) with (n2 * d1 * (D1 * D2)) by ring.
  apply Z.mul_le_mono_nonneg_r; [nia|exact Hle].
Qed.

Lemma presents_positive (x : spec_float) (num den : Z) :
  presents x num den -> positive_sf x = true.
Proof.
  intros (N & D & E & _ & -> & _ & _). unfold round_pos.
  match goal with
  | |- context [if ?c then S754_finite _ _ _ else _] => destruct c
  end; reflexivity.
Qed.

Lemma presents_valid (x : spec_float) (num den : Z) :
  presents x num den -> valid_binary x = true.
Proof.
  intros (N & D & E & _ & -> & Hf & _). apply round_pos_valid. exact Hf.
Qed.

Lemma leb_zero_nonneg (x : float) :
  PrimFloat.leb zero x = nonneg_sf (Prim2SF x).
Proof.
  rewrite leb_spec. change (Prim2SF zero) with (S754_zero false).
  destruct (Prim2SF x) as [s|s| |s m e]; try destruct s; reflexivity.
Qed.

Lemma SFleb_val (ma mb : positive) (ea eb : Z) :
  valid_binary (S754_finite false ma ea) = true ->
  valid_binary (S754_finite false mb eb) = true ->
  SFleb (S754_finite false ma ea) (S754_finite false mb eb) = true ->
  val ma ea <= val mb eb.
Proof.
  intros Va Vb. unfold SFleb. rewrite (SFcompare_aligned _ _ _ _ Va Vb).
  rewrite !shl_align_value by lia.
  destruct (canonical_digits _ _ Va) as (Hea & _).
  destruct (canonical_digits _ _ Vb) as (Heb & _).
  set (ez := Z.min ea eb).
  intros H.
  assert (Hle : Z.pos ma * 2 ^ (ea - ez) <= Z.pos mb * 2 ^ (eb - ez)).
  { destruct (Z.compare_spec (Z.pos ma * 2 ^ (ea - ez)) (Z.pos mb * 2 ^ (eb - ez)));
      lia. }
  unfold val.
  replace (ea - emin64) with ((ea - ez) + (ez - emin64)) by lia.
  replace (eb - emin64) with ((eb - ez) + (ez - emin64)) by lia.
  rewrite !Z.pow_add_r by lia. rewrite !Z.mul_assoc.
  apply Z.mul_le_mono_nonneg_r; [|exact Hle].
  apply Z.pow_nonneg. lia.
Qed.

Lemma SFadd_presents (mx my : positive) (ex ey : Z) :
  valid_binary (S754_finite false mx ex) = true ->
  valid_binary (S754_finite false my ey) = true ->
  presents (SFadd prec emax (S754_finite false mx ex) (S754_finite false my ey))
           (val mx ex + val my ey) 1.
Proof.
  intros Vx Vy.
  destruct (canonical_digits _ _ Vx) as (Hex & _).
  destruct (canonical_digits _ _ Vy) as (Hey & _).
  unfold SFadd. simpl cond_Zopp.
  change (Z.pos ?a + Z.pos ?b) with (Z.pos (a + b)).
  unfold binary_normalize.
  set (ez := Z.min ex ey).
  replace (val mx ex + val my ey)
    with (Z.pos (fst (shl_align mx ex ez) + fst (shl_align my ey ez))
          * 2 ^ (ez - emin64)).
  - apply binary_round_presents. unfold ez. lia.
  - rewrite Pos2Z.inj_add, !shl_align_value by (unfold ez; lia).
    unfold val.
    replace (ex - emin64) with ((ex - ez) + (ez - emin64)) by lia.
    replace (ey - emin64) with ((ey - ez) + (ez - emin64)) by lia.
    rewrite !Z.pow_add_r by (unfold ez; lia). ring.
Qed.

Lemma val_nonneg (m : positive) (e : Z) : 0 <= val m e.
Proof.
  unfold val. apply Z.mul_nonneg_nonneg; [lia|apply Z.pow_nonneg; lia].
Qed.

Lemma SFleb_refl_positive (x : spec_float) :
  positive_sf x = true -> SFleb x x = true.
Proof.
  destruct x as [s|s| |s m e]; try destruct s; try discriminate; intros _.
  - reflexivity.
  - apply SFleb_finite. right. split; [reflexivity|lia].
Qed.

Lemma SFleb_infinity (x : spec_float) :
  nonneg_sf x = true -> SFleb x (S754_infinity false) = true.
Proof.
  destruct x as [s|s| |s m e]; try destruct s; try discriminate; reflexivity.
Qed.

Lemma positive_nonneg (x : spec_float) :
  positive_sf x = true -> nonneg_sf x = true.
Proof.
  destruct x as [s|s| |s m e]; try destruct s; try discriminate; reflexivity.
Qed.

Lemma SFadd_increasing (x y : spec_float) :
  valid_binary x = true -> valid_binary y = true ->
  nonneg_sf x = true -> positive_sf y = true ->
  SFleb x (SFadd prec emax x y) = true.
Proof.
  intros Vx Vy Hx Hy.
  destruct x as [sx|sx| |sx mx ex]; try destruct sx; try discriminate;
  destruct y as [sy|sy| |sy my ey]; try destruct sy; try discriminate;
    try reflexivity.
  pose proof (val_nonneg my ey).
  apply (presents_leb _ _ (val mx ex) 1 (val mx ex + val my ey) 1);
    [lia|lia|apply finite_presents; exact Vx|apply SFadd_presents; assumption|].
  lia.
Qed.

Lemma SFadd_monotone (x x' y : spec_float) :
  valid_binary x = true -> valid_binary x' = true -> valid_binary y = true ->
  nonneg_sf x = true -> SFleb x x' = true -> positive_sf y = true ->
  SFleb (SFadd prec emax x y) (SFadd prec emax x' y) = true.
Proof.
  intros Vx Vx' Vy Hx Hle Hy.
  destruct x as [sx|sx| |sx mx ex]; try destruct sx; try discriminate;
  destruct x' as [sx'|sx'| |sx' mx' ex']; try destruct sx'; try discriminate;
  destruct y as [sy|sy| |sy my ey]; try destruct sy; try discriminate;
    try reflexivity;
    try (apply SFleb_refl_positive; reflexivity).
  all: try (apply SFleb_infinity, positive_nonneg;
            eapply presents_positive; apply SFadd_presents; assumption).
  all: pose proof (val_nonneg mx' ex').
  - apply (presents_leb _ _ (val my ey) 1 (val mx' ex' + val my ey) 1);
      [lia|lia|apply finite_presents; exact Vy
      |apply SFadd_presents; assumption|lia].
  - apply (presents_leb _ _ (val my ey) 1 (val mx' ex' + val my ey) 1);
      [lia|lia|apply finite_presents; exact Vy
      |apply SFadd_presents; assumption|lia].
  - pose proof (SFleb_val _ _ _ _ Vx Vx' Hle).
    apply (presents_leb _ _ (val mx ex + val my ey) 1
             (val mx' ex' + val my ey) 1);
      [lia|lia|apply SFadd_presents; assumption
      |apply SFadd_presents; assumption|lia].
Qed.

(** Division by 100 and [toFixed2]. *)

Lemma unit64_pos : 0 < unit64.
Proof. unfold unit64. apply Z.pow_pos_nonneg; [lia|]. unfold emin64. simpl. lia. Qed.

Lemma div_core_100 (p : positive) :
  exists s,
    0 <= s <= 60 /\ 2 ^ 59 <= Z.pos p * 2 ^ s /\
    SFdiv_core_binary prec emax (Z.pos p) 0 100 0
    = ((Z.pos p * 2 ^ s) / 100, - s,
       new_location 100 ((Z.pos p * 2 ^ s) mod 100)).
Proof.
  pose proof (digits2_pos_bounds p) as [Blo Bhi].
  set (d1 := Z.pos (digits2_pos p)) in *.
  assert (Hd1 : 1 <= d1) by (unfold d1; lia).
  unfold SFdiv_core_binary. change (Zdigits2 100) with 7.
  simpl (Zdigits2 (Z.pos p)). fold d1.
  replace (d1 + 0 - (7 + 0)) with (d1 - 7) by lia. change (0 - 0) with 0.
  destruct (Z.le_gt_cases d1 60) as [Hle|Hgt].
  - exists (60 - d1).
    assert (He' : Z.min (fexp prec emax (d1 - 7)) 0 = d1 - 60).
    { unfold fexp, SpecFloat.emin, prec, emax. lia. }
    rewrite He'. replace (0 - (d1 - 60)) with (60 - d1) by lia.
    assert (Hm' : match 60 - d1 with
                  | 0 => Z.pos p
                  | Z.pos _ => Z.shiftl (Z.pos p) (60 - d1)
                  | Z.neg _ => 0
                  end = Z.pos p * 2 ^ (60 - d1)).
    { destruct (60 - d1) as [|k|k] eqn:Ek; [simpl; lia| |lia].
      apply Z.shiftl_mul_pow2. lia. }
    rewrite Hm'.
    split; [lia|]. split.
    + replace 59 with ((d1 - 1) + (60 - d1)) by lia.
      rewrite Z.pow_add_r by lia.
      apply Z.mul_le_mono_nonneg_r; [apply Z.pow_nonneg; lia|exact Blo].
    + unfold Z.div, Z.modulo.
      destruct (Z.div_eucl (Z.pos p * 2 ^ (60 - d1)) 100) as [q r].
      f_equal. f_equal. lia.
  - exists 0.
    assert (He' : Z.min (fexp prec emax (d1 - 7)) 0 = 0).
    { unfold fexp, SpecFloat.emin, prec, emax. lia. }
    rewrite He'. change (0 - 0) with 0. cbn iota.
    split; [lia|]. split.
    + rewrite Z.mul_1_r.
      assert (2 ^ 59 <= 2 ^ (d1 - 1)) by (apply Z.pow_le_mono_r; lia). lia.
    + rewrite Z.mul_1_r. unfold Z.div, Z.modulo.
      destruct (Z.div_eucl (Z.pos p) 100) as [q r]. reflexivity.
Qed.

Lemma code_new_location_100 (m' : Z) :
  0 <= m' ->
  code (shr_record_of_loc (m' / 100) (new_location 100 (m' mod 100)))
  = codeQ m' 100.
Proof.
  intros Hm. unfold new_location. change (Z.even 100) with true. cbn iota.
  unfold new_location_even, codeQ, position.
  destruct (m' mod 100 =? 0); [unfold code; simpl; lia|].
  destruct (2 * (m' mod 100) ?= 100); unfold code; simpl; lia.
Qed.

Lemma SFdiv_100_presents (p : positive) :
  presents (SFdiv prec emax (S754_finite false p 0) (S754_finite false 100 0))
           (Z.pos p * unit64) 100.
Proof.
  unfold SFdiv. destruct (div_core_100 p) as (s & Hs & Hbig & ->).
  simpl xorb.
  set (m' := Z.pos p * 2 ^ s) in *.
  assert (Hq : 2 ^ 52 <= m' / 100).
  { apply Z.div_le_lower_bound; [lia|]. 
    assert (100 * 2 ^ 52 <= 2 ^ 59) by (vm_compute; discriminate). lia. }
  destruct (m' / 100) as [|q|q] eqn:Eq; try (exfalso; change (2 ^ 52) with 4503599627370496 in Hq; lia).
  pose proof (pow_digits_ge q 52 Hq) as Hdq.
  assert (Hcode : code (shr_record_of_loc (Z.pos q) (new_location 100 (m' mod 100)))
                  = codeQ m' 100).
  { rewrite <- Eq. apply code_new_location_100. unfold m'. 
    apply Z.mul_nonneg_nonneg; [lia|apply Z.pow_nonneg; lia]. }
  destruct (binary_round_aux_round_pos q (- s) m' 100
              (new_location 100 (m' mod 100))
              ltac:(unfold m'; apply Z.mul_nonneg_nonneg; [lia|apply Z.pow_nonneg; lia])
              ltac:(lia) Hcode
              ltac:(unfold emin64, SpecFloat.emin, prec, emax; lia)
              ltac:(unfold fexp, SpecFloat.emin, prec, emax in *; lia))
    as [Hr Hf].
  set (n := fexp prec emax (Z.pos (digits2_pos q) + - s) - - s) in *.
  assert (Hn : 0 <= n) by (unfold n, fexp, SpecFloat.emin, prec, emax in *; lia).
  assert (Hpow : 0 < 2 ^ n) by (apply Z.pow_pos_nonneg; lia).
  exists m', (100 * 2 ^ n), (- s + n).
  split; [lia|]. split; [exact Hr|]. split; [exact Hf|].
  destruct Hf as (_ & _ & HE & _).
  unfold m', unit64.
  replace (Z.pos p * 2 ^ s * 2 ^ (- s + n - emin64) * 100)
    with (Z.pos p * (2 ^ s * 2 ^ (- s + n - emin64)) * 100) by ring.
  rewrite <- Z.pow_add_r by lia.
  replace (s + (- s + n - emin64)) with (- emin64 + n) by lia.
  rewrite Z.pow_add_r by (unfold emin64, SpecFloat.emin, prec, emax; lia).
  ring.
Qed.

Lemma val_unit (m : positive) (e : Z) :
  0 <= e -> val m e = Z.pos m * 2 ^ e * unit64.
Proof.
  intros He. unfold val, unit64.
  replace (e - emin64) with (e + - emin64) by lia.
  rewrite Z.pow_add_r by (unfold emin64, SpecFloat.emin, prec, emax; lia). ring.
Qed.

Lemma hundredths_val (m : positive) (e : Z) :
  emin64 <= e ->
  hundredths m e = (200 * val m e + unit64) / (2 * unit64).
Proof.
  intros He. pose proof unit64_pos as HP. unfold hundredths.
  destruct (Z.leb_spec 0 e) as [Hpos|Hneg].
  - rewrite (val_unit m e Hpos).
    replace (200 * (Z.pos m * 2 ^ e * unit64) + unit64)
      with ((2 * (Z.pos m * 100 * 2 ^ e) + 1) * unit64) by ring.
    rewrite Z.div_mul_cancel_r by lia.
    apply (Z.div_unique _ 2 _ 1); lia.
  - set (K := 2 ^ (e - emin64)).
    assert (HK : 0 < K) by (apply Z.pow_pos_nonneg; lia).
    assert (EP : unit64 = 2 ^ (- e) * K).
    { unfold unit64, K. rewrite <- Z.pow_add_r by lia. f_equal. lia. }
    assert (E2 : 2 * unit64 = 2 ^ (1 - e) * K).
    { rewrite EP. replace (1 - e) with (Z.succ (- e)) by lia.
      rewrite Z.pow_succ_r by lia. ring. }
    rewrite E2. unfold val. fold K. rewrite EP.
    replace (200 * (Z.pos m * K) + 2 ^ (- e) * K)
      with ((Z.pos m * 200 + 2 ^ (- e)) * K) by ring.
    rewrite Z.div_mul_cancel_r; [reflexivity| |lia].
    assert (0 < 2 ^ (1 - e)) by (apply Z.pow_pos_nonneg; lia). lia.
Qed.

Lemma hundredths_monotone_val (ma mb : positive) (ea eb : Z) :
  emin64 <= ea -> emin64 <= eb -> val ma ea <= val mb eb ->
  hundredths ma ea <= hundredths mb eb.
Proof.
  intros Ha Hb Hle. rewrite !hundredths_val by assumption.
  pose proof unit64_pos. apply Z.div_le_mono; lia.
Qed.

Lemma hundredths_nonneg (m : positive) (e : Z) :
  emin64 <= e -> 0 <= hundredths m e.
Proof.
  intros He. rewrite hundredths_val by assumption.
  pose proof unit64_pos. pose proof (val_nonneg m e).
  apply Z.div_pos; lia.
Qed.

Lemma Prim2SF_big : Prim2SF 1e21 = big.
Proof. vm_compute. reflexivity. Qed.

Lemma big_valid : valid_binary big = true.
Proof. reflexivity. Qed.

Lemma val_big : val 7629394531250000 17 = 10 ^ 21 * unit64.
Proof.
  rewrite val_unit by lia. f_equal.
Qed.

Lemma SFleb_false_val (ma mb : positive) (ea eb : Z) :
  valid_binary (S754_finite false ma ea) = true ->
  valid_binary (S754_finite false mb eb) = true ->
  SFleb (S754_finite false ma ea) (S754_finite false mb eb) = false ->
  val mb eb < val ma ea.
Proof.
  intros Va Vb. unfold SFleb. rewrite (SFcompare_aligned _ _ _ _ Va Vb).
  rewrite !shl_align_value by lia.
  destruct (canonical_digits _ _ Va) as (Hea & _).
  destruct (canonical_digits _ _ Vb) as (Heb & _).
  set (ez := Z.min ea eb).
  intros H.
  assert (Hlt : Z.pos mb * 2 ^ (eb - ez) < Z.pos ma * 2 ^ (ea - ez)).
  { destruct (Z.compare_spec (Z.pos ma * 2 ^ (ea - ez)) (Z.pos mb * 2 ^ (eb - ez)));
      try discriminate H. lia. }
  unfold val.
  replace (ea - emin64) with ((ea - ez) + (ez - emin64)) by lia.
  replace (eb - emin64) with ((eb - ez) + (ez - emin64)) by lia.
  rewrite !Z.pow_add_r by lia. rewrite !Z.mul_assoc.
  apply Z.mul_lt_mono_pos_r; [|exact Hlt].
  apply Z.pow_pos_nonneg; lia.
Qed.

Lemma abs_nonneg (x : float) :
  nonneg_sf (Prim2SF x) = true ->
  PrimFloat.leb 1e21 (abs x) = SFleb big (Prim2SF x).
Proof.
  intros Hx. rewrite leb_spec, abs_spec, Prim2SF_big.
  destruct (Prim2SF x) as [s|s| |s m e]; try destruct s; try discriminate; reflexivity.
Qed.

Lemma toFixed2_rounded (x : float) :
  nonneg_sf (Prim2SF x) = true ->
  rounded (Prim2SF x) (SFleb big (Prim2SF x)) (Prim2SF (toFixed2 x)).
Proof.
  intros Hx. unfold toFixed2. rewrite (abs_nonneg x Hx).
  pose proof (Prim2SF_valid x) as V.
  destruct (Prim2SF x) as [s|s| |s m e] eqn:EX; try discriminate.
  - change (Prim2SF zero) with (S754_zero false). eapply Rounded_zero. reflexivity.
  - destruct s; [discriminate|]. rewrite EX. apply Rounded_infinity. reflexivity.
  - destruct s; [discriminate|].
    destruct (SFleb big (S754_finite false m e)) eqn:Ebig.
    + rewrite EX. eapply Rounded_big; reflexivity.
    + destruct (canonical_digits m e V) as (He & _).
      pose proof (hundredths_nonneg m e He) as Hn.
      unfold parse_hundredths.
      destruct (hundredths m e) as [|p|p] eqn:En; [| |lia].
      * change (Prim2SF zero) with (S754_zero false).
        eapply Rounded_none; [reflexivity|reflexivity|exact En].
      * pose proof (SFdiv_100_presents p) as Hp.
        rewrite (Prim2SF_SF2Prim _ (presents_valid _ _ _ Hp)).
        eapply Rounded_some; [reflexivity|reflexivity|exact En|exact Hp].
Qed.

Lemma SFleb_zero_nonneg (x : spec_float) :
  nonneg_sf x = true -> SFleb (S754_zero false) x = true.
Proof.
  destruct x as [s|s| |s m e]; try destruct s; try discriminate; reflexivity.
Qed.

Lemma nonneg_above (x y : spec_float) :
  nonneg_sf x = true -> SFleb x y = true -> nonneg_sf y = true.
Proof.
  destruct x as [sx|sx| |sx mx ex]; try destruct sx; try discriminate;
  destruct y as [sy|sy| |sy my ey]; try destruct sy; try discriminate;
    reflexivity.
Qed.

Lemma rounded_nonneg (X R : spec_float) (b : bool) :
  rounded X b R -> nonneg_sf R = true.
Proof.
  intros [s E|E|m e E Hb|m e E Hb Hn|m e p r E Hb Hn Hp]; subst;
    try reflexivity.
  apply positive_nonneg. eapply presents_positive. exact Hp.
Qed.

(** Below [1e21] the hundredths stay at or below [1e23]. *)
Lemma hundredths_below_big (m : positive) (e : Z) :
  valid_binary (S754_finite false m e) = true ->
  SFleb big (S754_finite false m e) = false ->
  hundredths m e <= 10 ^ 23.
Proof.
  intros V Hb. destruct (canonical_digits m e V) as (He & _).
  pose proof (SFleb_false_val _ _ _ _ big_valid V Hb) as Hlt.
  rewrite val_big in Hlt. rewrite hundredths_val by assumption.
  pose proof unit64_pos.
  assert ((200 * val m e + unit64) / (2 * unit64) < 10 ^ 23 + 1); [|lia].
  apply Z.div_lt_upper_bound; [lia|].
  change (10 ^ 23) with (100 * 10 ^ 21). change (10 ^ 21) with 1000000000000000000000 in *.
  lia.
Qed.

Lemma rounded_below_big (m : positive) (e : Z) (p : positive) (r : spec_float) :
  valid_binary (S754_finite false m e) = true ->
  SFleb big (S754_finite false m e) = false ->
  hundredths m e = Z.pos p -> presents r (Z.pos p * unit64) 100 ->
  SFleb r big = true.
Proof.
  intros V Hb Hn Hp.
  pose proof (hundredths_below_big m e V Hb) as Hle. rewrite Hn in Hle.
  apply (presents_leb _ _ (Z.pos p * unit64) 100 (val 7629394531250000 17) 1);
    [lia|lia|exact Hp|apply (finite_presents _ _ big_valid)|].
  rewrite val_big. pose proof unit64_pos.
  change (10 ^ 23) with (100 * 10 ^ 21) in Hle.
  change (10 ^ 21) with 1000000000000000000000 in *. nia.
Qed.

Lemma rounded_monotone (A B RA RB : spec_float) :
  valid_binary A = true -> valid_binary B = true ->
  SFleb A B = true ->
  rounded A (SFleb big A) RA -> rounded B (SFleb big B) RB ->
  SFleb RA RB = true.
Proof.
  intros VA VB Hle HA HB.
  pose proof (rounded_nonneg _ _ _ HB) as HRB.
  destruct HA as [s EA|EA|ma ea EA Hba|ma ea EA Hba Hna|ma ea pa ra EA Hba Hna Hpa].
  - apply SFleb_zero_nonneg. exact HRB.
  - subst A.
    destruct HB as [s EB|EB|mb eb EB Hbb|mb eb EB Hbb Hnb|mb eb pb rb EB Hbb Hnb Hpb];
      subst B; try discriminate Hle; reflexivity.
  - subst A.
    destruct HB as [s EB|EB|mb eb EB Hbb|mb eb EB Hbb Hnb|mb eb pb rb EB Hbb Hnb Hpb];
      subst B; try discriminate Hle; try exact Hle.
    + rewrite (SFleb_trans _ _ _ Hba Hle) in Hbb. discriminate.
    + rewrite (SFleb_trans _ _ _ Hba Hle) in Hbb. discriminate.
  - apply SFleb_zero_nonneg. exact HRB.
  - subst A.
    destruct HB as [s EB|EB|mb eb EB Hbb|mb eb EB Hbb Hnb|mb eb pb rb EB Hbb Hnb Hpb];
      subst B; try discriminate Hle.
    + apply SFleb_infinity, positive_nonneg. eapply presents_positive. exact Hpa.
    + apply (SFleb_trans _ big _); [|exact Hbb].
      apply (rounded_below_big ma ea pa ra VA Hba Hna Hpa).
    + exfalso.
      destruct (canonical_digits _ _ VA) as (Hea & _).
      destruct (canonical_digits _ _ VB) as (Heb & _).
      pose proof (hundredths_monotone_val ma mb ea eb Hea Heb
                    (SFleb_val _ _ _ _ VA VB Hle)). lia.
    + destruct (canonical_digits _ _ VA) as (Hea & _).
      destruct (canonical_digits _ _ VB) as (Heb & _).
      pose proof (hundredths_monotone_val ma mb ea eb Hea Heb
                    (SFleb_val _ _ _ _ VA VB Hle)) as Hh.
      rewrite Hna, Hnb in Hh. pose proof unit64_pos.
      apply (presents_leb _ _ (Z.pos pa * unit64) 100 (Z.pos pb * unit64) 100);
        [lia|lia|exact Hpa|exact Hpb|nia].
Qed.

Lemma float_toFixed2_monotone (a b : float) :
  PrimFloat.leb zero a = true -> PrimFloat.leb a b = true ->
  PrimFloat.leb (toFixed2 a) (toFixed2 b) = true.
Proof.
  rewrite leb_zero_nonneg, !leb_spec. intros Ha Hle.
  pose proof (nonneg_above _ _ Ha Hle) as Hb.
  apply (rounded_monotone (Prim2SF a) (Prim2SF b));
    [apply Prim2SF_valid|apply Prim2SF_valid|exact Hle
    |apply toFixed2_rounded; exact Ha|apply toFixed2_rounded; exact Hb].
Qed.

#[global] Instance monotone_sums : MonotoneSums float.
Proof.
  split.
  - reflexivity.
  - intros a b c. unfold leb; simpl. rewrite !leb_spec. apply SFleb_trans.
  - intros o t b Ho Hot Hb. unfold leb, gtb, ltb, add in *; simpl in *.
    change (Binary64.of_Z 0) with zero in *.
    rewrite leb_zero_nonneg in Ho. rewrite ltb_zero_positive in Hb.
    rewrite leb_spec in Hot. rewrite leb_spec, !add_spec.
    apply SFadd_monotone; try apply Prim2SF_valid; assumption.
  - intros t b Ht Hb. unfold leb, gtb, ltb, add in *; simpl in *.
    change (Binary64.of_Z 0) with zero in *.
    rewrite leb_zero_nonneg in Ht. rewrite ltb_zero_positive in Hb.
    rewrite leb_spec, add_spec.
    apply SFadd_increasing; try apply Prim2SF_valid; assumption.
  - intros a b Ha Hab. simpl in *.
    change (Binary64.of_Z 0) with zero in *.
    apply float_toFixed2_monotone; assumption.
Qed.

(** Rounding a negative number is rounding its opposite. *)
Lemma binary_round_aux_opp (m e : Z) (l : location) :
  binary_round_aux prec emax true m e l
  = SFopp (binary_round_aux prec emax false m e l).
Proof.
  unfold binary_round_aux.
  destruct (shr_fexp prec emax m e l) as [mrs1 e1].
  destruct (shr_fexp prec emax _ e1 loc_Exact) as [mrs2 e2].
  destruct (shr_m mrs2); try reflexivity.
  destruct (e2 <=? emax - prec); reflexivity.
Qed.

Lemma binary_round_opp (m : positive) (e : Z) :
  binary_round prec emax true m e = SFopp (binary_round prec emax false m e).
Proof.
  unfold binary_round.
  destruct (shl_align m e (fexp prec emax (Z.pos (digits2_pos m) + e))).
  apply binary_round_aux_opp.
Qed.

Lemma of_Z_sign (z : Z) :
  valid_binary (binary_normalize prec emax z 0 false) = true /\
  positive_sf (binary_normalize prec emax z 0 false) = (0 <? z).
Proof.
  assert (Hemin : emin64 <= 0) by (vm_compute; discriminate).
  destruct z as [|p|p]; unfold binary_normalize.
  - split; reflexivity.
  - pose proof (binary_round_presents p 0 Hemin) as Hp. split.
    + exact (presents_valid _ _ _ Hp).
    + exact (presents_positive _ _ _ Hp).
  - pose proof (binary_round_presents p 0 Hemin) as Hp.
    rewrite binary_round_opp.
    pose proof (presents_valid _ _ _ Hp) as Hv.
    pose proof (presents_positive _ _ _ Hp) as Hpos.
    destruct (binary_round prec emax false p 0) as [s|s| |s m e];
      try discriminate; destruct s; try discriminate; split;
      try reflexivity; exact Hv.
Qed.

#[global] Instance integer_signs : IntegerSigns float.
Proof.
  split. intros z. unfold gtb. simpl ltb. simpl of_Z.
  change (Binary64.of_Z 0) with zero.
  rewrite ltb_zero_positive. unfold Binary64.of_Z.
  destruct (of_Z_sign z) as [Hv Hs].
  rewrite Prim2SF_SF2Prim by exact Hv. exact Hs.
Qed.

End Binary64Laws.

(** ** The program on doubles: runs of the handlers *)

Section Runs.

Local Open Scope float_scope.

(** C1. An item whose [tax_rate] is the number 0 is charged the global
    rate: the request below passes validation and is stored with
    [total_amount = 110], on creation and on update, where the formula of
    the specification gives 100. The same item with its rate sent as the
    string ["0"] is stored with 100. *)
Theorem zero_tax_rate_takes_global_rate :
  invoiceValidationRules (num:=float) Sample.exempt_line = true /\
  option_map inv_total_amount
    (hd_error
       (invoices
          (snd (invoiceRouter_post (num:=float) Sample.db0 Sample.alice
                  Sample.exempt_line "i-9" 2025 1000))))
  = Some 110 /\
  option_map inv_total_amount
    (hd_error
       (invoices
          (snd (invoiceRouter_put (num:=float) Sample.db1 Sample.alice "i-1"
                  Sample.exempt_line 3000))))
  = Some 110 /\
  total_amount_spec (num:=float) (items Sample.exempt_line)
    (d_global_tax_rate (invoiceData Sample.exempt_line))
  = 100 /\
  total_amount (num:=float) [Sample.line 1 100 (JString 0)] (JNumber 10)
  = 100.
Proof. vm_compute. repeat split. Qed.

(** C4. After two invoices are created, the first is deleted and a third
    is created, the two invoices in the store carry the same number. *)
Theorem invoice_number_reused_after_delete :
  map (fun inv => (inv_id inv, inv_invoice_number inv))
      (invoices (Sample.db_two (num:=float)))
  = [("i-1", "INV-2025-00001"); ("i-2", "INV-2025-00002")] /\
  map (fun inv => (inv_id inv, inv_invoice_number inv))
      (invoices (Sample.db_third (num:=float)))
  = [("i-2", "INV-2025-00002"); ("i-3", "INV-2025-00002")].
Proof. vm_compute. split; reflexivity. Qed.



End Runs.

(** ** The properties at the sample data *)

Section Witnesses.

(** A payment of 100.00 on a cancelled invoice of 270.00, on doubles: the
    invoice becomes partially paid. *)
Lemma record_payment_derives_status_witness :
  gtb (of_Z 0 : float) (of_Z 0) = false /\
  paymentValidationRules (num:=float) (Sample.cash (of_Z 100) 2000) = true /\
  find (owns_invoice "i-1" Sample.alice)
       (invoices (Sample.db_cancelled (num:=float)))
  = Some (Sample.invoice1 cancelled 1000) /\
  exists newPayment db' invoice',
    invoiceRouter_post_payments (num:=float) Sample.db_cancelled Sample.alice
      "i-1" (Sample.cash (of_Z 100) 2000) "p-1" 2000
    = (Reply 201 newPayment, db') /\
    payments db' = payments Sample.db_cancelled ++ [newPayment] /\
    find (owns_invoice "i-1" Sample.alice) (invoices db') = Some invoice' /\
    inv_status invoice' = partially_paid.
Proof.
  assert (Hzero : gtb (of_Z 0 : float) (of_Z 0) = false)
    by (vm_compute; reflexivity).
  assert (Hvalid : paymentValidationRules (num:=float)
                     (Sample.cash (of_Z 100) 2000) = true)
    by (vm_compute; reflexivity).
  assert (Hfound : find (owns_invoice "i-1" Sample.alice)
                     (invoices (Sample.db_cancelled (num:=float)))
                   = Some (Sample.invoice1 cancelled 1000))
    by (vm_compute; reflexivity).
  split; [exact Hzero|]. split; [exact Hvalid|]. split; [exact Hfound|].
  destruct (record_payment_derives_status (num:=float) Sample.db_cancelled
              Sample.alice "i-1" "p-1" 2000 Hzero) as [Hrecorded _].
  destruct (Hrecorded (Sample.cash (of_Z 100) 2000)
              (Sample.invoice1 cancelled 1000) Hvalid Hfound)
    as (p & db' & inv' & Hrun & Hpay & Hid & Ham & Hfind & Hstatus).
  exists p, db', inv'. split; [exact Hrun|]. split; [exact Hpay|].
  split; [exact Hfind|].
  rewrite Hstatus. unfold totalPaid.
  rewrite Hpay, filter_app, fold_left_app.
  cbn [List.filter]. rewrite Hid, String.eqb_refl.
  cbn [fold_left]. rewrite Ham. vm_compute. reflexivity.
Defined.

(** Deleting the invoice of [Sample.db2], which has one payment. *)
Lemma delete_invoice_cascades_witness :
  In (Sample.invoice1 partially_paid 2000)
     (invoices (Sample.db2 (num:=float))) /\
  owns_invoice "i-1" Sample.alice
    (Sample.invoice1 (num:=float) partially_paid 2000) = true /\
  exists db',
    invoiceRouter_delete (num:=float) Sample.db2 Sample.alice "i-1"
    = (Reply 204 tt, db') /\
    invoiceRouter_get_payments db' Sample.alice "i-1"
    = Failure 404 "Invoice not found or access denied.".
Proof.
  assert (Hin : In (Sample.invoice1 partially_paid 2000)
                   (invoices (Sample.db2 (num:=float))))
    by (left; vm_compute; reflexivity).
  assert (Hown : owns_invoice "i-1" Sample.alice
                   (Sample.invoice1 (num:=float) partially_paid 2000) = true)
    by (vm_compute; reflexivity).
  split; [exact Hin|]. split; [exact Hown|].
  destruct (delete_invoice_cascades (num:=float) Sample.db2 Sample.alice
              "i-1" (Sample.invoice1 partially_paid 2000) Hin Hown)
    as (db' & Hrun & _ & _ & _ & _ & Hget & _).
  exists db'. split; [exact Hrun|exact Hget].
Defined.

(** The payment that leads from [Sample.db1] to [Sample.db2]. *)
Lemma record_payment_frame_witness :
  invoiceRouter_post_payments (num:=float) Sample.db1 Sample.alice "i-1"
    (Sample.cash (of_Z 100) 2000) "p-1" 2000
  = (Reply 201 Sample.payment1, Sample.db2) /\
  clients (Sample.db2 (num:=float)) = clients (Sample.db1 (num:=float)) /\
  exists before invoice invoice' after,
    invoices (Sample.db1 (num:=float)) = before ++ invoice :: after /\
    invoices (Sample.db2 (num:=float)) = before ++ invoice' :: after /\
    inv_total_amount invoice' = inv_total_amount invoice.
Proof.
  assert (Hrun : invoiceRouter_post_payments (num:=float) Sample.db1
                   Sample.alice "i-1" (Sample.cash (of_Z 100) 2000) "p-1"
                   2000
                 = (Reply 201 Sample.payment1, Sample.db2))
    by (vm_compute; reflexivity).
  split; [exact Hrun|].
  destruct (record_payment_frame (num:=float) _ _ _ _ _ _ _ _ Hrun)
    as (_ & _ & Hclients & before & inv & inv' & after & Hsplit & Hsplit'
        & _ & _ & _ & _ & _ & _ & _ & _ & _ & Htotal & _).
  split; [exact Hclients|].
  exists before, inv, inv', after. auto.
Defined.

(** A second payment, of 170.00, on doubles: the invoice is paid. *)
Lemma record_payment_settles_status_witness :
  paymentValidationRules (num:=float) (Sample.cash (of_Z 170) 3000) = true /\
  find (owns_invoice "i-1" Sample.alice) (invoices (Sample.db2 (num:=float)))
  = Some (Sample.invoice1 partially_paid 2000) /\
  exists newPayment db' invoice',
    invoiceRouter_post_payments (num:=float) Sample.db2 Sample.alice "i-1"
      (Sample.cash (of_Z 170) 3000) "p-2" 3000
    = (Reply 201 newPayment, db') /\
    find (owns_invoice "i-1" Sample.alice) (invoices db') = Some invoice' /\
    (inv_status invoice' = paid \/ inv_status invoice' = partially_paid).
Proof.
  assert (Hvalid : paymentValidationRules (num:=float)
                     (Sample.cash (of_Z 170) 3000) = true)
    by (vm_compute; reflexivity).
  assert (Hfound : find (owns_invoice "i-1" Sample.alice)
                     (invoices (Sample.db2 (num:=float)))
                   = Some (Sample.invoice1 partially_paid 2000))
    by (vm_compute; reflexivity).
  split; [exact Hvalid|]. split; [exact Hfound|].
  assert (Hold : forall p : Payment float,
             In p (payments Sample.db2) -> pay_invoiceId p = "i-1" ->
             gtb (pay_amount p) (of_Z 0) = true).
  { intros p Hin _. vm_compute in Hin. destruct Hin as [<-|[]].
    vm_compute. reflexivity. }
  destruct (record_payment_settles_status (num:=float) Sample.db2 Sample.alice
              "i-1" (Sample.cash (of_Z 170) 3000) "p-2" 3000
              (Sample.invoice1 partially_paid 2000) Hvalid Hfound Hold)
    as (p & db' & inv' & Hrun & Hfind & _ & Hstatus).
  exists p, db', inv'. auto.
Defined.

(** The summary of [Sample.db2] on doubles. *)
Lemma summary_overdue_le_outstanding_witness :
  leb
    (total_overdue
       (reportRouter_get_summary (num:=float) Sample.db2 Sample.alice 3000))
    (total_outstanding
       (reportRouter_get_summary (num:=float) Sample.db2 Sample.alice 3000))
  = true.
Proof.
  apply (summary_overdue_le_outstanding (num:=float) Sample.db2 Sample.alice
           3000).
Defined.

(** The revenue report of [Sample.db2] on doubles, asked by a caller
    who is not an administrator. *)
Lemma revenue_by_client_report_witness :
  authorizeRole ["admin"; "user"] Sample.alice = true /\
  exists data,
    reportRouter_get_revenue_by_client (num:=float) Sample.db2 Sample.alice
      (Some "u-bob")
    = Reply 200 data /\
    targetUserId Sample.alice (Some "u-bob") = "u-alice" /\
    StronglySorted descending data.
Proof.
  assert (Hauth : authorizeRole ["admin"; "user"] Sample.alice = true)
    by (vm_compute; reflexivity).
  split; [exact Hauth|].
  destruct (revenue_by_client_report (num:=float) Sample.db2 Sample.alice
              (Some "u-bob") Hauth)
    as (data & Hrun & Htarget & _ & _ & Hsorted).
  exists data. split; [exact Hrun|]. split; [|exact Hsorted].
  apply Htarget. reflexivity.
Defined.


End Witnesses.

(** ** The further properties at the sample data *)

Section FurtherWitnesses.

Local Open Scope float_scope.

(** The elements of a list that evaluates to a literal, one by one. *)
Ltac each_of H :=
  vm_compute in H;
  repeat (destruct H as [H|H]; [subst|]); try contradiction.

(** The store with one invoice and the store in which the first of two
    invoices was deleted draw the same number. *)
Lemma invoice_number_injective_witness :
  generateInvoiceNumber (num:=float) Sample.db1 2025
  = generateInvoiceNumber (num:=float) Sample.db_after_delete 2025 /\
  List.length (invoices (Sample.db1 (num:=float)))
  = List.length (invoices (Sample.db_after_delete (num:=float))).
Proof.
  assert (Hsame : generateInvoiceNumber (num:=float) Sample.db1 2025
                  = generateInvoiceNumber (num:=float)
                      Sample.db_after_delete 2025)
    by (vm_compute; reflexivity).
  split; [exact Hsame|].
  exact (proj2 (invoice_number_injective _ _ _ _ Hsame)).
Defined.



(** The same update, twice. *)
Lemma update_invoice_idempotent_witness :
  exists updated db',
    invoiceRouter_put (num:=float) Demo.store Sample.alice "i-2"
      Sample.exempt_line 3000
    = (Reply 200 updated, db') /\
    invoiceRouter_put db' Sample.alice "i-2" Sample.exempt_line 3000
    = (Reply 200 updated, db').
Proof.
  destruct (invoiceRouter_put (num:=float) Demo.store Sample.alice "i-2"
              Sample.exempt_line 3000)
    as [[code updated|code message] db'] eqn:Hrun;
    [|vm_compute in Hrun; discriminate Hrun].
  assert (code = 200%nat) as ->
    by (pose proof Hrun as Hc; vm_compute in Hc; congruence).
  exists updated, db'. split; [reflexivity|].
  exact (update_invoice_idempotent _ _ _ _ _ _ _ Hrun eq_refl eq_refl).
Defined.

(** A second payment, of 50.00, on the first invoice of the sample
    store. *)
Lemma recorded_payment_is_listed_witness :
  exists newPayment db',
    invoiceRouter_post_payments (num:=float) Demo.store Sample.alice "i-1"
      (Sample.cash (of_Z 50) 3000) "p-2" 3000
    = (Reply 201 newPayment, db') /\
    invoiceRouter_get_payments db' Sample.alice "i-1"
    = Reply 200 [Sample.payment1; newPayment].
Proof.
  destruct (invoiceRouter_post_payments (num:=float) Demo.store Sample.alice
              "i-1" (Sample.cash (of_Z 50) 3000) "p-2" 3000)
    as [[code newPayment|code message] db'] eqn:Hrun;
    [|vm_compute in Hrun; discriminate Hrun].
  assert (code = 201%nat) as ->
    by (pose proof Hrun as Hc; vm_compute in Hc; congruence).
  destruct (recorded_payment_is_listed _ _ _ _ _ _ _ _ Hrun)
    as (before & Hbefore & Hafter).
  exists newPayment, db'. split; [reflexivity|].
  rewrite Hafter. vm_compute in Hbefore. injection Hbefore as <-.
  reflexivity.
Defined.

(** Once 100.00 and 170.00 are paid on an invoice of 270.00, a payment of
    10.00 leaves it paid. *)
Lemma covered_invoice_stays_paid_witness :
  let db :=
    run (Demo.history (num:=float)
         ++ [PostPayment Sample.alice "i-1" (Sample.cash (of_Z 170) 2500)
               "p-2" 2500]) in
  geb (totalPaid (payments db) "i-1") (of_Z 270) = true /\
  exists newPayment db' invoice',
    invoiceRouter_post_payments db Sample.alice "i-1"
      (Sample.cash (of_Z 10) 3000) "p-3" 3000
    = (Reply 201 newPayment, db') /\
    find (owns_invoice "i-1" Sample.alice) (invoices db') = Some invoice' /\
    inv_status invoice' = paid.
Proof.
  intros db.
  assert (Hvalid : paymentValidationRules (num:=float)
                     (Sample.cash (of_Z 10) 3000) = true)
    by (vm_compute; reflexivity).
  assert (Hfind : find (owns_invoice "i-1" Sample.alice) (invoices db)
                  = Some (Sample.invoice1 paid 2500))
    by (vm_compute; reflexivity).
  assert (Hpositive : forall p, In p (payments db) ->
                        pay_invoiceId p = "i-1" ->
                        gtb (pay_amount p) (of_Z 0) = true)
    by (intros p Hin _; each_of Hin; vm_compute; reflexivity).
  assert (Hcovered : geb (totalPaid (payments db) "i-1")
                       (inv_total_amount (Sample.invoice1 (num:=float) paid
                                            2500)) = true)
    by (vm_compute; reflexivity).
  split; [vm_compute; reflexivity|].
  exact (covered_invoice_stays_paid db Sample.alice "i-1"
           (Sample.cash (of_Z 10) 3000) "p-3" 3000
           (Sample.invoice1 paid 2500) Hvalid Hfind Hpositive Hcovered).
Defined.




(** A second client of Alice. *)
Lemma created_client_is_fetched_witness :
  exists newClient db',
    clientRouter_post (num:=float) Demo.store Sample.alice Demo.globex "c-2"
      300
    = (Reply 201 newClient, db') /\
    cl_name newClient = "Globex" /\
    clientRouter_get db' Sample.alice "c-2" = Reply 200 newClient.
Proof.
  destruct (clientRouter_post (num:=float) Demo.store Sample.alice
              Demo.globex "c-2" 300)
    as [[code newClient|code message] db'] eqn:Hrun;
    [|vm_compute in Hrun; discriminate Hrun].
  assert (code = 201%nat) as ->
    by (pose proof Hrun as Hc; vm_compute in Hc; congruence).
  assert (Hfresh : forall c, In c (clients (Demo.store (num:=float))) ->
                     cl_id c <> "c-2")
    by (intros c Hin; each_of Hin; vm_compute; discriminate).
  destruct (created_client_is_fetched _ _ _ _ _ _ _ Hrun Hfresh)
    as (_ & _ & _ & Hname & _ & Hget).
  exists newClient, db'. split; [reflexivity|].
  split; [rewrite Hname; reflexivity|exact Hget].
Defined.

(** The client of the sample store is renamed; its phone number is not
    in the body and is cleared. *)
Lemma update_client_frame_witness :
  exists updated db',
    clientRouter_put (num:=float) Demo.store Sample.alice "c-acme"
      Demo.globex 400
    = (Reply 200 updated, db') /\
    cl_id updated = "c-acme" /\ cl_phone updated = None /\
    invoices db' = invoices (Demo.store (num:=float)).
Proof.
  destruct (clientRouter_put (num:=float) Demo.store Sample.alice "c-acme"
              Demo.globex 400)
    as [[code updated|code message] db'] eqn:Hrun;
    [|vm_compute in Hrun; discriminate Hrun].
  assert (code = 200%nat) as ->
    by (pose proof Hrun as Hc; vm_compute in Hc; congruence).
  destruct (update_client_frame _ _ _ _ _ _ _ Hrun)
    as (_ & _ & Hinvoices & _ & before & old & after & Hsplit & _ & _ & Hown
        & Hid & _ & _ & _ & _ & Hphone & _).
  exists updated, db'. split; [reflexivity|].
  split; [|split; [exact Hphone|exact Hinvoices]].
  rewrite Hid. unfold owns_client in Hown.
  apply andb_true_iff in Hown. apply String.eqb_eq. tauto.
Defined.

(** The client of [Sample.db1] is deleted; its invoice stays. *)
Lemma delete_client_keeps_invoices_witness :
  exists db',
    clientRouter_delete (num:=float) Sample.db1 Sample.alice "c-acme"
    = (Reply 204 tt, db') /\
    invoices db' = invoices (Sample.db1 (num:=float)) /\
    clientRouter_get db' Sample.alice "c-acme"
    = Failure 404 "Client not found or access denied.".
Proof.
  assert (Hin : In Sample.acme (clients (Sample.db1 (num:=float))))
    by (left; reflexivity).
  destruct (delete_client_keeps_invoices (num:=float) Sample.db1
              Sample.alice "c-acme" Sample.acme Hin eq_refl)
    as (db' & Hrun & _ & _ & _ & Hinvoices & _ & Hget & _).
  exists db'. split; [exact Hrun|]. split; [exact Hinvoices|exact Hget].
Defined.

(** The sample history creates and updates, and deletes nothing. *)
Lemma invoice_numbers_unique_without_delete_witness :
  Forall plain (Demo.history (num:=float)) /\
  NoDup (map inv_invoice_number (invoices (Demo.store (num:=float)))).
Proof.
  assert (Hplain : Forall plain (Demo.history (num:=float)))
    by (repeat constructor).
  split; [exact Hplain|].
  exact (invoice_numbers_unique_without_delete Demo.history Hplain eq_refl).
Defined.

(** The payment of the sample store belongs to its first invoice. *)
Lemma no_payment_without_invoice_witness :
  In Sample.payment1 (payments (Demo.store (num:=float))) /\
  exists invoice,
    In invoice (invoices (Demo.store (num:=float))) /\
    inv_id invoice = "i-1".
Proof.
  assert (Hplain : Forall plain (Demo.history (num:=float)))
    by (repeat constructor).
  assert (Hin : In Sample.payment1 (payments (Demo.store (num:=float))))
    by (left; reflexivity).
  split; [exact Hin|].
  exact (no_payment_without_invoice Demo.history Hplain Sample.payment1 Hin).
Defined.

Lemma client_emails_unique_without_update_witness :
  NoDup (map (fun c => (cl_userId c, cl_email c))
             (clients (Demo.store (num:=float)))).
Proof.
  exact (client_emails_unique_without_update (num:=float) Demo.history
           eq_refl).
Defined.

(** Five items, two to a page. *)
Lemma page_size_bounded_witness :
  (Z.of_nat
     (List.length (data (paginate [1; 2; 3; 4; 5]%Z (Some (Finite 3))
                           (Some (Finite 2)))))
   <= 2)%Z.
Proof.
  apply (page_size_bounded [1; 2; 3; 4; 5]%Z (Some (Finite 3))
           (Some (Finite 2)) 2 eq_refl).
  reflexivity.
Defined.

Lemma pages_tile_witness :
  exists m : nat,
    totalPages (paginate [1; 2; 3; 4; 5]%Z None (Some (Finite 2)))
    = Some (Z.of_nat m) /\
    List.concat
      (map (fun k =>
              data (paginate [1; 2; 3; 4; 5]%Z (Some (Finite (Z.of_nat k)))
                      (Some (Finite 2))))
           (seq 1 m))
    = [1; 2; 3; 4; 5]%Z.
Proof.
  destruct (pages_tile [1; 2; 3; 4; 5]%Z (Some (Finite 2)) 2 eq_refl
              eq_refl)
    as (m & Htotal & Hconcat & _).
  exists m. split; [apply Htotal|exact Hconcat].
Defined.

(** The list of the invoices of Alice, on doubles. *)
Lemma invoice_list_sorted_witness :
  StronglySorted
    (fun a b =>
       (inv_invoice_date (listed b) <= inv_invoice_date (listed a))%Z)
    (data (invoiceRouter_list (num:=float) Demo.store Sample.alice None None
             None None)).
Proof.
  exact (proj1 (invoice_list_sorted (num:=float) Demo.store Sample.alice
                  None None None None)).
Defined.

(** A header with the scheme [Basic] and a third word. *)
Lemma token_is_second_word_witness :
  authenticateToken (Some "Basic u-bob|bob@example.com|Bob extra") 0
  = Reply 200 Demo.bob.
Proof.
  assert (Hscheme : ~ In " "%char (list_ascii_of_string "Basic"))
    by (vm_compute; intuition discriminate).
  assert (Ht : ~ In " "%char
                 (list_ascii_of_string "u-bob|bob@example.com|Bob"))
    by (vm_compute; intuition discriminate).
  destruct (token_is_second_word "Basic" "u-bob|bob@example.com|Bob" "extra"
              0 Hscheme Ht) as (_ & Hsecond & _).
  exact Hsecond.
Defined.

(** Alice registers and logs in. *)
Lemma registered_user_logs_in_witness :
  exists db',
    authRouter_post_register (num:=float) emptyDb Demo.registration "u-alice"
      "salt" 100
    = (Reply 201 "User registered successfully.", db') /\
    authRouter_post_login db'
      {| lb_email := "Alice@Example.com"; lb_password := "secret1" |} 5000
    = Reply 200
        {| token := "u-alice|alice@example.com|Alice";
           login_user := Sample.alice |} /\
    authRouter_post_login db'
      {| lb_email := "Alice@Example.com"; lb_password := "secret2" |} 5000
    = Failure 401 "Invalid email or password.".
Proof.
  exists (snd (authRouter_post_register (num:=float) emptyDb
                 Demo.registration "u-alice" "salt" 100)).
  assert (Hrun : authRouter_post_register (num:=float) emptyDb
                   Demo.registration "u-alice" "salt" 100
                 = (Reply 201 "User registered successfully.",
                    snd (authRouter_post_register (num:=float) emptyDb
                           Demo.registration "u-alice" "salt" 100)))
    by (vm_compute; reflexivity).
  destruct (registered_user_logs_in _ _ _ _ _ _ 5000%Z _ Hrun eq_refl)
    as [Hlogin Hwrong].
  split; [exact Hrun|]. split.
  - exact (Hlogin eq_refl).
  - exact (Hwrong "secret2" eq_refl).
Defined.

Lemma registered_user_has_settings_witness :
  exists db',
    authRouter_post_register (num:=float) emptyDb Demo.registration "u-alice"
      "salt" 100
    = (Reply 201 "User registered successfully.", db') /\
    userRouter_get_settings db' Sample.alice
    = (Reply 200 (initialSettings "Alice"), db').
Proof.
  exists (snd (authRouter_post_register (num:=float) emptyDb
                 Demo.registration "u-alice" "salt" 100)).
  assert (Hrun : authRouter_post_register (num:=float) emptyDb
                   Demo.registration "u-alice" "salt" 100
                 = (Reply 201 "User registered successfully.",
                    snd (authRouter_post_register (num:=float) emptyDb
                           Demo.registration "u-alice" "salt" 100)))
    by (vm_compute; reflexivity).
  split; [exact Hrun|].
  exact (registered_user_has_settings _ _ _ _ _ _ _ Sample.alice Hrun
           eq_refl).
Defined.

(** Alice logs in to the sample store and asks for her status. *)
Lemma login_token_opens_session_witness :
  authRouter_post_login (num:=float) Demo.store
    {| lb_email := "alice@example.com"; lb_password := "secret1" |} 5000
  = Reply 200
      {| token := "u-alice|alice@example.com|Alice";
         login_user := Sample.alice |} /\
  authRouter_get_status (num:=float) Demo.store
    (Some "Bearer u-alice|alice@example.com|Alice") 6000
  = Reply 200 Sample.alice.
Proof.
  assert (Hlogin : authRouter_post_login (num:=float) Demo.store
                     {| lb_email := "alice@example.com";
                        lb_password := "secret1" |} 5000
                   = Reply 200
                       {| token := "u-alice|alice@example.com|Alice";
                          login_user := Sample.alice |})
    by (vm_compute; reflexivity).
  assert (Hids : NoDup (map user_id (users (Demo.store (num:=float)))))
    by (vm_compute; repeat constructor; intros []).
  assert (Hspace : ~ In " "%char
                     (list_ascii_of_string
                        "u-alice|alice@example.com|Alice"))
    by (vm_compute; intuition discriminate).
  split; [exact Hlogin|].
  exact (proj1 (proj2 (login_token_opens_session _ _ _ 6000%Z _ Hlogin Hids
                         Hspace eq_refl))).
Defined.

(** Alice asks to delete an invoice that is not there, and registers a
    second time. *)
Lemma failed_invoice_request_changes_nothing_witness :
  invoiceRouter_delete (num:=float) Demo.store Sample.alice "i-7"
  = (Failure 404 "Invoice not found or access denied.", Demo.store).
Proof.
  destruct (invoiceRouter_delete (num:=float) Demo.store Sample.alice "i-7")
    as [[code body|code message] db'] eqn:Hrun;
    [vm_compute in Hrun; discriminate Hrun|].
  destruct (failed_invoice_request_changes_nothing (num:=float) Demo.store
              Sample.alice "i-7" "" 2025 0) as (_ & _ & Hdelete & _).
  rewrite (Hdelete code message db' Hrun).
  pose proof Hrun as Hc. vm_compute in Hc. injection Hc as <- <- _.
  reflexivity.
Defined.

Lemma failed_client_request_changes_nothing_witness :
  authRouter_post_register (num:=float) Demo.store Demo.registration "u-2"
    "salt" 300
  = (Failure 400 "User with this email already exists.", Demo.store).
Proof.
  destruct (authRouter_post_register (num:=float) Demo.store
              Demo.registration "u-2" "salt" 300)
    as [[code body|code message] db'] eqn:Hrun;
    [vm_compute in Hrun; discriminate Hrun|].
  destruct (failed_client_request_changes_nothing (num:=float) Demo.store
              Sample.alice "" "u-2" "salt" 300) as (_ & _ & _ & Hregister).
  rewrite (Hregister Demo.registration code message db' Hrun).
  pose proof Hrun as Hc. vm_compute in Hc. injection Hc as <- <- _.
  reflexivity.
Defined.

(** The summary of Alice does not see what Bob stores. *)
Lemma summary_reads_own_invoices_witness :
  List.length (payments (Demo.crowded (num:=float))) = 2%nat /\
  reportRouter_get_summary (num:=float) Demo.crowded Sample.alice 4000
  = reportRouter_get_summary Demo.store Sample.alice 4000.
Proof.
  split; [reflexivity|].
  apply summary_reads_own_invoices.
  - vm_compute. reflexivity.
  - intros inv Hin. each_of Hin; vm_compute; reflexivity.
Defined.

End FurtherWitnesses.
